(** * Attitude estimation module (flight/Modules/Attitude/attitude.c)

    A shallow embedding of the CopterControl attitude estimator: the sensor
    conditioning stage [updateSensors], the complementary filter
    [updateAttitude] and one pass of the [AttitudeTask] main loop, over IEEE-754
    binary32 and binary64 arithmetic as specified by the Standard Library's
    [SpecFloat]. *)

From Stdlib Require Import ZArith Bool List Lia Reals Lra.
From Stdlib Require Import Floats.SpecFloat.
Import ListNotations.

Local Open Scope Z_scope.

(** The real numbers, used to state bounds on the values of floats.  (The
    name [R] is taken below by the rotation matrix of the module.) *)
Abbreviation real := R (only parsing).

(** ** Floating-point arithmetic

    The C types [float] and [double] are binary32 and binary64.  Every
    operation rounds to nearest-even in the format of its (promoted) operands,
    as on the soft-float Cortex-M3 target. *)

Definition float32 := spec_float.
Definition float64 := spec_float.

Module F32.
Definition prec : Z := 24.
Definition emax : Z := 128.
Definition add : float32 -> float32 -> float32 := SFadd prec emax.
Definition sub : float32 -> float32 -> float32 := SFsub prec emax.
Definition mul : float32 -> float32 -> float32 := SFmul prec emax.
Definition div : float32 -> float32 -> float32 := SFdiv prec emax.
Definition neg : float32 -> float32 := SFopp.
Definition ltb : float32 -> float32 -> bool := SFltb.
Definition leb : float32 -> float32 -> bool := SFleb.
Definition eqb : float32 -> float32 -> bool := SFeqb.
(** Conversion of a C integer to [float]. *)
Definition of_Z (z : Z) : float32 := binary_normalize prec emax z 0 false.
(** The [float] literal nearest to the decimal [n / d]: both integers are
    exactly representable and IEEE division is correctly rounded. *)
Definition lit (n d : Z) : float32 := div (of_Z n) (of_Z d).
Definition zero : float32 := S754_zero false.
Definition one : float32 := of_Z 1.
End F32.

Module F64.
Definition prec : Z := 53.
Definition emax : Z := 1024.
Definition add : float64 -> float64 -> float64 := SFadd prec emax.
Definition sub : float64 -> float64 -> float64 := SFsub prec emax.
Definition mul : float64 -> float64 -> float64 := SFmul prec emax.
Definition div : float64 -> float64 -> float64 := SFdiv prec emax.
Definition sqrt : float64 -> float64 := SFsqrt prec emax.
Definition abs : float64 -> float64 := SFabs.
Definition ltb : float64 -> float64 -> bool := SFltb.
Definition eqb : float64 -> float64 -> bool := SFeqb.
Definition of_Z (z : Z) : float64 := binary_normalize prec emax z 0 false.
Definition lit (n d : Z) : float64 := div (of_Z n) (of_Z d).
End F64.

(** Promotion [float] -> [double] (exact) and the rounding conversion
    [double] -> [float] performed by an assignment to a [float] object. *)
Definition to_double (x : float32) : float64 :=
  match x with
  | S754_finite s m e => binary_normalize F64.prec F64.emax (cond_Zopp s (Zpos m)) e s
  | _ => x
  end.

Definition to_float (x : float64) : float32 :=
  match x with
  | S754_finite s m e => binary_normalize F32.prec F32.emax (cond_Zopp s (Zpos m)) e s
  | _ => x
  end.

(** [sqrt] from math.h takes and returns [double]; its result is stored in a
    [float] at every call site of attitude.c. *)
Definition sqrt_to_float (x : float32) : float32 :=
  to_float (F64.sqrt (to_double x)).

(** C comparison [a > b]. *)
Definition gtb (a b : spec_float) : bool := SFltb b a.
(** C comparison [a != b]; true when either side is NaN. *)
Definition neb (a b : spec_float) : bool := negb (SFeqb a b).

(** [M_PI] of math.h: the binary64 number nearest to pi,
    0x1.921FB54442D18p+1. *)
Definition M_PI : float64 := S754_finite false 7074237752028440 (-51).

(** ** Data model *)

(** [float v[3]], [float q[4]] and [float R[3][3]]. *)
Record vec3 := mkVec3 { v0 : float32; v1 : float32; v2 : float32 }.
Record quat := mkQuat { q0 : float32; q1 : float32; q2 : float32; q3 : float32 }.
Record mat3 := mkMat3 { row0 : vec3; row1 : vec3; row2 : vec3 }.

Definition vec3_zero : vec3 := mkVec3 F32.zero F32.zero F32.zero.
Definition quat_identity : quat :=
  mkQuat (F32.of_Z 1) (F32.of_Z 0) (F32.of_Z 0) (F32.of_Z 0).

(** [struct pios_adxl345_data]: one accelerometer sample, [int16_t] counts. *)
Record pios_adxl345_data := mkAccelData { ad_x : Z; ad_y : Z; ad_z : Z }.

(** The fields of [AttitudeRawData] the module writes. *)
Record AttitudeRawData := mkRaw {
  accels : vec3;
  gyros : vec3;
  gyrotemp0 : float32;
  gyrotemp1 : float32
}.

(** [AttitudeActualData]: q1..q4 followed by Roll, Pitch, Yaw. *)
Record AttitudeActualData := mkActual {
  actual_q : quat;
  actual_rpy : vec3
}.

(** The result of [xQueueReceive] on [gyro_queue]: [None] is
    [errQUEUE_EMPTY], otherwise the four floats [gyro[0..3]]. *)
Record gyro_sample := mkGyro {
  gyro_temp : float32; gyro_x : float32; gyro_y : float32; gyro_z : float32
}.

(** Modelled from the spec: the Attitude entry of the SystemAlarms object
    (alarm library, not part of this module), with the severities the
    module uses: Clear (OK), Error and Critical. *)
Inductive alarm_severity :=
  | SYSTEMALARMS_ALARM_OK
  | SYSTEMALARMS_ALARM_ERROR
  | SYSTEMALARMS_ALARM_CRITICAL.

(** The file-scope variables of attitude.c, the function-static
    [lastSysTime] of [updateAttitude], the loop-carried local [init] of
    [AttitudeTask], and the objects the task reads and writes. *)
Record state := mkState {
  gyro_correct_int : vec3;
  accelKi : float32;
  accelKp : float32;
  yawBiasRate : float32;
  gyroGain : float32;
  accelbias : Z * Z * Z;
  q : quat;
  R : mat3;
  rotate : Z;
  zero_during_arming : bool;
  bias_correct_gyro : bool;
  lastSysTime : Z;
  init : Z;
  alarm_attitude : alarm_severity;
  wdg_updates : nat;
  attitudeRaw_obj : AttitudeRawData;
  attitudeActual_obj : AttitudeActualData
}.

(** ** Constants *)

Definition GYRO_NEUTRAL : Z := 1665.
(** [UPDATE_RATE * 2], the queue timeout in ticks. *)
Definition UPDATE_RATE_x2 : Z := 4.

(** Modelled from the spec: the FreeRTOS port macros are not part of this
    file.  The tick counter has millisecond granularity (1000 ticks per
    second, so [portTICK_RATE_MS] is 1) and is 32 bits wide
    ([portMAX_DELAY] is the all-ones tick value). *)
Definition portTICK_RATE_MS : Z := 1.
Definition portMAX_DELAY : Z := 4294967295.

(** Modelled from the spec: the generated FlightStatus object is not part of
    this file; [Armed] has the options Disarmed, Arming, Armed in that
    order. *)
Definition FLIGHTSTATUS_ARMED_ARMING : Z := 1.

(** Wrap-around of the C integer types used by the module. *)
Definition wrap_u8 (z : Z) : Z := z mod 256.
Definition wrap_u32 (z : Z) : Z := z mod 4294967296.
Definition wrap_s32 (z : Z) : Z := (z + 2147483648) mod 4294967296 - 2147483648.

(** ** Library helpers *)

(** Modelled from the spec: [rot_mult(M, v, out)] of CoordinateConversions,
    the matrix-vector product. *)
Definition rot_mult (M : mat3) (v : vec3) : vec3 :=
  let dot r :=
    F32.add (F32.add (F32.mul (v0 r) (v0 v)) (F32.mul (v1 r) (v1 v)))
            (F32.mul (v2 r) (v2 v)) in
  mkVec3 (dot (row0 M)) (dot (row1 M)) (dot (row2 M)).

(** Modelled from the spec: [CrossProduct(a, b, out)] of
    CoordinateConversions, the vector cross product. *)
Definition CrossProduct (a b : vec3) : vec3 :=
  mkVec3 (F32.sub (F32.mul (v1 a) (v2 b)) (F32.mul (v2 a) (v1 b)))
         (F32.sub (F32.mul (v2 a) (v0 b)) (F32.mul (v0 a) (v2 b)))
         (F32.sub (F32.mul (v0 a) (v1 b)) (F32.mul (v1 a) (v0 b))).

(** The C library and the trigonometric quaternion-to-Euler conversion are
    external; the estimator is parameterised over them. *)
Class MathLib := {
  acosf : float32 -> float32;
  Quaternion2RPY : quat -> vec3
}.

(** The ADXL345 driver: [PIOS_ADXL345_FifoElements] reports the number of
    buffered samples, [PIOS_ADXL345_Read] fetches one sample and returns the
    number still buffered. *)
Class Adxl345 (D : Type) := {
  PIOS_ADXL345_FifoElements : D -> Z;
  PIOS_ADXL345_Read : D -> pios_adxl345_data * Z * D
}.

(** Modelled from the spec: a driver whose FIFO is a list of samples; a read
    pops the oldest sample and reports how many remain (an empty FIFO reads as
    a zero sample). *)
#[export] Instance fifo_driver : Adxl345 (list pios_adxl345_data) := {
  PIOS_ADXL345_FifoElements := fun d => wrap_u8 (Z.of_nat (length d));
  PIOS_ADXL345_Read := fun d =>
    match d with
    | [] => (mkAccelData 0 0 0, 0, [])
    | s :: rest => (s, wrap_u8 (Z.of_nat (length rest)), rest)
    end
}.

(** Functional update of the fields the code assigns. *)
Definition set_gyro_correct_int (s : state) (v : vec3) : state :=
  mkState v (accelKi s) (accelKp s) (yawBiasRate s) (gyroGain s) (accelbias s)
          (q s) (R s) (rotate s) (zero_during_arming s) (bias_correct_gyro s)
          (lastSysTime s) (init s) (alarm_attitude s) (wdg_updates s)
          (attitudeRaw_obj s) (attitudeActual_obj s).

Definition set_gains (s : state) (kp ki yaw : float32) (i : Z) : state :=
  mkState (gyro_correct_int s) ki kp yaw (gyroGain s) (accelbias s)
          (q s) (R s) (rotate s) (zero_during_arming s) (bias_correct_gyro s)
          (lastSysTime s) i (alarm_attitude s) (wdg_updates s)
          (attitudeRaw_obj s) (attitudeActual_obj s).

Definition set_q (s : state) (q' : quat) : state :=
  mkState (gyro_correct_int s) (accelKi s) (accelKp s) (yawBiasRate s)
          (gyroGain s) (accelbias s) q' (R s) (rotate s) (zero_during_arming s)
          (bias_correct_gyro s) (lastSysTime s) (init s) (alarm_attitude s)
          (wdg_updates s) (attitudeRaw_obj s) (attitudeActual_obj s).

Definition set_lastSysTime (s : state) (t : Z) : state :=
  mkState (gyro_correct_int s) (accelKi s) (accelKp s) (yawBiasRate s)
          (gyroGain s) (accelbias s) (q s) (R s) (rotate s)
          (zero_during_arming s) (bias_correct_gyro s) t (init s)
          (alarm_attitude s) (wdg_updates s) (attitudeRaw_obj s)
          (attitudeActual_obj s).

(** [AlarmsSet(SYSTEMALARMS_ALARM_ATTITUDE, sev)]; [AlarmsClear] sets OK. *)
Definition AlarmsSet (s : state) (sev : alarm_severity) : state :=
  mkState (gyro_correct_int s) (accelKi s) (accelKp s) (yawBiasRate s)
          (gyroGain s) (accelbias s) (q s) (R s) (rotate s)
          (zero_during_arming s) (bias_correct_gyro s) (lastSysTime s) (init s)
          sev (wdg_updates s) (attitudeRaw_obj s) (attitudeActual_obj s).

Definition AlarmsClear (s : state) : state := AlarmsSet s SYSTEMALARMS_ALARM_OK.

Definition PIOS_WDG_UpdateFlag (s : state) : state :=
  mkState (gyro_correct_int s) (accelKi s) (accelKp s) (yawBiasRate s)
          (gyroGain s) (accelbias s) (q s) (R s) (rotate s)
          (zero_during_arming s) (bias_correct_gyro s) (lastSysTime s) (init s)
          (alarm_attitude s) (S (wdg_updates s)) (attitudeRaw_obj s)
          (attitudeActual_obj s).

Definition AttitudeRawSet (s : state) (raw : AttitudeRawData) : state :=
  mkState (gyro_correct_int s) (accelKi s) (accelKp s) (yawBiasRate s)
          (gyroGain s) (accelbias s) (q s) (R s) (rotate s)
          (zero_during_arming s) (bias_correct_gyro s) (lastSysTime s) (init s)
          (alarm_attitude s) (wdg_updates s) raw (attitudeActual_obj s).

Definition AttitudeActualSet (s : state) (a : AttitudeActualData) : state :=
  mkState (gyro_correct_int s) (accelKi s) (accelKp s) (yawBiasRate s)
          (gyroGain s) (accelbias s) (q s) (R s) (rotate s)
          (zero_during_arming s) (bias_correct_gyro s) (lastSysTime s) (init s)
          (alarm_attitude s) (wdg_updates s) (attitudeRaw_obj s) a.

(** ** Sample acquisition and conditioning: [updateSensors] *)

(** The loop variables of the FIFO drain: the sample count [i] ([uint8_t]),
    the [int32_t] sums and the last [samples_remaining] ([uint8_t]). *)
Record drain_state (D : Type) := mkDrain {
  dr_i : Z;
  dr_x : Z;
  dr_y : Z;
  dr_z : Z;
  dr_remaining : Z;
  dr_dev : D
}.
Arguments mkDrain {D}.
Arguments dr_i {D}.
Arguments dr_x {D}.
Arguments dr_y {D}.
Arguments dr_z {D}.
Arguments dr_remaining {D}.
Arguments dr_dev {D}.

Section Drain.
Context {D : Type} `{Adxl345 D}.

(** One pass through the body of the do-while loop. *)
Definition drain_body (s : drain_state D) : drain_state D :=
  let i := wrap_u8 (dr_i s + 1) in
  let '(accel_data, ret, dev) := PIOS_ADXL345_Read (dr_dev s) in
  mkDrain i
          (wrap_s32 (dr_x s + ad_x accel_data))
          (wrap_s32 (dr_y s + - ad_y accel_data))
          (wrap_s32 (dr_z s + - ad_z accel_data))
          (wrap_u8 ret) dev.

(** [do body while ((i < 32) && (samples_remaining > 0))]: the body runs,
    then the condition decides whether it runs again. *)
Fixpoint drain_loop (fuel : nat) (s : drain_state D) : drain_state D :=
  let s' := drain_body s in
  match fuel with
  | O => s'
  | S fuel' =>
      if (dr_i s' <? 32) && (dr_remaining s' >? 0)
      then drain_loop fuel' s'
      else s'
  end.

(** The loop as entered by [updateSensors], with [i], [x], [y], [z] zero.
    It exits by its own condition within 32 passes
    (see [drain_loop_fuel_irrelevant]). *)
Definition drain (dev : D) : drain_state D :=
  drain_loop 31 (mkDrain 0 0 0 0 0 dev).
End Drain.

(** The float literals [0.004f] and [9.81f]. *)
Definition f_0_004 : float32 := F32.lit 4 1000.
Definition f_9_81 : float32 := F32.lit 981 100.

(** Lines 242-244: raw gyro counts to deg/s, sign flipped on X and Z. *)
Definition gyros_from_counts (gain : float32) (g : gyro_sample) : vec3 :=
  mkVec3
    (F32.mul (F32.neg (F32.sub (gyro_x g) (F32.of_Z GYRO_NEUTRAL))) gain)
    (F32.mul (F32.sub (gyro_y g) (F32.of_Z GYRO_NEUTRAL)) gain)
    (F32.mul (F32.neg (F32.sub (gyro_z g) (F32.of_Z GYRO_NEUTRAL))) gain).

(** Line 261: [{(float) x / i, (float) y / i, (float) z / i}]. *)
Definition accel_average {D} (d : drain_state D) : vec3 :=
  mkVec3 (F32.div (F32.of_Z (dr_x d)) (F32.of_Z (dr_i d)))
         (F32.div (F32.of_Z (dr_y d)) (F32.of_Z (dr_i d)))
         (F32.div (F32.of_Z (dr_z d)) (F32.of_Z (dr_i d))).

(** Lines 263-278: the optional board rotation of both vectors. *)
Definition apply_rotation (s : state) (accel gyro : vec3) : vec3 * vec3 :=
  if negb (rotate s =? 0)
  then (rot_mult (R s) accel, rot_mult (R s) gyro)
  else (accel, gyro).

(** Lines 281-283: [(a - accelbias[k]) * 0.004f * 9.81f]. *)
Definition scale_accel (a : float32) (bias : Z) : float32 :=
  F32.mul (F32.mul (F32.sub a (F32.of_Z bias)) f_0_004) f_9_81.

Definition scale_accels (s : state) (a : vec3) : vec3 :=
  let '(b0, b1, b2) := accelbias s in
  mkVec3 (scale_accel (v0 a) b0) (scale_accel (v1 a) b1) (scale_accel (v2 a) b2).

(** Lines 285-290: the integral term added to the gyros. *)
Definition correct_gyros (s : state) (g : vec3) : vec3 :=
  if bias_correct_gyro s
  then mkVec3 (F32.add (v0 g) (v0 (gyro_correct_int s)))
              (F32.add (v1 g) (v1 (gyro_correct_int s)))
              (F32.add (v2 g) (v2 (gyro_correct_int s)))
  else g.

(** Line 294: [gyro_correct_int[2] += - gyros[Z] * yawBiasRate]. *)
Definition yaw_bias_update (s : state) (gz : float32) : state :=
  let b := gyro_correct_int s in
  set_gyro_correct_int s
    (mkVec3 (v0 b) (v1 b)
            (F32.add (v2 b) (F32.mul (F32.neg gz) (yawBiasRate s)))).

Section Sensors.
Context {D : Type} `{Adxl345 D}.

(** [updateSensors]: the return value (0 or -1), the caller's
    [attitudeRaw], the module state and the driver afterwards. *)
Definition updateSensors (s : state) (dev : D) (rx : option gyro_sample)
           (attitudeRaw : AttitudeRawData)
  : Z * AttitudeRawData * state * D :=
  match rx with
  | None =>
      (-1, attitudeRaw, AlarmsSet s SYSTEMALARMS_ALARM_ERROR, dev)
  | Some gyro =>
      if PIOS_ADXL345_FifoElements dev =? 0
      then (-1, attitudeRaw, s, dev)
      else
        let gyros1 := gyros_from_counts (gyroGain s) gyro in
        let d := drain dev in
        let accel := accel_average d in
        let '(accels2, gyros2) := apply_rotation s accel gyros1 in
        let accels3 := scale_accels s accels2 in
        let gyros3 := correct_gyros s gyros2 in
        let s' := yaw_bias_update s (v2 gyros3) in
        (0,
         mkRaw accels3 gyros3
               (F32.of_Z (dr_remaining d)) (F32.of_Z (dr_i d)),
         s', dr_dev d)
  end.
End Sensors.

(** ** Fusion and propagation: [updateAttitude] *)

(** The literals [9.8f], [1.5f], [1000.0f], [0.0f] and the [double]
    literals [0.001] and [1e-3]. *)
Definition f_9_8 : float32 := F32.lit 98 10.
Definition f_1_5 : float32 := F32.lit 15 10.
Definition f_1000 : float32 := F32.of_Z 1000.
Definition d_0_001 : float64 := F64.lit 1 1000.

(** Line 305: the time step in seconds.  The conditional has type [double];
    the assignment to [dT] rounds it to [float]. *)
Definition compute_dT (thisSysTime lastSysTime : Z) : float32 :=
  if thisSysTime =? lastSysTime
  then to_float d_0_001
  else
    to_float (to_double
      (F32.div
         (F32.of_Z (Z.land portMAX_DELAY (wrap_u32 (thisSysTime - lastSysTime))
                    / portTICK_RATE_MS))
         f_1000)).

(** Lines 321-323: gravity rotated into the body frame. *)
Definition grot_of (q : quat) : vec3 :=
  let two := F32.of_Z 2 in
  mkVec3
    (F32.neg (F32.mul two (F32.sub (F32.mul (q1 q) (q3 q)) (F32.mul (q0 q) (q2 q)))))
    (F32.neg (F32.mul two (F32.add (F32.mul (q2 q) (q3 q)) (F32.mul (q0 q) (q1 q)))))
    (F32.neg
       (F32.add
          (F32.sub (F32.sub (F32.mul (q0 q) (q0 q)) (F32.mul (q1 q) (q1 q)))
                   (F32.mul (q2 q) (q2 q)))
          (F32.mul (q3 q) (q3 q)))).

(** [sqrt(v[0]*v[0] + v[1]*v[1] + v[2]*v[2])] stored in a [float]. *)
Definition vec3_mag (v : vec3) : float32 :=
  sqrt_to_float
    (F32.add (F32.add (F32.mul (v0 v) (v0 v)) (F32.mul (v1 v) (v1 v)))
             (F32.mul (v2 v) (v2 v))).

Definition vec3_dot (a b : vec3) : float32 :=
  F32.add (F32.add (F32.mul (v0 a) (v0 b)) (F32.mul (v1 a) (v1 b)))
          (F32.mul (v2 a) (v2 b)).

(** Lines 362-368, the else branch of the rejection test: the subtractive
    shrink [err -= err * displacement / length], guarded by
    [length > 0.0f]. *)
Definition shrink (err : vec3) (displacement length : float32) : vec3 :=
  mkVec3
    (F32.sub (v0 err) (F32.div (F32.mul (v0 err) displacement) length))
    (F32.sub (v1 err) (F32.div (F32.mul (v1 err) displacement) length))
    (F32.sub (v2 err) (F32.div (F32.mul (v2 err) displacement) length)).

Section Attitude.
Context {ML : MathLib}.

(** Lines 325-335: cross product of accels and grot, stretched to the
    length [error_phi]. *)
Definition gravity_error (accels grot : vec3) : vec3 :=
  let accel_err := CrossProduct accels grot in
  let error_phi := acosf (vec3_dot accels grot) in
  let accel_err_mag := vec3_mag accel_err in
  if gtb accel_err_mag F32.zero
  then
    mkVec3 (F32.mul (v0 accel_err) (F32.div error_phi accel_err_mag))
           (F32.mul (v1 accel_err) (F32.div error_phi accel_err_mag))
           (F32.mul (v2 accel_err) (F32.div error_phi accel_err_mag))
  else accel_err.

(** Lines 350-369: linear-acceleration rejection. *)
Definition reject_linear_accel (accels accel_err : vec3) : vec3 :=
  let accel_mag := vec3_mag accels in
  if F32.leb accel_mag f_9_8 || gtb accel_mag (F32.mul f_1_5 f_9_8)
  then mkVec3 (F32.of_Z 0) (F32.of_Z 0) (F32.of_Z 0)
  else
    let displacement := acosf (F32.div f_9_8 accel_mag) in
    let length := vec3_mag accel_err in
    if gtb length F32.zero
    then shrink accel_err displacement length
    else accel_err.

(** The error vector the filter feeds back, lines 314-369. *)
Definition accel_err_of (q : quat) (accels : vec3) : vec3 :=
  reject_linear_accel accels (gravity_error accels (grot_of q)).
End Attitude.

(** Lines 372-373: the integral of the error; index 2 is not touched. *)
Definition integrate_bias (s : state) (accel_err : vec3) : state :=
  let b := gyro_correct_int s in
  set_gyro_correct_int s
    (mkVec3 (F32.add (v0 b) (F32.mul (v0 accel_err) (accelKi s)))
            (F32.add (v1 b) (F32.mul (v1 accel_err) (accelKi s)))
            (v2 b)).

(** Lines 378-380: [gyro[k] += accel_err[k] * accelKp / dT]. *)
Definition correct_rates (kp dT : float32) (gyro accel_err : vec3) : vec3 :=
  mkVec3 (F32.add (v0 gyro) (F32.div (F32.mul (v0 accel_err) kp) dT))
         (F32.add (v1 gyro) (F32.div (F32.mul (v1 accel_err) kp) dT))
         (F32.add (v2 gyro) (F32.div (F32.mul (v2 accel_err) kp) dT)).

(** [e * dT * M_PI / 180 / 2] stored in a [float]: the product with [dT] is
    a [float], the rest is evaluated in [double]. *)
Definition qdot_scale (e dT : float32) : float32 :=
  to_float
    (F64.div (F64.div (F64.mul (to_double (F32.mul e dT)) M_PI) (F64.of_Z 180))
             (F64.of_Z 2)).

(** Lines 387-396: the time derivative of the quaternion and one Euler
    step. *)
Definition time_step (q : quat) (gyro : vec3) (dT : float32) : quat :=
  let g0 := v0 gyro in
  let g1 := v1 gyro in
  let g2 := v2 gyro in
  let qdot0 := qdot_scale
    (F32.sub (F32.sub (F32.mul (F32.neg (q1 q)) g0) (F32.mul (q2 q) g1))
             (F32.mul (q3 q) g2)) dT in
  let qdot1 := qdot_scale
    (F32.add (F32.sub (F32.mul (q0 q) g0) (F32.mul (q3 q) g1))
             (F32.mul (q2 q) g2)) dT in
  let qdot2 := qdot_scale
    (F32.sub (F32.add (F32.mul (q3 q) g0) (F32.mul (q0 q) g1))
             (F32.mul (q1 q) g2)) dT in
  let qdot3 := qdot_scale
    (F32.add (F32.add (F32.mul (F32.neg (q2 q)) g0) (F32.mul (q1 q) g1))
             (F32.mul (q0 q) g2)) dT in
  mkQuat (F32.add (q0 q) qdot0) (F32.add (q1 q) qdot1)
         (F32.add (q2 q) qdot2) (F32.add (q3 q) qdot3).

(** Lines 387-403: the Euler step followed by the hemisphere fix, which
    negates the four components when [q[0] < 0]. *)
Definition propagate (q : quat) (gyro : vec3) (dT : float32) : quat :=
  let qa := time_step q gyro dT in
  if F32.ltb (q0 qa) (F32.of_Z 0)
  then mkQuat (F32.neg (q0 qa)) (F32.neg (q1 qa)) (F32.neg (q2 qa))
              (F32.neg (q3 qa))
  else qa.

(** Line 407: the norm of the quaternion, stored in a [float]. *)
Definition quat_mag (q : quat) : float32 :=
  sqrt_to_float
    (F32.add
       (F32.add (F32.add (F32.mul (q0 q) (q0 q)) (F32.mul (q1 q) (q1 q)))
                (F32.mul (q2 q) (q2 q)))
       (F32.mul (q3 q) (q3 q))).

(** Line 415: [(fabs(qmag) < 1e-3) || (qmag != qmag)]. *)
Definition needs_reinit (qmag : float32) : bool :=
  F64.ltb (F64.abs (to_double qmag)) d_0_001 || neb qmag qmag.

(** Lines 407-420: renormalisation and the defensive re-initialisation. *)
Definition renormalize (q : quat) : quat :=
  let qmag := quat_mag q in
  let qn := mkQuat (F32.div (q0 q) qmag) (F32.div (q1 q) qmag)
                   (F32.div (q2 q) qmag) (F32.div (q3 q) qmag) in
  if needs_reinit qmag then quat_identity else qn.

Section AttitudeStep.
Context {ML : MathLib}.

(** [updateAttitude], with [thisSysTime] the value [xTaskGetTickCount]
    returns at line 302. *)
Definition updateAttitude (s : state) (thisSysTime : Z)
           (attitudeRaw : AttitudeRawData) : state :=
  let dT := compute_dT thisSysTime (lastSysTime s) in
  let s1 := set_lastSysTime s thisSysTime in
  let accel_err := accel_err_of (q s1) (accels attitudeRaw) in
  let s2 := integrate_bias s1 accel_err in
  let gyro := correct_rates (accelKp s2) dT (gyros attitudeRaw) accel_err in
  let q' := renormalize (propagate (q s2) gyro dT) in
  let s3 := set_q s2 q' in
  AttitudeActualSet s3 (mkActual q' (Quaternion2RPY q')).
End AttitudeStep.

(** ** The estimator task: one pass of the main loop of [AttitudeTask] *)

(** What the environment supplies during one pass: the armed state read by
    [FlightStatusGet], the values returned by the successive calls of
    [xTaskGetTickCount] (two in the startup test, one in [updateAttitude]),
    the three gains held by the AttitudeSettings object, and the outcome of
    [xQueueReceive]. *)
Record cycle_input := mkInput {
  in_armed : Z;
  in_tick_a : Z;
  in_tick_b : Z;
  in_tick_c : Z;
  in_settings_AccelKi : float32;
  in_settings_AccelKp : float32;
  in_settings_YawBiasRate : float32;
  in_gyro_rx : option gyro_sample
}.

(** The gains assigned at lines 187-189 and 193-195: [1], [0.9], [0.23]
    ([double] literals stored in [float] variables). *)
Definition startup_kp : float32 := F32.of_Z 1.
Definition startup_ki : float32 := to_float (F64.lit 9 10).
Definition startup_yaw_bias_rate : float32 := to_float (F64.lit 23 100).

(** Line 185: [(xTaskGetTickCount() < 7000) && (xTaskGetTickCount() > 1000)]. *)
Definition in_startup_window (tick_a tick_b : Z) : bool :=
  (tick_a <? 7000) && (tick_b >? 1000).

(** Line 192. *)
Definition arming_condition (s : state) (armed : Z) : bool :=
  zero_during_arming s && (armed =? FLIGHTSTATUS_ARMED_ARMING).

(** Which arm of the if / else-if chain at lines 185-203 runs. *)
Inductive gain_branch :=
  | BranchStartup
  | BranchArming
  | BranchReload
  | BranchNone.

Definition select_gain_branch (s : state) (i : cycle_input) : gain_branch :=
  if in_startup_window (in_tick_a i) (in_tick_b i) then BranchStartup
  else if arming_condition s (in_armed i) then BranchArming
  else if init s =? 0 then BranchReload
  else BranchNone.

(** Lines 185-203. *)
Definition startup_policy (s : state) (i : cycle_input) : state :=
  match select_gain_branch s i with
  | BranchStartup =>
      set_gains s startup_kp startup_ki startup_yaw_bias_rate 0
  | BranchArming =>
      set_gains s startup_kp startup_ki startup_yaw_bias_rate 0
  | BranchReload =>
      set_gains s (in_settings_AccelKp i) (in_settings_AccelKi i)
                (in_settings_YawBiasRate i) 1
  | BranchNone => s
  end.

Section Task.
Context {ML : MathLib} {D : Type} `{Adxl345 D}.

(** Lines 182-216: the body of [while (1)]. *)
Definition AttitudeTask_cycle (s : state) (dev : D) (i : cycle_input)
  : state * D :=
  let s1 := startup_policy s i in
  let s2 := PIOS_WDG_UpdateFlag s1 in
  let attitudeRaw := attitudeRaw_obj s2 in
  let '(ret, attitudeRaw', s3, dev') :=
    updateSensors s2 dev (in_gyro_rx i) attitudeRaw in
  if negb (ret =? 0)
  then (AlarmsSet s3 SYSTEMALARMS_ALARM_ERROR, dev')
  else
    let s4 := updateAttitude s3 (in_tick_c i) attitudeRaw' in
    let s5 := AttitudeRawSet s4 attitudeRaw' in
    (AlarmsClear s5, dev').
End Task.

(** ** A reference math library

    Modelled from the spec: [acosf] (C library) is the arc cosine and is NaN
    outside [-1, 1]; [Quaternion2RPY] (CoordinateConversions) gives roll,
    pitch and yaw in degrees.  Neither is part of attitude.c.  This instance
    evaluates them in binary64 (arc tangent by argument halving and its
    series) and rounds to [float]; it serves to run the model on concrete
    inputs, while the theorems below hold for every [MathLib]. *)
Module RefLibm.
Definition one : float64 := F64.of_Z 1.
Definition two : float64 := F64.of_Z 2.

(** [sum_{j < n} (-1)^j t^j / (2j+1)] by Horner's rule, highest term first. *)
Fixpoint atan_poly (n : nat) (t acc : float64) : float64 :=
  match n with
  | O => acc
  | S n' =>
      let c := F64.div (F64.of_Z (if Nat.even n' then 1 else -1))
                       (F64.of_Z (2 * Z.of_nat n' + 1)) in
      atan_poly n' t (F64.add c (F64.mul t acc))
  end.

(** [atan x = 2 atan (x / (1 + sqrt (1 + x^2)))], applied [k] times. *)
Fixpoint atan_halve (k : nat) (x : float64) : float64 :=
  match k with
  | O => F64.mul x (atan_poly 12 (F64.mul x x) (S754_zero false))
  | S k' =>
      F64.mul two
        (atan_halve k'
           (F64.div x (F64.add one (F64.sqrt (F64.add one (F64.mul x x))))))
  end.

Definition atan (x : float64) : float64 := atan_halve 6 x.

Definition acos (x : float64) : float64 :=
  if SFleb (SFopp one) x && SFleb x one
  then
    if SFeqb x (SFopp one) then M_PI
    else F64.mul two (atan (F64.sqrt (F64.div (F64.sub one x) (F64.add one x))))
  else S754_nan.

Definition atan2 (y x : float64) : float64 :=
  if SFltb (S754_zero false) x then atan (F64.div y x)
  else if SFltb x (S754_zero false) then
    if SFltb y (S754_zero false)
    then F64.sub (atan (F64.div y x)) M_PI
    else F64.add (atan (F64.div y x)) M_PI
  else if SFltb (S754_zero false) y then F64.div M_PI two
  else if SFltb y (S754_zero false) then SFopp (F64.div M_PI two)
  else y.

Definition asin (x : float64) : float64 :=
  if SFleb (SFopp one) x && SFleb x one
  then atan2 x (F64.sqrt (F64.sub one (F64.mul x x)))
  else S754_nan.

Definition rad2deg (x : float64) : float32 :=
  to_float (F64.div (F64.mul x (F64.of_Z 180)) M_PI).

Definition quat_to_rpy (q : quat) : vec3 :=
  let two32 := F32.of_Z 2 in
  let q0s := F32.mul (q0 q) (q0 q) in
  let q1s := F32.mul (q1 q) (q1 q) in
  let q2s := F32.mul (q2 q) (q2 q) in
  let q3s := F32.mul (q3 q) (q3 q) in
  let R13 := F32.mul two32 (F32.sub (F32.mul (q1 q) (q3 q)) (F32.mul (q0 q) (q2 q))) in
  let R11 := F32.sub (F32.sub (F32.add q0s q1s) q2s) q3s in
  let R12 := F32.mul two32 (F32.add (F32.mul (q1 q) (q2 q)) (F32.mul (q0 q) (q3 q))) in
  let R23 := F32.mul two32 (F32.add (F32.mul (q2 q) (q3 q)) (F32.mul (q0 q) (q1 q))) in
  let R33 := F32.add (F32.sub (F32.sub q0s q1s) q2s) q3s in
  mkVec3 (rad2deg (atan2 (to_double R23) (to_double R33)))
         (rad2deg (asin (to_double (F32.neg R13))))
         (rad2deg (atan2 (to_double R12) (to_double R11))).

Definition lib : MathLib := {|
  acosf := fun x => to_float (acos (to_double x));
  Quaternion2RPY := quat_to_rpy
|}.
End RefLibm.

(** Projections of the result of [updateSensors]. *)
Definition us_ret {D} (r : Z * AttitudeRawData * state * D) : Z := fst (fst (fst r)).
Definition us_raw {D} (r : Z * AttitudeRawData * state * D) : AttitudeRawData :=
  snd (fst (fst r)).
Definition us_state {D} (r : Z * AttitudeRawData * state * D) : state := snd (fst r).
Definition us_dev {D} (r : Z * AttitudeRawData * state * D) : D := snd r.

(** ** The conditioning order as the overview of the spec words it

    "subtract accelerometer bias and scale to m/s^2, apply optional board
    rotation": bias and scale first, rotation second.  It is compared with
    the order of the code further down. *)
Definition condition_accels_bias_then_rotate (s : state) (accel : vec3) : vec3 :=
  let scaled := scale_accels s accel in
  if negb (rotate s =? 0) then rot_mult (R s) scaled else scaled.

(** ** Concrete states and inputs used to run the model *)

Definition zero_raw : AttitudeRawData :=
  mkRaw vec3_zero vec3_zero F32.zero F32.zero.

(** The state left by the initialisers of the file-scope variables and by
    [AttitudeInitialize]; [AttitudeTask] clears the alarm on entry. *)
Definition initial_state : state :=
  mkState vec3_zero F32.zero F32.zero F32.zero (to_float (F64.lit 42 100))
          (0, 0, 0) quat_identity (mkMat3 vec3_zero vec3_zero vec3_zero) 0
          false true 0 0 SYSTEMALARMS_ALARM_OK 0 zero_raw
          (mkActual quat_identity vec3_zero).

(** A gyro sample at the neutral count on all three axes. *)
Definition neutral_gyro : gyro_sample :=
  mkGyro F32.zero (F32.of_Z 1665) (F32.of_Z 1665) (F32.of_Z 1665).

(** A pass of the loop at tick [t] with the gyro sample [rx]. *)
Definition input_at (t : Z) (rx : option gyro_sample) : cycle_input :=
  mkInput 0 t t t (F32.lit 1 10000) (F32.lit 5 100) (F32.lit 1 1000000) rx.

(** A board mounted with a quarter turn about Z, and a nonzero
    accelerometer bias. *)
Definition yaw90 : mat3 :=
  mkMat3 (mkVec3 F32.zero (F32.of_Z 1) F32.zero)
         (mkVec3 (F32.of_Z (-1)) F32.zero F32.zero)
         (mkVec3 F32.zero F32.zero (F32.of_Z 1)).

Definition rotated_state : state :=
  mkState vec3_zero F32.zero F32.zero F32.zero (to_float (F64.lit 42 100))
          (10, 0, 0) quat_identity yaw90 1
          false true 0 0 SYSTEMALARMS_ALARM_OK 0 zero_raw
          (mkActual quat_identity vec3_zero).

(** A FIFO holding one sample of 100 counts on X. *)
Definition one_sample : list pios_adxl345_data := [mkAccelData 100 0 0].

(** An acceleration along Y whose magnitude is exactly [1.5f * 9.8f]. *)
Definition boundary_accels : vec3 :=
  mkVec3 F32.zero (F32.mul f_1_5 f_9_8) F32.zero.

(** A gyro gain of 1e30 in the settings, and a gyro sample one count below
    neutral on X: the X rate is then about 1e30 deg/s. *)
Definition overflow_state : state :=
  mkState vec3_zero F32.zero F32.zero F32.zero (F32.of_Z (10 ^ 30))
          (0, 0, 0) quat_identity (mkMat3 vec3_zero vec3_zero vec3_zero) 0
          false true 0 0 SYSTEMALARMS_ALARM_OK 0 zero_raw
          (mkActual quat_identity vec3_zero).

Definition low_x_gyro : gyro_sample :=
  mkGyro F32.zero (F32.of_Z 1664) (F32.of_Z 1665) (F32.of_Z 1665).

Definition quat_zero : quat := mkQuat F32.zero F32.zero F32.zero F32.zero.

(** The value of [q] before the renormalisation of line 407, and the norm
    [qmag] computed there. *)
Definition propagated_q {ML : MathLib} (s : state) (thisSysTime : Z)
           (attitudeRaw : AttitudeRawData) : quat :=
  let dT := compute_dT thisSysTime (lastSysTime s) in
  propagate (q s)
    (correct_rates (accelKp s) dT (gyros attitudeRaw)
       (accel_err_of (q s) (accels attitudeRaw)))
    dT.

Definition updateAttitude_qmag {ML : MathLib} (s : state) (thisSysTime : Z)
           (attitudeRaw : AttitudeRawData) : float32 :=
  quat_mag (propagated_q s thisSysTime attitudeRaw).

(** The value of [accel_err] at line 335, before the rejection test of
    lines 350-369. *)
Definition stretched_err {ML : MathLib} (s : state)
           (attitudeRaw : AttitudeRawData) : vec3 :=
  gravity_error (accels attitudeRaw) (grot_of (q s)).

(** The value of [q] after the time step of lines 393-396, before the sign
    test of line 398. *)
Definition stepped_q {ML : MathLib} (s : state) (thisSysTime : Z)
           (attitudeRaw : AttitudeRawData) : quat :=
  let dT := compute_dT thisSysTime (lastSysTime s) in
  time_step (q s)
    (correct_rates (accelKp s) dT (gyros attitudeRaw)
       (accel_err_of (q s) (accels attitudeRaw)))
    dT.

(** A craft lying on its back ([q = (0, 1, 0, 0)]) and rolling at
    10 deg/s: the time step drives [q[0]] below zero. *)
Definition inverted_state : state :=
  set_q initial_state (mkQuat F32.zero (F32.of_Z 1) F32.zero F32.zero).

Definition rolling_raw : AttitudeRawData :=
  mkRaw vec3_zero (mkVec3 (F32.of_Z 10) F32.zero F32.zero) F32.zero F32.zero.

(** ** Real-number semantics of floats *)

(** [2 ^ e] for any integer [e]. *)
Definition pw (e : Z) : real := powerRZ 2 e.

Definition sgn (s : bool) : real := if s then (-1)%R else 1%R.

(** The real number a float denotes (0 for infinities and NaN, which
    [is_finite] tells apart). *)
Definition B2R (x : spec_float) : real :=
  match x with
  | S754_finite s m e => (sgn s * IZR (Zpos m) * pw e)%R
  | _ => 0%R
  end.

Definition is_finite (x : spec_float) : bool :=
  match x with
  | S754_finite _ _ _ | S754_zero _ => true
  | _ => false
  end.

Definition is_pos_inf (x : spec_float) : bool :=
  match x with
  | S754_infinity false => true
  | _ => false
  end.

(** The relative and the absolute error bound of one rounding; crude: every
    rounding is within one unit in the last place. *)
Definition u_ (prec : Z) : real := pw (1 - prec).
Definition eta_ (prec emax : Z) : real := pw (emin prec emax).

(** What rounding the nonnegative mantissa [m1] at exponent [e1] returns: a
    zero when [m1] is zero, otherwise the number [m1 * 2 ^ e1], or an
    infinity when its exponent is out of range. *)
Definition round_result (prec emax : Z) (s : bool) (m1 e1 : Z) (r : spec_float) : Prop :=
  (m1 = 0 /\ r = S754_zero s) \/
  (0 < m1 /\
   exists (m' : positive) (e' : Z),
     e1 <= e' <= e1 + 1 /\ Zpos m' * 2 ^ (e' - e1) = m1 /\ Zpos m' < 2 ^ prec /\
     r = if e' <=? emax - prec then S754_finite s m' e' else S754_infinity s).

(** Numeric bounds used in the error analysis: [rel32] and [rel64] bound the
    relative error of a binary32 and of a binary64 operation, [tiny] every
    absolute (underflow) error. *)
Definition rel32 : real := (1 / 8000000)%R.
Definition rel64 : real := (1 / 1000000000000000)%R.
Definition tiny : real := (1 / 10000000000000000000000000000000000000000)%R.

(** A quaternion with four finite components, and its Euclidean norm. *)
Definition quat_finite (q : quat) : bool :=
  is_finite (q0 q) && is_finite (q1 q) && is_finite (q2 q) && is_finite (q3 q).

Definition quat_norm (q : quat) : real :=
  sqrt (B2R (q0 q) * B2R (q0 q) + B2R (q1 q) * B2R (q1 q)
        + B2R (q2 q) * B2R (q2 q) + B2R (q3 q) * B2R (q3 q)).

(** A square root is never negative: it is NaN, +infinity, a zero or a
    positive finite number. *)
Definition sqrt_class (x : spec_float) : Prop :=
  x = S754_nan \/ x = S754_infinity false \/ (exists s, x = S754_zero s) \/
  exists (m : positive) (e : Z), x = S754_finite false m e.

(** ** Settings: [settingsUpdatedCb] *)

(** Modelled from the spec: the generated AttitudeSettings object is not
    part of this file.  The gains and the gyro gain are [float]s; the
    accelerometer bias (raw counts), the persisted gyro bias (hundredths of
    deg/s) and the board rotation (degrees) are [int16_t] triples; the two
    flags are enumerations with the options False, True in that order. *)
Record AttitudeSettingsData := mkSettings {
  GyroGain : float32;
  AccelKp : float32;
  AccelKi : float32;
  YawBiasRate : float32;
  ZeroDuringArming : Z;
  BiasCorrectGyro : Z;
  AccelBias : Z * Z * Z;
  GyroBias : Z * Z * Z;
  BoardRotation : Z * Z * Z
}.

Definition ATTITUDESETTINGS_ZERODURINGARMING_TRUE : Z := 1.
Definition ATTITUDESETTINGS_BIASCORRECTGYRO_TRUE : Z := 1.

(** The quaternion helpers of CoordinateConversions used to build the
    board-rotation matrix are external; the callback is parameterised over
    them. *)
Class RotationLib := {
  Quaternion2R : quat -> mat3;
  RPY2Quaternion : vec3 -> quat
}.

(** Lines 450-452: [GyroBias[k] / 100.0f]. *)
Definition gyro_bias_seed (g : Z) : float32 :=
  F32.div (F32.of_Z g) (F32.of_Z 100).

(** Line 455: all three board-rotation angles are zero. *)
Definition no_board_rotation (attitudeSettings : AttitudeSettingsData) : bool :=
  let '(r0, r1, r2) := BoardRotation attitudeSettings in
  (r0 =? 0) && (r1 =? 0) && (r2 =? 0).

Section Settings.
Context {RL : RotationLib}.

(** [settingsUpdatedCb], with [attitudeSettings] the snapshot read by
    [AttitudeSettingsGet]. *)
Definition settingsUpdatedCb (s : state) (attitudeSettings : AttitudeSettingsData)
  : state :=
  let '(g0, g1, g2) := GyroBias attitudeSettings in
  let '(r0, r1, r2) := BoardRotation attitudeSettings in
  let rotationQuat :=
    if no_board_rotation attitudeSettings
    then mkQuat (F32.of_Z 1) (F32.of_Z 0) (F32.of_Z 0) (F32.of_Z 0)
    else RPY2Quaternion (mkVec3 (F32.of_Z r0) (F32.of_Z r1) (F32.of_Z r2)) in
  mkState
    (mkVec3 (gyro_bias_seed g0) (gyro_bias_seed g1) (gyro_bias_seed g2))
    (AccelKi attitudeSettings) (AccelKp attitudeSettings)
    (YawBiasRate attitudeSettings) (GyroGain attitudeSettings)
    (AccelBias attitudeSettings)
    (q s)
    (Quaternion2R rotationQuat)
    (if no_board_rotation attitudeSettings then 0 else 1)
    (ZeroDuringArming attitudeSettings =? ATTITUDESETTINGS_ZERODURINGARMING_TRUE)
    (BiasCorrectGyro attitudeSettings =? ATTITUDESETTINGS_BIASCORRECTGYRO_TRUE)
    (lastSysTime s) (init s) (alarm_attitude s) (wdg_updates s)
    (attitudeRaw_obj s) (attitudeActual_obj s).
End Settings.

(** ** A reference rotation library

    Modelled from the spec: [Quaternion2R] (CoordinateConversions) gives the
    rotation matrix of a quaternion, [RPY2Quaternion] the quaternion of roll,
    pitch and yaw given in degrees, with a nonnegative first component.
    Neither is part of attitude.c.  This instance takes cosine and sine from
    their series in binary64 (adequate for angles up to a turn) and rounds to
    [float]; it serves to run the model on concrete inputs, while the
    theorems below hold for every [RotationLib]. *)
Module RefRotation.
Fixpoint zfact (n : nat) : Z :=
  match n with
  | O => 1
  | S k => Z.of_nat (S k) * zfact k
  end.

(** [sum_{j < n} (-1)^j t^j / (2j + k)!] by Horner's rule, highest term
    first; [k] is 0 for the cosine and 1 for the sine. *)
Fixpoint trig_poly (k n : nat) (t acc : float64) : float64 :=
  match n with
  | O => acc
  | S n' =>
      let c := F64.div (F64.of_Z (if Nat.even n' then 1 else -1))
                       (F64.of_Z (zfact (2 * n' + k))) in
      trig_poly k n' t (F64.add c (F64.mul t acc))
  end.

Definition cosf (x : float32) : float32 :=
  let xd := to_double x in
  to_float (trig_poly 0 14 (F64.mul xd xd) (S754_zero false)).

Definition sinf (x : float32) : float32 :=
  let xd := to_double x in
  to_float (F64.mul xd (trig_poly 1 14 (F64.mul xd xd) (S754_zero false))).

(** Half an angle given in degrees, in radians. *)
Definition half_rad (deg : float32) : float32 :=
  to_float (F64.div (F64.mul (F64.div M_PI (F64.of_Z 180)) (to_double deg))
                    (F64.of_Z 2)).

Definition rpy_to_quat (rpy : vec3) : quat :=
  let cphi := cosf (half_rad (v0 rpy)) in
  let sphi := sinf (half_rad (v0 rpy)) in
  let ctheta := cosf (half_rad (v1 rpy)) in
  let stheta := sinf (half_rad (v1 rpy)) in
  let cpsi := cosf (half_rad (v2 rpy)) in
  let spsi := sinf (half_rad (v2 rpy)) in
  let qa :=
    mkQuat
      (F32.add (F32.mul (F32.mul cphi ctheta) cpsi) (F32.mul (F32.mul sphi stheta) spsi))
      (F32.sub (F32.mul (F32.mul sphi ctheta) cpsi) (F32.mul (F32.mul cphi stheta) spsi))
      (F32.add (F32.mul (F32.mul cphi stheta) cpsi) (F32.mul (F32.mul sphi ctheta) spsi))
      (F32.sub (F32.mul (F32.mul cphi ctheta) spsi) (F32.mul (F32.mul sphi stheta) cpsi)) in
  if F32.ltb (q0 qa) (F32.of_Z 0)
  then mkQuat (F32.neg (q0 qa)) (F32.neg (q1 qa)) (F32.neg (q2 qa)) (F32.neg (q3 qa))
  else qa.

Definition quat_to_R (q : quat) : mat3 :=
  let two := F32.of_Z 2 in
  let q0s := F32.mul (q0 q) (q0 q) in
  let q1s := F32.mul (q1 q) (q1 q) in
  let q2s := F32.mul (q2 q) (q2 q) in
  let q3s := F32.mul (q3 q) (q3 q) in
  mkMat3
    (mkVec3 (F32.sub (F32.sub (F32.add q0s q1s) q2s) q3s)
            (F32.mul two (F32.add (F32.mul (q1 q) (q2 q)) (F32.mul (q0 q) (q3 q))))
            (F32.mul two (F32.sub (F32.mul (q1 q) (q3 q)) (F32.mul (q0 q) (q2 q)))))
    (mkVec3 (F32.mul two (F32.sub (F32.mul (q1 q) (q2 q)) (F32.mul (q0 q) (q3 q))))
            (F32.sub (F32.add (F32.sub q0s q1s) q2s) q3s)
            (F32.mul two (F32.add (F32.mul (q2 q) (q3 q)) (F32.mul (q0 q) (q1 q)))))
    (mkVec3 (F32.mul two (F32.add (F32.mul (q1 q) (q3 q)) (F32.mul (q0 q) (q2 q))))
            (F32.mul two (F32.sub (F32.mul (q2 q) (q3 q)) (F32.mul (q0 q) (q1 q))))
            (F32.add (F32.sub (F32.sub q0s q1s) q2s) q3s)).

Definition lib : RotationLib := {|
  Quaternion2R := quat_to_R;
  RPY2Quaternion := rpy_to_quat
|}.
End RefRotation.

(** ** Initialisation: [AttitudeInitialize] *)

(** What [AttitudeInitialize] registers with the platform: the gyro queue
    handed to the ADC driver and the settings callback. *)
Record registrations := mkRegistrations {
  adc_queue_set : bool;
  settings_callback_connected : bool
}.

(** [AttitudeInitialize]: [queue_created] tells whether [xQueueCreate]
    returned a queue.  The result is the return value, the module state and
    what has been registered. *)
Definition AttitudeInitialize (s : state) (queue_created : bool)
  : Z * state * registrations :=
  let attitude :=
    mkActual (mkQuat (F32.of_Z 1) (F32.of_Z 0) (F32.of_Z 0) (F32.of_Z 0))
             (actual_rpy (attitudeActual_obj s)) in
  let zero3 := mkVec3 (F32.of_Z 0) (F32.of_Z 0) (F32.of_Z 0) in
  let s' :=
    mkState zero3 (accelKi s) (accelKp s) (yawBiasRate s) (gyroGain s)
            (accelbias s)
            (mkQuat (F32.of_Z 1) (F32.of_Z 0) (F32.of_Z 0) (F32.of_Z 0))
            (mkMat3 zero3 zero3 zero3)
            (rotate s) (zero_during_arming s) (bias_correct_gyro s)
            (lastSysTime s) (init s) (alarm_attitude s) (wdg_updates s)
            (attitudeRaw_obj s) attitude in
  if queue_created
  then (0, s', mkRegistrations true true)
  else (-1, s', mkRegistrations false false).

(** ** The estimator task: entry and main loop of [AttitudeTask] *)

(** Lines 171-174: [while (PIOS_ADXL345_FifoElements() == 0)], with [polls]
    the values the successive calls return.  The result tells whether the
    loop has been left. *)
Fixpoint startup_wait (polls : list Z) (s : state) : state * bool :=
  match polls with
  | [] => (s, false)
  | n :: rest =>
      if n =? 0
      then startup_wait rest
             (PIOS_WDG_UpdateFlag (AlarmsSet s SYSTEMALARMS_ALARM_CRITICAL))
      else (s, true)
  end.

Section TaskRun.
Context {ML : MathLib} {RL : RotationLib} {D : Type} `{Adxl345 D}.

(** Lines 161-177: the task up to the main loop.  [init] is set to 0, the
    alarm is cleared, the accelerometer is awaited and the settings are
    loaded. *)
Definition AttitudeTask_entry (s : state) (polls : list Z)
           (attitudeSettings : AttitudeSettingsData) : state * bool :=
  let s0 := AlarmsClear (set_gains s (accelKp s) (accelKi s) (yawBiasRate s) 0) in
  let '(s1, entered) := startup_wait polls s0 in
  if entered then (settingsUpdatedCb s1 attitudeSettings, true) else (s1, false).

(** Successive passes of [while (1)]; each pass comes with what the
    environment supplies and with the accelerometer as it stands when the
    pass begins. *)
Fixpoint AttitudeTask_loop (passes : list (cycle_input * D)) (s : state) : state :=
  match passes with
  | [] => s
  | (i, dev) :: rest => AttitudeTask_loop rest (fst (AttitudeTask_cycle s dev i))
  end.

(** [AttitudeTask] observed after the polls [polls] of the wait loop and, if
    that loop has been left, after the passes [passes] of the main loop. *)
Definition AttitudeTask (s : state) (polls : list Z)
           (attitudeSettings : AttitudeSettingsData)
           (passes : list (cycle_input * D)) : state :=
  let '(s1, entered) := AttitudeTask_entry s polls attitudeSettings in
  if entered then AttitudeTask_loop passes s1 else s1.
End TaskRun.

(** The number of polls of the wait loop that found the FIFO empty before
    the first that did not. *)
Fixpoint empty_polls (polls : list Z) : nat :=
  match polls with
  | [] => O
  | n :: rest => if n =? 0 then S (empty_polls rest) else O
  end.

(** ** Float classes and sums used in the statements *)

Definition is_nan (x : spec_float) : bool :=
  match x with S754_nan => true | _ => false end.

Definition is_zero (x : spec_float) : bool :=
  match x with S754_zero _ => true | _ => false end.

(** Equal as C's [==] sees floats, or both NaN: the same float up to the
    sign of a zero. *)
Definition same_value (x y : spec_float) : Prop :=
  x = y \/ (is_zero x = true /\ is_zero y = true).

(** A binary32 number with a full 24-bit mantissa and its exponent in
    [lo .. hi], and a zero or such a number. *)
Definition normal32 (lo hi : Z) (x : float32) : Prop :=
  exists (s : bool) (m : positive) (e : Z),
    x = S754_finite s m e /\ Zpos (digits2_pos m) = 24 /\ lo <= e <= hi.

Definition zero_or_normal32 (lo hi : Z) (x : float32) : Prop :=
  is_zero x = true \/ normal32 lo hi x.

Definition vec3_finite (v : vec3) : bool :=
  is_finite (v0 v) && is_finite (v1 v) && is_finite (v2 v).

Definition vec3_same_value (a b : vec3) : Prop :=
  same_value (v0 a) (v0 b) /\ same_value (v1 a) (v1 b) /\ same_value (v2 a) (v2 b).

Definition vec3_is_zero (v : vec3) : bool :=
  is_zero (v0 v) && is_zero (v1 v) && is_zero (v2 v).

Definition vec3_has_nan (v : vec3) : bool :=
  is_nan (v0 v) || is_nan (v1 v) || is_nan (v2 v).

Definition quat_nan : quat := mkQuat S754_nan S754_nan S754_nan S754_nan.

(** The [int16_t] range of an accelerometer count. *)
Definition int16_sample (a : pios_adxl345_data) : Prop :=
  -32768 <= ad_x a <= 32767 /\ -32768 <= ad_y a <= 32767 /\
  -32768 <= ad_z a <= 32767.

Definition sum_of (f : pios_adxl345_data -> Z) (l : list pios_adxl345_data) : Z :=
  fold_right (fun a acc => f a + acc) 0 l.

(** Whether a pass acquires its sensor data: a gyro sample arrived within
    the timeout and the accelerometer FIFO is not empty. *)
Definition acquired {D : Type} `{Adxl345 D} (i : cycle_input) (dev : D) : bool :=
  match in_gyro_rx i with
  | Some _ => negb (PIOS_ADXL345_FifoElements dev =? 0)
  | None => false
  end.

(** Settings with small gains, a persisted gyro bias and the board turned a
    quarter turn about Z. *)
Definition example_settings : AttitudeSettingsData :=
  mkSettings (to_float (F64.lit 42 100)) (F32.lit 5 100) (F32.lit 1 10000)
             (F32.lit 1 1000000) 1 1 (10, 0, 0) (25, -40, 0) (0, 0, 90).

(** A level craft at rest: gravity along the body Z axis (the Z count is
    negated by the conditioning), no rotation. *)
Definition level_raw : AttitudeRawData :=
  mkRaw (mkVec3 F32.zero F32.zero (F32.neg f_9_81)) vec3_zero F32.zero F32.zero.

(** The filter level and at rest: identity attitude, a bias integral of
    zeros, no board rotation, no accelerometer bias on X and Y, finite
    gains. *)
Definition at_rest (s : state) : Prop :=
  q s = quat_identity /\
  vec3_is_zero (gyro_correct_int s) = true /\
  rotate s = 0 /\
  fst (fst (accelbias s)) = 0 /\ snd (fst (accelbias s)) = 0 /\
  -32768 <= snd (accelbias s) <= 32767 /\
  is_finite (gyroGain s) = true /\
  is_finite (accelKp s) = true /\
  is_finite (accelKi s) = true /\
  is_finite (yawBiasRate s) = true /\
  0 <= lastSysTime s < 4294967296.

(** What the sensors deliver to a pass while the craft is level and at
    rest: gyro counts at the neutral value (if a sample arrives at all),
    accelerometer samples with zero X and Y counts, a 32-bit tick count, and
    finite gains in the settings object. *)
Definition rest_pass (p : cycle_input * list pios_adxl345_data) : Prop :=
  match in_gyro_rx (fst p) with
  | Some g =>
      gyro_x g = F32.of_Z GYRO_NEUTRAL /\ gyro_y g = F32.of_Z GYRO_NEUTRAL /\
      gyro_z g = F32.of_Z GYRO_NEUTRAL
  | None => True
  end /\
  (length (snd p) < 256)%nat /\
  Forall (fun a => ad_x a = 0 /\ ad_y a = 0 /\ -32768 <= ad_z a <= 32767) (snd p) /\
  0 <= in_tick_c (fst p) < 4294967296 /\
  is_finite (in_settings_AccelKp (fst p)) = true /\
  is_finite (in_settings_AccelKi (fst p)) = true /\
  is_finite (in_settings_YawBiasRate (fst p)) = true.

(** * Floating-point facts

    Lemmas about [SpecFloat]'s rounding, independent of the module. *)

(** ** Rounding in the normal range

    Structural facts about [SpecFloat]'s rounding: a positive mantissa whose
    value lies in the normal range rounds to a finite number of the same sign
    with a full-width mantissa. *)

Lemma digits2_pos_bounds (p : positive) :
  2 ^ (Zpos (digits2_pos p) - 1) <= Zpos p < 2 ^ Zpos (digits2_pos p).
Proof.
  induction p as [p IH|p IH|]; cbn [digits2_pos].
  - rewrite Pos2Z.inj_succ.
    replace (Z.succ (Zpos (digits2_pos p)) - 1) with (Z.succ (Zpos (digits2_pos p) - 1)) by lia.
    rewrite !Z.pow_succ_r by lia. lia.
  - rewrite Pos2Z.inj_succ.
    replace (Z.succ (Zpos (digits2_pos p)) - 1) with (Z.succ (Zpos (digits2_pos p) - 1)) by lia.
    rewrite !Z.pow_succ_r by lia. lia.
  - simpl. lia.
Qed.

(** The number of digits is determined by the binade. *)
Lemma digits2_pos_unique (p : positive) (d : Z) :
  2 ^ (d - 1) <= Zpos p < 2 ^ d -> Zpos (digits2_pos p) = d.
Proof.
  intros [Hlo Hhi].
  pose proof (digits2_pos_bounds p) as [Blo Bhi].
  assert (Hd : 0 < d).
  { destruct (Z_lt_le_dec 0 d) as [|Hn]; [assumption|].
    exfalso.
    destruct (Z.eq_dec d 0) as [->|Hne]; [simpl in Hhi; lia|].
    rewrite (Z.pow_neg_r 2 d) in Hhi by lia. lia. }
  assert (H1 : Zpos (digits2_pos p) - 1 < d).
  { apply (Z.pow_lt_mono_r_iff 2); lia. }
  assert (H2 : d - 1 < Zpos (digits2_pos p)).
  { apply (Z.pow_lt_mono_r_iff 2); lia. }
  lia.
Qed.

Lemma shr_1_m (r : shr_record) :
  0 <= shr_m r -> shr_m (shr_1 r) = shr_m r / 2.
Proof.
  destruct r as [m rb sb]. cbn [shr_m]. intros Hm.
  destruct m as [|p|p]; [reflexivity| |lia].
  destruct p as [p|p|]; cbn [shr_1 shr_m].
  - rewrite Pos2Z.inj_xI. apply Z.div_unique with 1; lia.
  - rewrite Pos2Z.inj_xO. apply Z.div_unique with 0; lia.
  - reflexivity.
Qed.

Lemma iter_shr_1_m (p : positive) :
  forall r : shr_record,
    0 <= shr_m r -> shr_m (iter_pos shr_1 p r) = shr_m r / 2 ^ Zpos p.
Proof.
  induction p as [p IH|p IH|]; intros r Hr; cbn [iter_pos].
  - assert (H1 : 0 <= shr_m (shr_1 r)).
    { rewrite shr_1_m by assumption. apply Z.div_pos; lia. }
    assert (H2 : 0 <= shr_m (iter_pos shr_1 p (shr_1 r))).
    { rewrite IH by assumption. apply Z.div_pos; [assumption|]. apply Z.pow_pos_nonneg; lia. }
    rewrite IH, IH, shr_1_m by assumption.
    rewrite !Z.div_div by (try apply Z.pow_pos_nonneg; lia).
    f_equal.
    replace (Zpos p~1) with (1 + Zpos p + Zpos p) by lia.
    rewrite !Z.pow_add_r by lia. rewrite Z.pow_1_r. lia.
  - assert (H2 : 0 <= shr_m (iter_pos shr_1 p r)).
    { rewrite IH by assumption. apply Z.div_pos; [assumption|]. apply Z.pow_pos_nonneg; lia. }
    rewrite IH, IH by assumption.
    rewrite !Z.div_div by (try apply Z.pow_pos_nonneg; lia).
    f_equal. 
    replace (Zpos p~0) with (Zpos p + Zpos p) by lia.
    rewrite Z.pow_add_r by lia. reflexivity.
  - rewrite shr_1_m by assumption. reflexivity.
Qed.

Lemma shr_record_of_loc_m (m : Z) (l : location) :
  shr_m (shr_record_of_loc m l) = m.
Proof. destruct l as [|[| |]]; reflexivity. Qed.

Lemma round_nearest_even_bounds (m : Z) (l : location) :
  m <= round_nearest_even m l <= m + 1.
Proof.
  destruct l as [|[| |]]; cbn [round_nearest_even]; try lia.
  destruct (Z.even m); lia.
Qed.

Section RoundNormal.
Variables prec emax : Z.
Hypothesis Hprec : 0 < prec.

(** A mantissa of [d >= prec] digits in the normal range is cut to [prec]
    digits. *)
Lemma shr_fexp_normal (m : positive) (e : Z) (l : location) :
  prec <= Zpos (digits2_pos m) ->
  emin prec emax <= Zpos (digits2_pos m) + e - prec ->
  shr_m (fst (shr_fexp prec emax (Zpos m) e l))
  = Zpos m / 2 ^ (Zpos (digits2_pos m) - prec) /\
  snd (shr_fexp prec emax (Zpos m) e l) = Zpos (digits2_pos m) + e - prec.
Proof.
  intros Hd Hmin.
  unfold shr_fexp, fexp. cbn [Zdigits2].
  rewrite Z.max_l by lia.
  replace (Zpos (digits2_pos m) + e - prec - e) with (Zpos (digits2_pos m) - prec) by lia.
  destruct (Zpos (digits2_pos m) - prec) as [|n|n] eqn:Hn; cbn [shr fst snd].
  - rewrite shr_record_of_loc_m, Z.pow_0_r, Z.div_1_r. split; lia.
  - rewrite iter_shr_1_m by (rewrite shr_record_of_loc_m; lia).
    rewrite shr_record_of_loc_m. split; [reflexivity|lia].
  - lia.
Qed.

Lemma binary_round_aux_normal (s : bool) (m : positive) (e : Z) (l : location) :
  prec <= Zpos (digits2_pos m) ->
  emin prec emax <= Zpos (digits2_pos m) + e - prec ->
  Zpos (digits2_pos m) + e - prec + 1 <= emax - prec ->
  exists (m' : positive) (e' : Z),
    binary_round_aux prec emax s (Zpos m) e l = S754_finite s m' e' /\
    Zpos (digits2_pos m') = prec /\
    Zpos (digits2_pos m) + e - prec <= e' <= Zpos (digits2_pos m) + e - prec + 1.
Proof.
  intros Hd Hmin Hmax.
  unfold binary_round_aux.
  destruct (shr_fexp_normal m e l Hd Hmin) as [Hm1 He1].
  destruct (shr_fexp prec emax (Zpos m) e l) as [mrs1 e1].
  cbn [fst snd] in Hm1, He1.
  set (d := Zpos (digits2_pos m)) in *.
  pose proof (digits2_pos_bounds m) as [Blo Bhi]. fold d in Blo, Bhi.
  assert (Hp : 0 < 2 ^ (d - prec)) by (apply Z.pow_pos_nonneg; lia).
  assert (Ha : 2 ^ (prec - 1) <= shr_m mrs1 < 2 ^ prec).
  { rewrite Hm1. split.
    - apply Z.div_le_lower_bound; [lia|].
      rewrite <- Z.pow_add_r by lia.
      replace (d - prec + (prec - 1)) with (d - 1) by lia. exact Blo.
    - apply Z.div_lt_upper_bound; [lia|].
      rewrite <- Z.pow_add_r by lia.
      replace (d - prec + prec) with d by lia. exact Bhi. }
  pose proof (round_nearest_even_bounds (shr_m mrs1) (loc_of_shr_record mrs1)) as Hr.
  set (m1 := round_nearest_even (shr_m mrs1) (loc_of_shr_record mrs1)) in *.
  assert (Hlow : 0 < 2 ^ (prec - 1)) by (apply Z.pow_pos_nonneg; lia).
  destruct m1 as [|p1|p1] eqn:Hm1'; try lia.
  assert (H2p : 2 ^ prec = 2 * 2 ^ (prec - 1)).
  { replace prec with (Z.succ (prec - 1)) at 1 by lia.
    apply Z.pow_succ_r. lia. }
  destruct (Z_lt_le_dec (Zpos p1) (2 ^ prec)) as [Hlt|Hge].
  - (* no carry *)
    assert (Hd1 : Zpos (digits2_pos p1) = prec).
    { apply digits2_pos_unique. lia. }
    unfold shr_fexp, fexp. cbn [Zdigits2]. rewrite Hd1.
    rewrite Z.max_l by lia.
    replace (prec + e1 - prec - e1) with 0 by lia.
    cbn [shr shr_record_of_loc shr_m].
    replace (e1 <=? emax - prec) with true by (symmetry; apply Z.leb_le; lia).
    exists p1, e1. repeat split; lia.
  - (* the mantissa was rounded up to [2 ^ prec] *)
    assert (Heq : Zpos p1 = 2 ^ prec) by lia.
    assert (Hd1 : Zpos (digits2_pos p1) = prec + 1).
    { apply digits2_pos_unique. rewrite Heq.
      replace (prec + 1 - 1) with prec by lia.
      replace (prec + 1) with (Z.succ prec) by lia.
      rewrite Z.pow_succ_r by lia. lia. }
    unfold shr_fexp, fexp. cbn [Zdigits2]. rewrite Hd1.
    rewrite Z.max_l by lia.
    replace (prec + 1 + e1 - prec - e1) with 1 by lia.
    cbn [shr].
    assert (Hs : shr_m (iter_pos shr_1 1 (shr_record_of_loc (Zpos p1) loc_Exact))
                 = 2 ^ (prec - 1)).
    { rewrite iter_shr_1_m by (cbn; lia).
      cbn [shr_record_of_loc shr_m]. rewrite Heq, H2p.
      rewrite Z.pow_1_r. rewrite Z.mul_comm. apply Z.div_mul. lia. }
    rewrite Hs.
    destruct (2 ^ (prec - 1)) as [|p2|p2] eqn:Hp2; try lia.
    replace (e1 + 1 <=? emax - prec) with true by (symmetry; apply Z.leb_le; lia).
    exists p2, (e1 + 1). repeat split; try lia.
    apply digits2_pos_unique. rewrite <- Hp2.
    rewrite H2p. lia.
Qed.
End RoundNormal.

Lemma iter_xO_value (k p : positive) :
  Zpos (Pos.iter xO p k) = Zpos p * 2 ^ Zpos k.
Proof.
  revert p. induction k as [|k IH] using Pos.peano_ind; intros p.
  - cbn [Pos.iter]. rewrite Pos2Z.inj_xO, Z.pow_1_r. lia.
  - rewrite Pos.iter_succ, Pos2Z.inj_xO, IH, Pos2Z.inj_succ.
    rewrite Z.pow_succ_r by lia. lia.
Qed.

Lemma iter_xO_digits (k p : positive) :
  Zpos (digits2_pos (Pos.iter xO p k)) = Zpos (digits2_pos p) + Zpos k.
Proof.
  revert p. induction k as [|k IH] using Pos.peano_ind; intros p.
  - cbn. lia.
  - rewrite Pos.iter_succ. cbn [digits2_pos]. rewrite Pos2Z.inj_succ, IH. lia.
Qed.

Lemma shift_mantissa (m s : Z) :
  0 < s ->
  match s with
  | Zpos _ => Z.shiftl m s
  | Z0 => m
  | Zneg _ => Z0
  end = m * 2 ^ s.
Proof.
  intros Hs. destruct s as [|p|p]; try lia.
  apply Z.shiftl_mul_pow2. lia.
Qed.

Section Normal.
Variables prec emax : Z.
Hypothesis Hprec : 0 < prec.

(** Rounding an integer mantissa whose value lies in the normal range. *)
Lemma binary_round_normal (s : bool) (m : positive) (e : Z) :
  emin prec emax <= Zpos (digits2_pos m) + e - prec ->
  Zpos (digits2_pos m) + e - prec + 1 <= emax - prec ->
  exists (m' : positive) (e' : Z),
    binary_round prec emax s m e = S754_finite s m' e' /\
    Zpos (digits2_pos m') = prec /\
    Zpos (digits2_pos m) + e - prec <= e' <= Zpos (digits2_pos m) + e - prec + 1.
Proof.
  intros Hmin Hmax.
  unfold binary_round, shl_align, fexp.
  rewrite Z.max_l by lia.
  destruct (Zpos (digits2_pos m) + e - prec - e) as [|k|k] eqn:Hk.
  - apply binary_round_aux_normal; try assumption. lia.
  - apply binary_round_aux_normal; try assumption. lia.
  - pose proof (iter_xO_digits k m) as Hd.
    destruct (binary_round_aux_normal prec emax Hprec s (Pos.iter xO m k)
                (Zpos (digits2_pos m) + e - prec) loc_Exact)
      as (m' & e' & Hr & Hd' & He'); try lia.
    exists m', e'. repeat split; try assumption; lia.
Qed.

(** Division of two normal numbers whose quotient lies in the normal
    range. *)
Lemma SFdiv_normal (sx sy : bool) (mx my : positive) (ex ey : Z) :
  Zpos (digits2_pos mx) = prec ->
  Zpos (digits2_pos my) = prec ->
  emin prec emax <= ex - ey - prec ->
  ex - ey + 2 <= emax - prec ->
  exists (m' : positive) (e' : Z),
    SFdiv prec emax (S754_finite sx mx ex) (S754_finite sy my ey)
    = S754_finite (xorb sx sy) m' e' /\
    Zpos (digits2_pos m') = prec /\
    ex - ey - prec <= e' <= ex - ey - prec + 2.
Proof.
  intros Hdx Hdy Hmin Hmax.
  cbn [SFdiv]. unfold SFdiv_core_binary. cbn [Zdigits2].
  rewrite Hdx, Hdy. unfold fexp.
  replace (prec + ex - (prec + ey)) with (ex - ey) by lia.
  rewrite Z.max_l by lia. rewrite Z.min_l by lia.
  replace (ex - ey - (ex - ey - prec)) with prec by lia.
  cbv zeta. rewrite (shift_mantissa (Zpos mx) prec Hprec).
  destruct (Z.div_eucl (Zpos mx * 2 ^ prec) (Zpos my)) as [qq rr] eqn:Hdiv.
  assert (Hq : qq = Zpos mx * 2 ^ prec / Zpos my).
  { unfold Z.div. rewrite Hdiv. reflexivity. }
  pose proof (digits2_pos_bounds mx) as [Xlo Xhi].
  pose proof (digits2_pos_bounds my) as [Ylo Yhi].
  rewrite Hdx in Xlo, Xhi. rewrite Hdy in Ylo, Yhi.
  assert (Hp1 : 0 < 2 ^ (prec - 1)) by (apply Z.pow_pos_nonneg; lia).
  assert (H2p : 2 ^ prec = 2 * 2 ^ (prec - 1)).
  { replace prec with (Z.succ (prec - 1)) at 1 by lia.
    apply Z.pow_succ_r. lia. }
  assert (Hqlo : 2 ^ (prec - 1) <= qq).
  { rewrite Hq. apply Z.div_le_lower_bound; [lia|]. nia. }
  assert (Hqhi : qq < 2 ^ (prec + 1)).
  { rewrite Hq. apply Z.div_lt_upper_bound; [lia|].
    replace (prec + 1) with (Z.succ prec) by lia.
    rewrite Z.pow_succ_r by lia. nia. }
  destruct qq as [|q|q]; try lia.
  assert (Hdq : Zpos (digits2_pos q) = prec \/ Zpos (digits2_pos q) = prec + 1).
  { destruct (Z_lt_le_dec (Zpos q) (2 ^ prec)) as [Hlt|Hge].
    - left. apply digits2_pos_unique. lia.
    - right. apply digits2_pos_unique.
      replace (prec + 1 - 1) with prec by lia. lia. }
  destruct (binary_round_aux_normal prec emax Hprec (xorb sx sy) q
              (ex - ey - prec) (new_location (Zpos my) rr))
    as (m' & e' & Hr & Hd' & He'); try lia.
  exists m', e'. repeat split; try assumption; lia.
Qed.
End Normal.

(** ** Rounding: the general case

    What [binary_round_aux] returns for any nonnegative mantissa, first on
    the integers, then as a real number. *)

Section RoundSpec.
Variables prec emax : Z.
Hypothesis Hprec : 0 < prec.

Lemma Zdigits2_bounds (m : Z) :
  0 <= m ->
  m < 2 ^ Zdigits2 m /\ 0 <= Zdigits2 m /\ (0 < m -> 2 ^ (Zdigits2 m - 1) <= m).
Proof.
  intros Hm. destruct m as [|p|p]; try lia.
  - cbn. lia.
  - pose proof (digits2_pos_bounds p). cbn [Zdigits2]. lia.
Qed.

Lemma fexp_ge_emin (x : Z) : emin prec emax <= fexp prec emax x.
Proof. unfold fexp. lia. Qed.

Lemma shr_fexp_spec (m e : Z) (l : location) :
  0 <= m ->
  shr_m (fst (shr_fexp prec emax m e l))
  = m / 2 ^ (Z.max e (fexp prec emax (Zdigits2 m + e)) - e) /\
  snd (shr_fexp prec emax m e l)
  = Z.max e (fexp prec emax (Zdigits2 m + e)) /\
  (Z.max e (fexp prec emax (Zdigits2 m + e)) = e ->
   fst (shr_fexp prec emax m e l) = shr_record_of_loc m l).
Proof.
  intros Hm0. unfold shr_fexp.
  set (f := fexp prec emax (Zdigits2 m + e)).
  destruct (f - e) as [|n|n] eqn:Hn; cbn [shr fst snd].
  - rewrite Z.max_l by lia. rewrite Z.sub_diag, Z.pow_0_r, Z.div_1_r.
    rewrite shr_record_of_loc_m. repeat split.
  - rewrite Z.max_r by lia. rewrite Hn.
    rewrite iter_shr_1_m by (rewrite shr_record_of_loc_m; lia).
    rewrite shr_record_of_loc_m. split; [reflexivity|]. split; [lia|]. lia.
  - rewrite Z.max_l by lia. rewrite Z.sub_diag, Z.pow_0_r, Z.div_1_r.
    rewrite shr_record_of_loc_m. repeat split.
Qed.

Lemma loc_of_shr_record_of_loc (m : Z) (l : location) :
  loc_of_shr_record (shr_record_of_loc m l) = l.
Proof. destruct l as [|[| |]]; reflexivity. Qed.

Lemma binary_round_aux_spec (s : bool) (m e : Z) (l : location) :
  0 <= m ->
  exists m1 : Z,
    (m1 = m / 2 ^ (Z.max e (fexp prec emax (Zdigits2 m + e)) - e) \/
     m1 = m / 2 ^ (Z.max e (fexp prec emax (Zdigits2 m + e)) - e) + 1) /\
    (l = loc_Exact ->
     Z.max e (fexp prec emax (Zdigits2 m + e)) = e -> m1 = m) /\
    round_result prec emax s m1
      (Z.max e (fexp prec emax (Zdigits2 m + e)))
      (binary_round_aux prec emax s m e l).
Proof.
  intros Hm0. unfold binary_round_aux.
  destruct (shr_fexp_spec m e l Hm0) as (Hm1 & He1 & Hex).
  destruct (shr_fexp prec emax m e l) as [mrs1 e1].
  cbn [fst snd] in Hm1, He1, Hex.
  set (d := Zdigits2 m) in *.
  set (E := Z.max e (fexp prec emax (d + e))) in *.
  pose proof (Zdigits2_bounds m Hm0) as (Bhi & Hd0 & Blo). fold d in Blo, Bhi, Hd0.
  pose proof (fexp_ge_emin (d + e)) as Hemin.
  assert (HE : e <= E /\ d + e - prec <= E /\ emin prec emax <= E).
  { unfold E, fexp in *. lia. }
  assert (Hk : 0 < 2 ^ (E - e)) by (apply Z.pow_pos_nonneg; lia).
  set (a := m / 2 ^ (E - e)) in *.
  assert (Ha0 : 0 <= a) by (apply Z.div_pos; lia).
  assert (Ha : a < 2 ^ prec).
  { apply Z.div_lt_upper_bound; [lia|].
    apply Z.lt_le_trans with (1 := Bhi).
    rewrite <- Z.pow_add_r by lia.
    apply Z.pow_le_mono_r; lia. }
  pose proof (round_nearest_even_bounds (shr_m mrs1) (loc_of_shr_record mrs1)) as Hr.
  set (m1 := round_nearest_even (shr_m mrs1) (loc_of_shr_record mrs1)) in *.
  rewrite Hm1 in Hr.
  exists m1. split; [lia|]. split.
  { intros -> HEe. unfold m1. rewrite (Hex HEe).
    rewrite shr_record_of_loc_m, loc_of_shr_record_of_loc. reflexivity. }
  subst e1.
  assert (H2p : 2 ^ prec = 2 * 2 ^ (prec - 1)).
  { replace prec with (Z.succ (prec - 1)) at 1 by lia.
    apply Z.pow_succ_r. lia. }
  assert (Hlow : 0 < 2 ^ (prec - 1)) by (apply Z.pow_pos_nonneg; lia).
  destruct m1 as [|p1|p1] eqn:Hm1'; try lia.
  - (* rounded to zero *)
    left. split; [reflexivity|].
    unfold shr_fexp. cbn [Zdigits2 shr_record_of_loc].
    destruct (fexp prec emax (0 + E) - E) as [|n|n]; cbn [shr shr_m]; try reflexivity.
    rewrite iter_shr_1_m by (cbn; lia). cbn [shr_m].
    rewrite Z.div_0_l; [reflexivity|].
    apply Z.pow_nonzero; lia.
  - right. split; [lia|].
    destruct (Z_lt_le_dec (Zpos p1) (2 ^ prec)) as [Hlt|Hge].
    + (* no carry *)
      pose proof (digits2_pos_bounds p1) as [Plo Phi].
      assert (Hd1 : Zpos (digits2_pos p1) <= prec).
      { assert (Zpos (digits2_pos p1) - 1 < prec); [|lia].
        apply (Z.pow_lt_mono_r_iff 2); lia. }
      unfold shr_fexp. cbn [Zdigits2].
      assert (Hn2 : fexp prec emax (Zpos (digits2_pos p1) + E) - E <= 0).
      { unfold fexp. lia. }
      destruct (fexp prec emax (Zpos (digits2_pos p1) + E) - E) as [|n|n];
        cbn [shr shr_record_of_loc shr_m]; try lia.
      * exists p1, E. split; [lia|]. split; [rewrite Z.sub_diag; lia|].
        split; [lia|reflexivity].
      * exists p1, E. split; [lia|]. split; [rewrite Z.sub_diag; lia|].
        split; [lia|reflexivity].
    + (* carry into the next binade *)
      assert (Heq : Zpos p1 = 2 ^ prec) by lia.
      assert (Hd1 : Zpos (digits2_pos p1) = prec + 1).
      { apply digits2_pos_unique. rewrite Heq.
        replace (prec + 1 - 1) with prec by lia.
        replace (prec + 1) with (Z.succ prec) by lia.
        rewrite Z.pow_succ_r by lia. lia. }
      unfold shr_fexp. cbn [Zdigits2]. rewrite Hd1.
      replace (fexp prec emax (prec + 1 + E) - E) with 1 by (unfold fexp; lia).
      cbn [shr].
      assert (Hs : shr_m (iter_pos shr_1 1 (shr_record_of_loc (Zpos p1) loc_Exact))
                   = 2 ^ (prec - 1)).
      { rewrite iter_shr_1_m by (cbn; lia).
        cbn [shr_record_of_loc shr_m]. rewrite Heq, H2p.
        rewrite Z.pow_1_r. rewrite Z.mul_comm. apply Z.div_mul. lia. }
      rewrite Hs.
      destruct (2 ^ (prec - 1)) as [|p2|p2] eqn:Hp2; try lia.
      exists p2, (E + 1). split; [lia|]. split.
      { replace (E + 1 - E) with 1 by lia. rewrite Z.pow_1_r. lia. }
      split; [lia|reflexivity].
Qed.
End RoundSpec.

(** ** Values and rounding errors *)

Lemma pw_pos (e : Z) : (0 < pw e)%R.
Proof. apply powerRZ_lt. lra. Qed.

Lemma pw_add (a b : Z) : pw (a + b) = (pw a * pw b)%R.
Proof. apply powerRZ_add. lra. Qed.

Lemma pw_IZR (k : Z) : 0 <= k -> IZR (2 ^ k) = pw k.
Proof.
  intros Hk. unfold pw.
  rewrite <- (Z2Nat.id k Hk) at 1.
  rewrite <- pow_IZR, pow_powerRZ, Z2Nat.id by assumption. reflexivity.
Qed.

Lemma pw_le (a b : Z) : a <= b -> (pw a <= pw b)%R.
Proof.
  intros H. replace b with (a + (b - a)) by lia. rewrite pw_add.
  pose proof (pw_pos a) as Ha.
  assert (H1 : (1 <= pw (b - a))%R).
  { rewrite <- pw_IZR by lia. apply IZR_le.
    pose proof (Z.pow_pos_nonneg 2 (b - a)). lia. }
  nra.
Qed.

Lemma pw_0 : pw 0 = 1%R.
Proof. reflexivity. Qed.

Lemma pw_succ (a : Z) : pw (a + 1) = (2 * pw a)%R.
Proof. rewrite pw_add. unfold pw at 2. simpl. lra. Qed.

Lemma sgn_abs (s : bool) (x : real) : (0 <= x)%R -> Rabs (sgn s * x) = x.
Proof.
  intros Hx. destruct s; unfold sgn.
  - replace (-1 * x)%R with (- x)%R by lra. rewrite Rabs_Ropp. apply Rabs_pos_eq, Hx.
  - rewrite Rmult_1_l. apply Rabs_pos_eq, Hx.
Qed.

Section RoundValue.
Variables prec emax : Z.
Hypothesis Hprec : 0 < prec.

Lemma round_result_value (s : bool) (m1 e1 : Z) (r : spec_float) :
  round_result prec emax s m1 e1 r ->
  is_finite r = true ->
  B2R r = (sgn s * IZR m1 * pw e1)%R.
Proof.
  intros [[-> ->]|[Hpos (m' & e' & He & Hm & _ & ->)]] Hfin.
  - cbn. lra.
  - destruct (e' <=? emax - prec); [|discriminate].
    cbn [B2R]. rewrite <- Hm, mult_IZR, pw_IZR by lia.
    replace e' with ((e' - e1) + e1) at 1 by lia.
    rewrite pw_add. lra.
Qed.

(** Rounding a value [v] known to lie between [m * 2^e] and
    [(m + 1) * 2^e]: unless the result overflows, it is within
    [u * v + eta] of [v]. *)
Lemma binary_round_aux_error (s : bool) (m e : Z) (l : location) (v : real) :
  0 <= m ->
  (IZR m * pw e <= v <= IZR (m + 1) * pw e)%R ->
  (l = loc_Exact -> v = (IZR m * pw e)%R) ->
  (l = loc_Exact \/ prec <= Zdigits2 m \/ e <= emin prec emax \/
   e < fexp prec emax (Zdigits2 m + e)) ->
  is_finite (binary_round_aux prec emax s m e l) = true ->
  (Rabs (B2R (binary_round_aux prec emax s m e l) - sgn s * v)
   <= u_ prec * v + eta_ prec emax)%R.
Proof.
  intros Hm0 Hv Hex Hside Hfin.
  destruct (binary_round_aux_spec prec emax Hprec s m e l Hm0)
    as (m1 & Hm1 & Hexact & Hres).
  rewrite (round_result_value s m1 _ _ Hres Hfin).
  set (d := Zdigits2 m) in *.
  set (E := Z.max e (fexp prec emax (d + e))) in *.
  pose proof (Zdigits2_bounds m Hm0) as (Bhi & Hd0 & Blo). fold d in Blo, Bhi, Hd0.
  assert (HE : e <= E) by (unfold E; lia).
  assert (Hk : 0 < 2 ^ (E - e)) by (apply Z.pow_pos_nonneg; lia).
  set (a := m / 2 ^ (E - e)) in *.
  assert (Hdiv : a * 2 ^ (E - e) <= m < (a + 1) * 2 ^ (E - e)).
  { unfold a. pose proof (Z.div_mod m (2 ^ (E - e))) as Hdm.
    pose proof (Z.mod_pos_bound m (2 ^ (E - e)) Hk). nia. }
  assert (HpE : pw E = (pw (E - e) * pw e)%R).
  { rewrite <- pw_add. f_equal. lia. }
  pose proof (pw_pos e) as Hpe. pose proof (pw_pos E) as HpE0.
  pose proof (pw_pos (E - e)) as HpEe.
  assert (Hlo : (IZR a * pw E <= IZR m * pw e)%R).
  { rewrite HpE, <- Rmult_assoc. apply Rmult_le_compat_r; [lra|].
    rewrite <- pw_IZR, <- mult_IZR by lia. apply IZR_le. lia. }
  assert (Hhi : (IZR (m + 1) * pw e <= IZR (a + 1) * pw E)%R).
  { rewrite HpE, <- Rmult_assoc. apply Rmult_le_compat_r; [lra|].
    rewrite <- pw_IZR, <- mult_IZR by lia. apply IZR_le. lia. }
  assert (Hmv : (0 <= IZR m * pw e)%R).
  { apply Rmult_le_pos; [apply IZR_le; lia|lra]. }
  assert (Hvpos : (0 <= v)%R) by lra.
  replace (sgn s * IZR m1 * pw E - sgn s * v)%R with (sgn s * (IZR m1 * pw E - v))%R by ring.
  assert (Hsg : forall x : real, Rabs (sgn s * x) = Rabs x).
  { intros x. rewrite Rabs_mult. destruct s; unfold sgn.
    - rewrite Rabs_left by lra. lra.
    - rewrite Rabs_right by lra. lra. }
  rewrite Hsg.
  pose proof (pw_pos (1 - prec)) as Hu. pose proof (pw_pos (emin prec emax)) as Heta.
  (* the result differs from [v] by at most [2 ^ E] *)
  assert (Herr : (Rabs (IZR m1 * pw E - v) <= pw E)%R).
  { rewrite !plus_IZR in Hhi. rewrite plus_IZR in Hv.
    apply Rabs_le. destruct Hm1 as [->| ->]; [|rewrite plus_IZR]; nra. }
  (* a full-width mantissa makes [2 ^ E] small against the value *)
  assert (Hfull : E = d + e - prec -> 0 < m ->
                  (pw E <= pw (1 - prec) * (IZR m * pw e))%R).
  { intros HEd Hmpos. rewrite <- Rmult_assoc.
    replace E with ((d - prec) + e) by lia. rewrite pw_add.
    apply Rmult_le_compat_r; [lra|].
    assert (Hd1 : 0 < d).
    { destruct (Z.eq_dec d 0) as [Hz|Hnz]; [|lia].
      rewrite Hz in Bhi. simpl in Bhi. lia. }
    apply Rle_trans with (pw (1 - prec) * pw (d - 1))%R.
    - rewrite <- pw_add. apply pw_le. lia.
    - apply Rmult_le_compat_l; [lra|].
      rewrite <- pw_IZR by lia. apply IZR_le. apply Blo. lia. }
  assert (Hsub : E = emin prec emax ->
                 (Rabs (IZR m1 * pw E - v) <= pw (1 - prec) * v + pw (emin prec emax))%R).
  { intros HEm. apply Rle_trans with (1 := Herr).
    assert (Hpw : pw E = pw (emin prec emax)) by (rewrite HEm; reflexivity).
    rewrite Hpw. nra. }
  assert (Hnorm : E = d + e - prec -> 0 < m ->
                  (Rabs (IZR m1 * pw E - v) <= pw (1 - prec) * v + pw (emin prec emax))%R).
  { intros HEd Hmpos. apply Rle_trans with (1 := Herr).
    pose proof (Hfull HEd Hmpos). nra. }
  unfold u_, eta_.
  pose proof (fexp_ge_emin prec emax (d + e)) as Hfe.
  destruct (Z.eq_dec E e) as [HEe|HEne].
  - (* no digit was dropped *)
    destruct Hside as [Hl|[Hd|[He|Hf]]].
    + assert (Hz : (IZR m1 * pw E - v = 0)%R).
      { rewrite (Hexact Hl HEe), (Hex Hl), HEe. ring. }
      rewrite Hz, Rabs_R0. nra.
    + apply Hnorm.
      * unfold E, fexp in *. lia.
      * destruct (Z.eq_dec m 0) as [Hz|Hnz]; [|lia].
        unfold d in Hd. rewrite Hz in Hd. cbn in Hd. lia.
    + apply Hsub. unfold E in *. lia.
    + unfold E in HEe. lia.
  - assert (HEf : E = fexp prec emax (d + e)) by (unfold E in *; lia).
    unfold fexp in HEf.
    destruct (Z.max_spec (d + e - prec) (emin prec emax)) as [[_ Hmx]|[Hlt Hmx]];
      rewrite Hmx in HEf.
    + apply Hsub. exact HEf.
    + apply Hnorm; [exact HEf|].
      destruct (Z.eq_dec m 0) as [Hz|Hnz]; [|lia].
      unfold E, d in HEne, HEf. rewrite Hz in HEne, HEf. cbn [Zdigits2] in HEne, HEf.
      unfold fexp in HEne. lia.
Qed.
End RoundValue.

(** ** Error bounds of the operations *)

Lemma B2R_finite (s : bool) (m : positive) (e : Z) :
  B2R (S754_finite s m e) = (sgn s * (IZR (Zpos m) * pw e))%R.
Proof. cbn [B2R]. ring. Qed.

Lemma sgn_xorb (a b : bool) : sgn (xorb a b) = (sgn a * sgn b)%R.
Proof. destruct a, b; unfold sgn; cbn; lra. Qed.

Lemma Rabs_sgn (s : bool) (x : real) : Rabs (sgn s * x) = Rabs x.
Proof.
  rewrite Rabs_mult. destruct s; unfold sgn.
  - rewrite Rabs_left by lra. lra.
  - rewrite Rabs_right by lra. lra.
Qed.

Lemma IZR_cond_Zopp (s : bool) (z : Z) : IZR (cond_Zopp s z) = (sgn s * IZR z)%R.
Proof. destruct s; unfold cond_Zopp, sgn; [rewrite opp_IZR|]; lra. Qed.

Lemma shl_align_value (m : positive) (e e' : Z) :
  (IZR (Zpos (fst (shl_align m e e'))) * pw (snd (shl_align m e e')))%R
  = (IZR (Zpos m) * pw e)%R /\
  snd (shl_align m e e') = Z.min e e'.
Proof.
  unfold shl_align.
  destruct (e' - e) as [|k|k] eqn:Hk; cbn [fst snd].
  - split; [reflexivity|lia].
  - split; [reflexivity|lia].
  - rewrite iter_xO_value, mult_IZR, pw_IZR by lia.
    split; [|lia].
    rewrite Rmult_assoc, <- pw_add. do 2 f_equal. lia.
Qed.

Section OpErrors.
Variables prec emax : Z.
Hypothesis Hprec : 0 < prec.

Lemma u_pos : (0 < u_ prec)%R.
Proof. apply pw_pos. Qed.

Lemma eta_pos : (0 < eta_ prec emax)%R.
Proof. apply pw_pos. Qed.

Lemma binary_round_error (s : bool) (m : positive) (e : Z) :
  is_finite (binary_round prec emax s m e) = true ->
  (Rabs (B2R (binary_round prec emax s m e) - sgn s * (IZR (Zpos m) * pw e))
   <= u_ prec * (IZR (Zpos m) * pw e) + eta_ prec emax)%R.
Proof.
  unfold binary_round.
  destruct (shl_align_value m e (fexp prec emax (Zpos (digits2_pos m) + e)))
    as [Hval _].
  destruct (shl_align m e (fexp prec emax (Zpos (digits2_pos m) + e))) as [mz ez].
  cbn [fst snd] in Hval. intros Hfin.
  rewrite <- Hval.
  apply binary_round_aux_error; try assumption; try lia.
  - rewrite plus_IZR. pose proof (pw_pos ez). nra.
  - reflexivity.
  - left. reflexivity.
Qed.

Lemma binary_normalize_error (z e : Z) (sz : bool) :
  is_finite (binary_normalize prec emax z e sz) = true ->
  (Rabs (B2R (binary_normalize prec emax z e sz) - IZR z * pw e)
   <= u_ prec * Rabs (IZR z * pw e) + eta_ prec emax)%R.
Proof.
  pose proof u_pos as Hu. pose proof eta_pos as He.
  destruct z as [|p|p]; cbn [binary_normalize]; intros Hfin.
  - cbn [B2R]. rewrite Rmult_0_l, Rminus_0_r, Rabs_R0. lra.
  - pose proof (binary_round_error false p e Hfin) as Hr.
    unfold sgn in Hr. rewrite Rmult_1_l in Hr.
    rewrite (Rabs_pos_eq (IZR (Zpos p) * pw e)); [exact Hr|].
    apply Rmult_le_pos; [apply IZR_le; lia|apply Rlt_le, pw_pos].
  - pose proof (binary_round_error true p e Hfin) as Hr.
    unfold sgn in Hr.
    replace (IZR (Zneg p)) with (- IZR (Zpos p))%R by (rewrite <- opp_IZR; reflexivity).
    replace (- IZR (Zpos p) * pw e)%R with (-1 * (IZR (Zpos p) * pw e))%R by ring.
    replace (Rabs (-1 * (IZR (Zpos p) * pw e))) with (IZR (Zpos p) * pw e)%R; [exact Hr|].
    replace (-1 * (IZR (Zpos p) * pw e))%R with (- (IZR (Zpos p) * pw e))%R by ring.
    rewrite Rabs_Ropp, Rabs_pos_eq; [reflexivity|].
    apply Rmult_le_pos; [apply IZR_le; lia|apply Rlt_le, pw_pos].
Qed.

(** Multiplication. *)
Lemma SFmul_error (x y : spec_float) :
  is_finite (SFmul prec emax x y) = true ->
  is_finite x = true /\ is_finite y = true /\
  (Rabs (B2R (SFmul prec emax x y) - B2R x * B2R y)
   <= u_ prec * Rabs (B2R x * B2R y) + eta_ prec emax)%R.
Proof.
  pose proof u_pos as Hu. pose proof eta_pos as He.
  destruct x as [sx|sx| |sx mx ex], y as [sy|sy| |sy my ey];
    cbn [SFmul is_finite]; try discriminate; intros Hfin;
    (split; [reflexivity|]); (split; [reflexivity|]);
    try (cbn [B2R]; rewrite ?Rmult_0_l, ?Rmult_0_r, Rminus_0_r, Rabs_R0; lra).
  rewrite !B2R_finite.
  replace (sgn sx * (IZR (Zpos mx) * pw ex) * (sgn sy * (IZR (Zpos my) * pw ey)))%R
    with (sgn (xorb sx sy) * (IZR (Zpos (mx * my)) * pw (ex + ey)))%R
    by (rewrite sgn_xorb, Pos2Z.inj_mul, mult_IZR, pw_add; ring).
  rewrite Rabs_sgn.
  assert (Hpos : (0 <= IZR (Zpos (mx * my)) * pw (ex + ey))%R).
  { apply Rmult_le_pos; [apply IZR_le; lia|apply Rlt_le, pw_pos]. }
  rewrite (Rabs_pos_eq _ Hpos).
  apply binary_round_aux_error; try assumption; try lia.
  - rewrite plus_IZR. pose proof (pw_pos (ex + ey)). nra.
  - reflexivity.
  - left. reflexivity.
Qed.

(** Addition. *)
Lemma SFadd_error (x y : spec_float) :
  is_finite (SFadd prec emax x y) = true ->
  is_finite x = true /\ is_finite y = true /\
  (Rabs (B2R (SFadd prec emax x y) - (B2R x + B2R y))
   <= u_ prec * Rabs (B2R x + B2R y) + eta_ prec emax)%R.
Proof.
  pose proof u_pos as Hu. pose proof eta_pos as He.
  assert (Hzero : forall t : real, (Rabs (t - t) <= u_ prec * Rabs t + eta_ prec emax)%R).
  { intros t. replace (t - t)%R with 0%R by ring. rewrite Rabs_R0.
    pose proof (Rabs_pos t). nra. }
  destruct x as [sx|sx| |sx mx ex], y as [sy|sy| |sy my ey];
    cbn [SFadd is_finite]; try discriminate;
    try (destruct sx, sy; discriminate).
  - intros _. split; [reflexivity|]. split; [reflexivity|].
    destruct sx, sy; cbn [B2R]; rewrite Rplus_0_l; apply Hzero.
  - intros _. split; [reflexivity|]. split; [reflexivity|].
    cbn [B2R]. rewrite Rplus_0_l. apply Hzero.
  - intros _. split; [reflexivity|]. split; [reflexivity|].
    cbn [B2R]. rewrite Rplus_0_r. apply Hzero.
  - intros Hfin. split; [reflexivity|]. split; [reflexivity|].
    set (ez := Z.min ex ey) in *.
    destruct (shl_align_value mx ex ez) as [Hvx Hsx].
    destruct (shl_align_value my ey ez) as [Hvy Hsy].
    assert (Hex : snd (shl_align mx ex ez) = ez) by (unfold ez in *; lia).
    assert (Hey : snd (shl_align my ey ez) = ez) by (unfold ez in *; lia).
    rewrite Hex in Hvx. rewrite Hey in Hvy.
    pose proof (binary_normalize_error _ _ _ Hfin) as Hr.
    rewrite plus_IZR, !IZR_cond_Zopp in Hr.
    replace ((sgn sx * IZR (Zpos (fst (shl_align mx ex ez)))
              + sgn sy * IZR (Zpos (fst (shl_align my ey ez)))) * pw ez)%R
      with (B2R (S754_finite sx mx ex) + B2R (S754_finite sy my ey))%R in Hr.
    + exact Hr.
    + rewrite !B2R_finite, <- Hvx, <- Hvy. ring.
Qed.
End OpErrors.

Lemma fexp_mono (prec emax a b : Z) :
  a <= b -> fexp prec emax a <= fexp prec emax b.
Proof. unfold fexp. lia. Qed.

Lemma shift_mantissa_nonneg (m s : Z) :
  0 <= s ->
  match s with
  | Zpos _ => Z.shiftl m s
  | Z0 => m
  | Zneg _ => Z0
  end = m * 2 ^ s.
Proof.
  intros Hs. destruct s as [|p|p]; try lia.
  apply Z.shiftl_mul_pow2. lia.
Qed.

Lemma new_location_exact (nb k : Z) :
  new_location nb k = loc_Exact -> k = 0.
Proof.
  unfold new_location, new_location_even, new_location_odd.
  destruct (Z.even nb); destruct (k =? 0) eqn:Hk; try discriminate;
    intros _; apply Z.eqb_eq; exact Hk.
Qed.

(** A lower bound on the number of digits of an integer. *)
Lemma Zdigits2_lower (q k : Z) :
  0 <= k -> 2 ^ k <= q -> k + 1 <= Zdigits2 q.
Proof.
  intros Hk Hq.
  assert (Hq0 : 0 <= q) by (pose proof (Z.pow_pos_nonneg 2 k); lia).
  destruct (Zdigits2_bounds q Hq0) as (Bhi & Hd0 & _).
  assert (k < Zdigits2 q); [|lia].
  apply (Z.pow_lt_mono_r_iff 2); lia.
Qed.

Section DivError.
Variables prec emax : Z.
Hypothesis Hprec : 0 < prec.

Lemma SFdiv_error (x : spec_float) (sy : bool) (my : positive) (ey : Z) :
  is_finite x = true ->
  is_finite (SFdiv prec emax x (S754_finite sy my ey)) = true ->
  (Rabs (B2R (SFdiv prec emax x (S754_finite sy my ey))
         - B2R x / B2R (S754_finite sy my ey))
   <= u_ prec * Rabs (B2R x / B2R (S754_finite sy my ey)) + eta_ prec emax)%R.
Proof.
  pose proof (u_pos prec) as Hu. pose proof (eta_pos prec emax) as He.
  intros Hx.
  assert (Hy0 : (0 < IZR (Zpos my) * pw ey)%R).
  { apply Rmult_lt_0_compat; [apply IZR_lt; lia|apply pw_pos]. }
  destruct x as [sx|sx| |sx mx ex]; try discriminate; cbn [SFdiv].
  - intros _. cbn [B2R]. unfold Rdiv. rewrite Rmult_0_l, Rminus_0_r, Rabs_R0. lra.
  - unfold SFdiv_core_binary.
    set (d1 := Zdigits2 (Zpos mx)). set (d2 := Zdigits2 (Zpos my)).
    set (X := d1 + ex - (d2 + ey)).
    set (e' := Z.min (fexp prec emax X) (ex - ey)).
    assert (Hs : 0 <= ex - ey - e') by (unfold e'; lia).
    rewrite (shift_mantissa_nonneg (Zpos mx) (ex - ey - e') Hs).
    set (m' := Zpos mx * 2 ^ (ex - ey - e')).
    destruct (Z.div_eucl m' (Zpos my)) as [qq rr] eqn:Hdiv.
    pose proof (Z_div_mod m' (Zpos my) ltac:(lia)) as Hdm.
    rewrite Hdiv in Hdm. destruct Hdm as [Hm' Hrr].
    assert (Hp2 : 0 < 2 ^ (ex - ey - e')) by (apply Z.pow_pos_nonneg; lia).
    assert (Hm'0 : 0 < m') by (unfold m'; lia).
    assert (Hq0 : 0 <= qq) by nia.
    intros Hfin.
    (* the exact quotient *)
    set (v := (IZR m' / IZR (Zpos my) * pw e')%R).
    assert (Hv : (B2R (S754_finite sx mx ex) / B2R (S754_finite sy my ey)
                  = sgn (xorb sx sy) * v)%R).
    { rewrite !B2R_finite. unfold v, m'.
      rewrite mult_IZR, pw_IZR by lia.
      replace (pw ex) with (pw (ex - ey - e') * pw e' * pw ey)%R.
      - pose proof (pw_pos ey).
        assert (IZR (Zpos my) <> 0%R) by (apply eq_IZR_contrapositive; lia).
        destruct sx, sy; unfold sgn; cbn [xorb]; field; split; lra.
      - rewrite <- !pw_add. f_equal. lia. }
    assert (Hmy : (0 < IZR (Zpos my))%R) by (apply IZR_lt; lia).
    assert (Hv0 : (0 <= v)%R).
    { unfold v. apply Rmult_le_pos; [|apply Rlt_le, pw_pos].
      apply Rmult_le_pos; [apply IZR_le; lia|].
      apply Rlt_le, Rinv_0_lt_compat, Hmy. }
    rewrite Hv, Rabs_sgn, (Rabs_pos_eq v Hv0).
    pose proof (pw_pos e') as Hpe'.
    assert (Hquot : (IZR qq <= IZR m' / IZR (Zpos my) <= IZR (qq + 1))%R).
    { split.
      - apply Rmult_le_reg_r with (IZR (Zpos my)); [exact Hmy|].
        unfold Rdiv. rewrite Rmult_assoc, Rinv_l, Rmult_1_r by lra.
        rewrite <- mult_IZR. apply IZR_le. nia.
      - apply Rmult_le_reg_r with (IZR (Zpos my)); [exact Hmy|].
        unfold Rdiv. rewrite Rmult_assoc, Rinv_l, Rmult_1_r by lra.
        rewrite <- mult_IZR. apply IZR_le. nia. }
    apply binary_round_aux_error; try assumption.
    + unfold v. split; apply Rmult_le_compat_r; lra.
    + intros Hl. apply new_location_exact in Hl. subst rr.
      unfold v. f_equal. rewrite Hm', Z.add_0_r, mult_IZR. field. lra.
    + (* enough digits, or the subnormal range *)
      pose proof (Zdigits2_bounds (Zpos mx) ltac:(lia)) as (X1 & X2 & X3).
      pose proof (Zdigits2_bounds (Zpos my) ltac:(lia)) as (Y1 & Y2 & Y3).
      specialize (X3 ltac:(lia)). specialize (Y3 ltac:(lia)).
      fold d1 in X1, X2, X3. fold d2 in Y1, Y2, Y3.
      assert (Hqdiv : qq = m' / Zpos my).
      { unfold Z.div. rewrite Hdiv. reflexivity. }
      destruct (Z_le_gt_dec (fexp prec emax X) (ex - ey)) as [Hle|Hgt].
      * assert (He' : e' = fexp prec emax X) by (unfold e'; lia).
        destruct (Z_le_gt_dec (X - prec) (emin prec emax)) as [Hsub|Hnorm].
        -- right. right. left. rewrite He'. unfold fexp. lia.
        -- right. left.
           assert (HeX : e' = X - prec) by (rewrite He'; unfold fexp; lia).
           assert (Hsd : (d1 - 1) + (ex - ey - e') = (prec - 1) + d2).
           { unfold X in HeX. rewrite HeX. ring. }
           assert (Hd1 : 1 <= d1).
           { destruct (Z.eq_dec d1 0) as [Hz|Hnz]; [|lia].
             rewrite Hz in X1. simpl in X1. lia. }
           assert (Hlow : 2 ^ (prec - 1) <= qq).
           { rewrite Hqdiv. apply Z.div_le_lower_bound; [lia|].
             unfold m'.
             assert (H22 : 2 ^ (d1 - 1) * 2 ^ (ex - ey - e') = 2 ^ (prec - 1) * 2 ^ d2).
             { rewrite <- !Z.pow_add_r by lia. f_equal. exact Hsd. }
             assert (0 < 2 ^ (prec - 1)) by (apply Z.pow_pos_nonneg; lia).
             nia. }
           pose proof (Zdigits2_lower qq (prec - 1) ltac:(lia) Hlow). lia.
      * assert (He' : e' = ex - ey) by (unfold e'; lia).
        right. right. right.
        apply Z.lt_le_trans with (fexp prec emax X); [lia|].
        apply fexp_mono.
        assert (Hdq : d1 - d2 <= Zdigits2 qq).
        { destruct (Z_le_gt_dec (d1 - d2) 0) as [Hnp|Hp].
          - pose proof (Zdigits2_bounds qq Hq0). lia.
          - assert (Hlow : 2 ^ (d1 - d2 - 1) <= qq).
            { rewrite Hqdiv. apply Z.div_le_lower_bound; [lia|].
              unfold m'. rewrite He'.
              replace (ex - ey - (ex - ey)) with 0 by lia.
              rewrite Z.pow_0_r, Z.mul_1_r.
              assert (H22 : 2 ^ (d1 - 1) = 2 ^ (d1 - d2 - 1) * 2 ^ d2).
              { rewrite <- Z.pow_add_r by lia. f_equal. lia. }
              assert (0 < 2 ^ (d1 - d2 - 1)) by (apply Z.pow_pos_nonneg; lia).
              nia. }
            pose proof (Zdigits2_lower qq (d1 - d2 - 1) ltac:(lia) Hlow). lia. }
        unfold X. lia.
Qed.
End DivError.

Lemma sqrt_between (x lo hi : real) :
  (0 <= lo)%R -> (0 <= hi)%R -> (lo * lo <= x <= hi * hi)%R ->
  (lo <= sqrt x <= hi)%R.
Proof.
  intros Hlo Hhi [H1 H2]. split.
  - rewrite <- (sqrt_square lo Hlo). apply sqrt_le_1_alt. exact H1.
  - rewrite <- (sqrt_square hi Hhi). apply sqrt_le_1_alt. exact H2.
Qed.

Section SqrtError.
Variables prec emax : Z.
Hypothesis Hprec : 0 < prec.

Lemma SFsqrt_error (x : spec_float) :
  is_finite (SFsqrt prec emax x) = true ->
  is_finite x = true /\ (0 <= B2R x)%R /\
  (Rabs (B2R (SFsqrt prec emax x) - sqrt (B2R x))
   <= u_ prec * sqrt (B2R x) + eta_ prec emax)%R.
Proof.
  pose proof (u_pos prec) as Hu. pose proof (eta_pos prec emax) as He.
  destruct x as [sx|sx| |sx mx ex]; cbn [SFsqrt is_finite]; try discriminate.
  - intros _. split; [reflexivity|]. cbn [B2R]. rewrite sqrt_0.
    split; [lra|]. rewrite Rminus_0_r, Rabs_R0. lra.
  - destruct sx; discriminate.
  - destruct sx; [discriminate|].
    unfold SFsqrt_core_binary.
    set (d := Zdigits2 (Zpos mx)).
    set (Y := Z.div2 (d + ex + 1)).
    set (e' := Z.min (fexp prec emax Y) (Z.div2 ex)).
    assert (Hdiv2 : forall a, 2 * Z.div2 a <= a < 2 * Z.div2 a + 2).
    { intros a. rewrite Z.div2_div.
      pose proof (Z.div_mod a 2 ltac:(lia)). pose proof (Z.mod_pos_bound a 2 ltac:(lia)).
      lia. }
    assert (Hs : 0 <= ex - 2 * e').
    { pose proof (Hdiv2 ex). unfold e'. lia. }
    rewrite (shift_mantissa_nonneg (Zpos mx) (ex - 2 * e') Hs).
    set (m' := Zpos mx * 2 ^ (ex - 2 * e')).
    assert (Hp2 : 0 < 2 ^ (ex - 2 * e')) by (apply Z.pow_pos_nonneg; lia).
    assert (Hm'0 : 0 < m') by (unfold m'; lia).
    pose proof (Z.sqrtrem_spec m' ltac:(lia)) as Hsq.
    destruct (Z.sqrtrem m') as [qq rr]. destruct Hsq as [Hm' Hrr].
    assert (Hq0 : 0 <= qq) by nia.
    intros Hfin. split; [reflexivity|].
    rewrite B2R_finite. unfold sgn at 1 2 3. rewrite !Rmult_1_l.
    assert (Hx0 : (0 <= IZR (Zpos mx) * pw ex)%R).
    { apply Rmult_le_pos; [apply IZR_le; lia|apply Rlt_le, pw_pos]. }
    split; [exact Hx0|].
    set (v := sqrt (IZR (Zpos mx) * pw ex)).
    pose proof (pw_pos e') as Hpe'.
    assert (Hxm : (IZR (Zpos mx) * pw ex = IZR m' * (pw e' * pw e'))%R).
    { unfold m'. rewrite mult_IZR, pw_IZR by lia.
      rewrite Rmult_assoc, <- !pw_add. do 2 f_equal. lia. }
    assert (Hbetween : (IZR qq * pw e' <= v <= IZR (qq + 1) * pw e')%R).
    { apply sqrt_between.
      - apply Rmult_le_pos; [apply IZR_le; lia|lra].
      - apply Rmult_le_pos; [apply IZR_le; lia|lra].
      - rewrite Hxm.
        assert (H1 : (IZR qq * IZR qq <= IZR m')%R).
        { rewrite <- mult_IZR. apply IZR_le. lia. }
        assert (H2 : (IZR m' <= IZR (qq + 1) * IZR (qq + 1))%R).
        { rewrite <- mult_IZR. apply IZR_le. nia. }
        assert (Hpp : (0 < pw e' * pw e')%R) by nra.
        split.
        + replace (IZR qq * pw e' * (IZR qq * pw e'))%R
            with (IZR qq * IZR qq * (pw e' * pw e'))%R by ring.
          apply Rmult_le_compat_r; lra.
        + replace (IZR (qq + 1) * pw e' * (IZR (qq + 1) * pw e'))%R
            with (IZR (qq + 1) * IZR (qq + 1) * (pw e' * pw e'))%R by ring.
          apply Rmult_le_compat_r; lra. }
    assert (Hgoal : (Rabs (B2R (binary_round_aux prec emax false qq e'
                                  (if rr =? 0 then loc_Exact
                                   else loc_Inexact (if rr <=? qq then Lt else Gt)))
                           - sgn false * v) <= u_ prec * v + eta_ prec emax)%R).
    { apply binary_round_aux_error; try assumption.
      - intros Hl. destruct (rr =? 0) eqn:Hr0; [|discriminate].
        apply Z.eqb_eq in Hr0. unfold v. rewrite Hxm.
        replace m' with (qq * qq) by lia. rewrite mult_IZR.
        replace (IZR qq * IZR qq * (pw e' * pw e'))%R
          with ((IZR qq * pw e') * (IZR qq * pw e'))%R by ring.
        apply sqrt_square.
        apply Rmult_le_pos; [apply IZR_le; lia|lra].
      - (* enough digits, or the subnormal range *)
        pose proof (Zdigits2_bounds (Zpos mx) ltac:(lia)) as (X1 & X2 & X3).
        specialize (X3 ltac:(lia)). fold d in X1, X2, X3.
        assert (Hd1 : 1 <= d).
        { destruct (Z.eq_dec d 0) as [Hz|Hnz]; [|lia].
          rewrite Hz in X1. simpl in X1. lia. }
        pose proof (Hdiv2 (d + ex + 1)) as HY. fold Y in HY.
        pose proof (Hdiv2 ex) as Hex2.
        destruct (Z_le_gt_dec (fexp prec emax Y) (Z.div2 ex)) as [Hle|Hgt].
        + assert (He' : e' = fexp prec emax Y) by (unfold e'; lia).
          destruct (Z_le_gt_dec (Y - prec) (emin prec emax)) as [Hsub|Hnorm].
          * right. right. left. rewrite He'. unfold fexp. lia.
          * right. left.
            assert (HeY : e' = Y - prec) by (rewrite He'; unfold fexp; lia).
            assert (Hexp : 2 * (prec - 1) <= (d - 1) + (ex - 2 * e')).
            { rewrite HeY. lia. }
            (* [m' >= 2 ^ (2 prec - 2)], hence [qq >= 2 ^ (prec - 1)] *)
            assert (Hm'lo : 2 ^ (prec - 1) * 2 ^ (prec - 1) <= m').
            { unfold m'. rewrite <- Z.pow_add_r by lia.
              apply Z.le_trans with (2 ^ ((d - 1) + (ex - 2 * e'))).
              - apply Z.pow_le_mono_r; lia.
              - rewrite Z.pow_add_r by lia. nia. }
            assert (Hlow : 2 ^ (prec - 1) <= qq).
            { assert (0 < 2 ^ (prec - 1)) by (apply Z.pow_pos_nonneg; lia).
              destruct (Z_le_gt_dec (2 ^ (prec - 1)) qq) as [|Hlt]; [assumption|].
              exfalso. nia. }
            pose proof (Zdigits2_lower qq (prec - 1) ltac:(lia) Hlow). lia.
        + assert (He' : e' = Z.div2 ex) by (unfold e'; lia).
          right. right. right.
          apply Z.lt_le_trans with (fexp prec emax Y); [lia|].
          apply fexp_mono.
          (* [m' < (qq + 1)^2 <= 2 ^ (2 dq)] *)
          pose proof (Zdigits2_bounds qq Hq0) as (Q1 & Q2 & _).
          set (dq := Zdigits2 qq) in *.
          assert (Hqq : m' < 2 ^ dq * 2 ^ dq) by nia.
          assert (Hm'lo : 2 ^ ((d - 1) + (ex - 2 * e')) <= m').
          { unfold m'. rewrite Z.pow_add_r by lia. nia. }
          assert (Hlt : (d - 1) + (ex - 2 * e') < dq + dq).
          { apply (Z.pow_lt_mono_r_iff 2); [lia|lia|].
            rewrite (Z.pow_add_r 2 dq dq) by lia. lia. }
          lia. }
    unfold sgn in Hgoal. rewrite Rmult_1_l in Hgoal. exact Hgoal.
Qed.
End SqrtError.

(** ** Class, sign and range of rounded results *)

Lemma pw_le_inv (a b : Z) : (pw a <= pw b)%R -> a <= b.
Proof.
  intros H. destruct (Z_le_gt_dec a b) as [|Hgt]; [assumption|].
  exfalso.
  assert (H1 : (pw (b + 1) <= pw a)%R) by (apply pw_le; lia).
  rewrite pw_succ in H1. pose proof (pw_pos b). lra.
Qed.

Section Structure.
Variables prec emax : Z.
Hypothesis Hprec : 0 < prec.

Lemma binary_round_aux_finite (s : bool) (m e : Z) (l : location) :
  0 <= m ->
  Z.max e (fexp prec emax (Zdigits2 m + e)) + 1 <= emax - prec ->
  is_finite (binary_round_aux prec emax s m e l) = true.
Proof.
  intros Hm0 HE.
  destruct (binary_round_aux_spec prec emax Hprec s m e l Hm0)
    as (m1 & _ & _ & [[_ ->]|[_ (m' & e' & He' & _ & _ & ->)]]).
  - reflexivity.
  - replace (e' <=? emax - prec) with true by (symmetry; apply Z.leb_le; lia).
    reflexivity.
Qed.

(** A finite rounded result has the sign asked for, a mantissa below
    [2 ^ prec] and an exponent within range. *)
Lemma binary_round_aux_bounded (s : bool) (m e : Z) (l : location)
      (s' : bool) (m' : positive) (e' : Z) :
  0 <= m ->
  binary_round_aux prec emax s m e l = S754_finite s' m' e' ->
  s' = s /\ Zpos m' < 2 ^ prec /\ emin prec emax <= e' <= emax - prec.
Proof.
  intros Hm0 Heq.
  destruct (binary_round_aux_spec prec emax Hprec s m e l Hm0)
    as (m1 & _ & _ & [[_ Hr]|[_ (m2 & e2 & He2 & _ & Hm2 & Hr)]]);
    rewrite Hr in Heq; [discriminate|].
  destruct (e2 <=? emax - prec) eqn:Hle; [|discriminate].
  injection Heq as <- <- <-. apply Z.leb_le in Hle.
  pose proof (fexp_ge_emin prec emax (Zdigits2 m + e)).
  repeat split; try assumption; lia.
Qed.

Lemma binary_round_aux_class (s : bool) (m e : Z) (l : location) :
  0 <= m ->
  binary_round_aux prec emax s m e l = S754_zero s \/
  binary_round_aux prec emax s m e l = S754_infinity s \/
  exists (m' : positive) (e' : Z),
    binary_round_aux prec emax s m e l = S754_finite s m' e'.
Proof.
  intros Hm0.
  destruct (binary_round_aux_spec prec emax Hprec s m e l Hm0)
    as (m1 & _ & _ & [[_ ->]|[_ (m2 & e2 & _ & _ & _ & ->)]]).
  - left. reflexivity.
  - destruct (e2 <=? emax - prec).
    + right. right. exists m2, e2. reflexivity.
    + right. left. reflexivity.
Qed.

Lemma binary_round_bounded (s : bool) (m : positive) (e : Z)
      (s' : bool) (m' : positive) (e' : Z) :
  binary_round prec emax s m e = S754_finite s' m' e' ->
  s' = s /\ Zpos m' < 2 ^ prec /\ emin prec emax <= e' <= emax - prec.
Proof.
  unfold binary_round.
  destruct (shl_align m e (fexp prec emax (Zpos (digits2_pos m) + e))) as [mz ez].
  apply binary_round_aux_bounded. lia.
Qed.

(** Ordering of two positive numbers with full-width mantissas. *)
Lemma SFltb_false_le (mx my : positive) (ex ey : Z) :
  Zpos (digits2_pos mx) = prec ->
  Zpos (digits2_pos my) = prec ->
  SFltb (S754_finite false mx ex) (S754_finite false my ey) = false ->
  (B2R (S754_finite false my ey) <= B2R (S754_finite false mx ex))%R.
Proof.
  intros Hdx Hdy. unfold SFltb. cbn [SFcompare].
  rewrite !B2R_finite. unfold sgn. rewrite !Rmult_1_l.
  pose proof (digits2_pos_bounds mx) as [Xlo Xhi].
  pose proof (digits2_pos_bounds my) as [Ylo Yhi].
  rewrite Hdx in Xlo, Xhi. rewrite Hdy in Ylo, Yhi.
  pose proof (pw_pos ey) as Hpy.
  destruct (ex ?= ey) eqn:Hc.
  - apply Z.compare_eq in Hc. subst ey.
    destruct (Pos.compare_cont Eq mx my) eqn:Hm; try discriminate; intros _.
    + apply Pos.compare_eq in Hm. subst. lra.
    + apply Rmult_le_compat_r; [lra|]. apply IZR_le.
      change (Pos.compare_cont Eq mx my) with (Pos.compare mx my) in Hm.
      apply Pos.compare_gt_iff in Hm. lia.
  - discriminate.
  - intros _. apply Z.compare_gt_iff in Hc.
    assert (H2p : 2 ^ prec = 2 * 2 ^ (prec - 1)).
    { replace prec with (Z.succ (prec - 1)) at 1 by lia.
      apply Z.pow_succ_r. lia. }
    assert (Hpe : (pw (ey + 1) <= pw ex)%R) by (apply pw_le; lia).
    rewrite pw_succ in Hpe.
    assert (Hx' : (IZR (2 ^ (prec - 1)) <= IZR (Zpos mx))%R) by (apply IZR_le; lia).
    assert (Hy' : (IZR (Zpos my) <= 2 * IZR (2 ^ (prec - 1)))%R).
    { rewrite <- mult_IZR. apply IZR_le. lia. }
    assert (0 < IZR (2 ^ (prec - 1)))%R.
    { apply IZR_lt. apply Z.pow_pos_nonneg; lia. }
    nra.
Qed.

(** Division does not overflow when the quotient is at most [2 ^ K]. *)
Lemma SFdiv_finite (x : spec_float) (sy : bool) (my : positive) (ey K : Z) :
  is_finite x = true ->
  (Rabs (B2R x / B2R (S754_finite sy my ey)) <= pw K)%R ->
  emin prec emax <= K + 1 ->
  Z.max (K + 1 - prec) (emin prec emax) + 1 <= emax - prec ->
  is_finite (SFdiv prec emax x (S754_finite sy my ey)) = true.
Proof.
  intros Hx Hq HK1 HK2.
  destruct x as [sx|sx| |sx mx ex]; try discriminate; cbn [SFdiv]; [reflexivity|].
  unfold SFdiv_core_binary.
  set (d1 := Zdigits2 (Zpos mx)). set (d2 := Zdigits2 (Zpos my)).
  set (X := d1 + ex - (d2 + ey)).
  set (e' := Z.min (fexp prec emax X) (ex - ey)).
  assert (Hs : 0 <= ex - ey - e') by (unfold e'; lia).
  rewrite (shift_mantissa_nonneg (Zpos mx) (ex - ey - e') Hs).
  set (m' := Zpos mx * 2 ^ (ex - ey - e')).
  destruct (Z.div_eucl m' (Zpos my)) as [qq rr] eqn:Hdiv.
  pose proof (Z_div_mod m' (Zpos my) ltac:(lia)) as Hdm.
  rewrite Hdiv in Hdm. destruct Hdm as [Hm' Hrr].
  assert (Hp2 : 0 < 2 ^ (ex - ey - e')) by (apply Z.pow_pos_nonneg; lia).
  assert (Hm'0 : 0 < m') by (unfold m'; lia).
  assert (Hq0 : 0 <= qq) by nia.
  (* the quotient as a real number *)
  rewrite !B2R_finite in Hq.
  assert (Hmy : (0 < IZR (Zpos my))%R) by (apply IZR_lt; lia).
  assert (Hmx : (0 < IZR (Zpos mx))%R) by (apply IZR_lt; lia).
  pose proof (pw_pos ex) as Hpex. pose proof (pw_pos ey) as Hpey.
  set (v := (IZR (Zpos mx) * pw ex / (IZR (Zpos my) * pw ey))%R) in *.
  assert (Hv : (v <= pw K)%R).
  { replace (sgn sx * (IZR (Zpos mx) * pw ex) / (sgn sy * (IZR (Zpos my) * pw ey)))%R
      with (sgn (xorb sx sy) * v)%R in Hq.
    - rewrite Rabs_sgn in Hq. apply Rle_trans with (2 := Hq). apply Rle_abs.
    - unfold v. destruct sx, sy; unfold sgn; cbn [xorb]; field; nra. }
  assert (Hyp : (0 < IZR (Zpos my) * pw ey)%R) by nra.
  pose proof (Zdigits2_bounds (Zpos mx) ltac:(lia)) as (X1 & X2 & X3).
  pose proof (Zdigits2_bounds (Zpos my) ltac:(lia)) as (Y1 & Y2 & Y3).
  specialize (X3 ltac:(lia)). fold d1 in X1, X2, X3. fold d2 in Y1, Y2.
  assert (Hd1 : 1 <= d1).
  { destruct (Z.eq_dec d1 0) as [Hz|Hnz]; [|lia].
    rewrite Hz in X1. simpl in X1. lia. }
  (* [2 ^ (X - 1) <= v] *)
  assert (HX : X - 1 <= K).
  { apply pw_le_inv. apply Rle_trans with (2 := Hv).
    unfold v. apply Rmult_le_reg_r with (IZR (Zpos my) * pw ey)%R; [exact Hyp|].
    unfold Rdiv. rewrite Rmult_assoc, Rinv_l, Rmult_1_r by lra.
    replace (X - 1) with ((d1 - 1) + ex + (- d2) + (- ey)) by (unfold X; lia).
    rewrite !pw_add.
    assert (K1 : (pw (d1 - 1) <= IZR (Zpos mx))%R).
    { rewrite <- pw_IZR by lia. apply IZR_le. lia. }
    assert (K2 : (IZR (Zpos my) <= pw d2)%R).
    { rewrite <- pw_IZR by lia. apply IZR_le. lia. }
    assert (K3 : (pw (- d2) * pw d2 = 1)%R).
    { rewrite <- pw_add. replace (- d2 + d2) with 0 by lia. reflexivity. }
    assert (K4 : (pw (- ey) * pw ey = 1)%R).
    { rewrite <- pw_add. replace (- ey + ey) with 0 by lia. reflexivity. }
    pose proof (pw_pos (d1 - 1)). pose proof (pw_pos (- d2)).
    pose proof (pw_pos (- ey)). pose proof (pw_pos d2).
    replace (pw (d1 - 1) * pw ex * pw (- d2) * pw (- ey) * (IZR (Zpos my) * pw ey))%R
      with (pw (d1 - 1) * pw ex * (pw (- d2) * IZR (Zpos my)) * (pw (- ey) * pw ey))%R
      by ring.
    rewrite K4, Rmult_1_r.
    assert (K5 : (pw (- d2) * IZR (Zpos my) <= 1)%R) by nra.
    assert (K6 : (0 <= pw (- d2) * IZR (Zpos my))%R) by nra.
    assert (K7 : (0 < pw (d1 - 1) * pw ex)%R) by nra.
    assert (K8 : (pw (d1 - 1) * pw ex <= IZR (Zpos mx) * pw ex)%R) by nra.
    nra. }
  assert (He'K : e' <= Z.max (K + 1 - prec) (emin prec emax)).
  { unfold e', fexp. lia. }
  (* the digits of the integer quotient *)
  assert (Hdq : Zdigits2 qq + e' <= K + 1).
  { destruct (Z.eq_dec qq 0) as [->|Hnz].
    - cbn [Zdigits2]. lia.
    - pose proof (Zdigits2_bounds qq Hq0) as (_ & Q2 & Q3).
      specialize (Q3 ltac:(lia)).
      assert (Hd0 : 1 <= Zdigits2 qq).
      { destruct qq as [|p|p]; try lia. cbn. lia. }
      assert (Hle : Zdigits2 qq - 1 + e' <= K); [|lia].
      apply pw_le_inv. apply Rle_trans with (2 := Hv).
      rewrite pw_add.
      apply Rle_trans with (IZR qq * pw e')%R.
      + apply Rmult_le_compat_r; [apply Rlt_le, pw_pos|].
        rewrite <- pw_IZR by lia. apply IZR_le. lia.
      + unfold v.
        apply Rmult_le_reg_r with (IZR (Zpos my) * pw ey)%R; [exact Hyp|].
        unfold Rdiv. rewrite (Rmult_assoc _ (/ _)), Rinv_l, Rmult_1_r by lra.
        replace (pw ex) with (pw (ex - ey - e') * pw e' * pw ey)%R
          by (rewrite <- !pw_add; f_equal; lia).
        replace (IZR qq * pw e' * (IZR (Zpos my) * pw ey))%R
          with (IZR qq * IZR (Zpos my) * (pw e' * pw ey))%R by ring.
        replace (IZR (Zpos mx) * (pw (ex - ey - e') * pw e' * pw ey))%R
          with (IZR (Zpos mx) * pw (ex - ey - e') * (pw e' * pw ey))%R by ring.
        apply Rmult_le_compat_r.
        * pose proof (pw_pos e'). nra.
        * rewrite <- pw_IZR, <- !mult_IZR by lia. apply IZR_le. fold m'. nia. }
  apply binary_round_aux_finite; try assumption.
  unfold fexp. lia.
Qed.
End Structure.

(** ** The real-number side of the error analysis *)

Section RealAnalysis.
Local Open Scope R_scope.

Lemma abs_err_split (a b c : real) :
  Rabs (a - b) <= c -> b - c <= a <= b + c.
Proof.
  intros H. unfold Rabs in H. destruct (Rcase_abs (a - b)); lra.
Qed.

Lemma Rabs_cases (b : real) : (0 <= b /\ Rabs b = b) \/ (b < 0 /\ Rabs b = - b).
Proof.
  destruct (Rle_lt_dec 0 b) as [H|H].
  - left. split; [assumption|]. apply Rabs_pos_eq. assumption.
  - right. split; [assumption|]. apply Rabs_left. assumption.
Qed.

Lemma rel_err_bounds (a b : real) :
  Rabs (a - b) <= rel32 * Rabs b + tiny ->
  (0 <= b -> b * (1 - rel32) - tiny <= a <= b * (1 + rel32) + tiny) /\
  (b < 0 -> b * (1 + rel32) - tiny <= a <= b * (1 - rel32) + tiny).
Proof.
  intros H. apply abs_err_split in H.
  destruct (Rabs_cases b) as [[Hb Hab]|[Hb Hab]]; rewrite Hab in H; split; intros; lra.
Qed.

Lemma rel_err_bounds' (a b : real) :
  Rabs (a - b) <= rel64 * Rabs b + tiny ->
  (0 <= b -> b * (1 - rel64) - tiny <= a <= b * (1 + rel64) + tiny) /\
  (b < 0 -> b * (1 + rel64) - tiny <= a <= b * (1 - rel64) + tiny).
Proof.
  intros H. apply abs_err_split in H.
  destruct (Rabs_cases b) as [[Hb Hab]|[Hb Hab]]; rewrite Hab in H; split; intros; lra.
Qed.

(** The rounded sum of four rounded squares. *)
Lemma sum_of_squares_chain (x0 x1 x2 x3 p0 p1 p2 p3 t1 t2 S : real) :
  0 <= x0 -> 0 <= x1 -> 0 <= x2 -> 0 <= x3 ->
  Rabs (p0 - x0) <= rel32 * Rabs x0 + tiny ->
  Rabs (p1 - x1) <= rel32 * Rabs x1 + tiny ->
  Rabs (p2 - x2) <= rel32 * Rabs x2 + tiny ->
  Rabs (p3 - x3) <= rel32 * Rabs x3 + tiny ->
  Rabs (t1 - (p0 + p1)) <= rel32 * Rabs (p0 + p1) + tiny ->
  Rabs (t2 - (t1 + p2)) <= rel32 * Rabs (t1 + p2) + tiny ->
  Rabs (S - (t2 + p3)) <= rel32 * Rabs (t2 + p3) + tiny ->
  (x0 + x1 + x2 + x3) * (1 - 1 / 1000000) - 100 * tiny <= S
  <= (x0 + x1 + x2 + x3) * (1 + 1 / 1000000) + 100 * tiny.
Proof.
  intros H0 H1 H2 H3 E0 E1 E2 E3 F1 F2 F3.
  apply rel_err_bounds in E0, E1, E2, E3.
  destruct E0 as [E0 _], E1 as [E1 _], E2 as [E2 _], E3 as [E3 _].
  specialize (E0 H0). specialize (E1 H1). specialize (E2 H2). specialize (E3 H3).
  apply rel_err_bounds in F1, F2, F3.
  unfold rel32, tiny in *.
  destruct F1 as [F1a F1b], F2 as [F2a F2b], F3 as [F3a F3b].
  destruct (Rle_lt_dec 0 (p0 + p1)) as [S1|S1];
    [specialize (F1a S1); clear F1b|specialize (F1b S1); clear F1a];
    (destruct (Rle_lt_dec 0 (t1 + p2)) as [S2|S2];
     [specialize (F2a S2); clear F2b|specialize (F2b S2); clear F2a]);
    (destruct (Rle_lt_dec 0 (t2 + p3)) as [S3|S3];
     [specialize (F3a S3); clear F3b|specialize (F3b S3); clear F3a]);
    lra.
Qed.

(** From the rounded sum of squares to the rounded norm. *)
Lemma norm_chain (A S D w Rr Q : real) :
  0 <= A ->
  A * (1 - 1 / 1000000) - 100 * tiny <= S <= A * (1 + 1 / 1000000) + 100 * tiny ->
  Rabs (D - S) <= rel64 * Rabs S + tiny ->
  0 <= D -> 0 <= w -> w * w = D ->
  Rabs (Rr - w) <= rel64 * Rabs w + tiny ->
  Rabs (Q - Rr) <= rel32 * Rabs Rr + tiny ->
  999 / 1000000 <= Q ->
  0 < A /\ A * (1 - 1 / 100000) <= Q * Q <= A * (1 + 1 / 100000).
Proof.
  intros HA HS HD HD0 Hw0 Hww HR HQ HQlo.
  apply rel_err_bounds in HQ. apply rel_err_bounds' in HR, HD.
  destruct HR as [HR _]. specialize (HR Hw0).
  unfold rel32, rel64, tiny in *.
  (* [Rr] and [w] are close to [Q] *)
  assert (HRr0 : 0 <= Rr).
  { destruct (Rle_lt_dec 0 Rr) as [|Hneg]; [assumption|].
    destruct HQ as [_ HQn]. specialize (HQn Hneg). lra. }
  destruct HQ as [HQ _]. specialize (HQ HRr0).
  assert (HRlo : 998 / 1000000 <= Rr) by lra.
  assert (Hwlo : 997 / 1000000 <= w) by lra.
  assert (HQw : w * (1 - 2 / 10000000) <= Q <= w * (1 + 2 / 10000000)) by lra.
  assert (HQ2 : D * (1 - 5 / 10000000) <= Q * Q <= D * (1 + 5 / 10000000)).
  { rewrite <- Hww. split; nra. }
  assert (HDlo : 99 / 100000000 <= D) by nra.
  assert (HS0 : 0 <= S).
  { destruct (Rle_lt_dec 0 S) as [|Hneg]; [assumption|].
    destruct HD as [_ HDn]. specialize (HDn Hneg). lra. }
  destruct HD as [HD _]. specialize (HD HS0).
  assert (HSlo : 98 / 100000000 <= S) by lra.
  assert (HAlo : 97 / 100000000 <= A) by lra.
  split; [lra|].
  assert (HDA : A * (1 - 2 / 1000000) <= D <= A * (1 + 2 / 1000000)) by lra.
  split; nra.
Qed.

(** From the norm to the normalised components. *)
Lemma normalised_components (a0 a1 a2 a3 y0 y1 y2 y3 r0 r1 r2 r3 Q : real) :
  0 < Q ->
  0 < a0 * a0 + a1 * a1 + a2 * a2 + a3 * a3 ->
  (a0 * a0 + a1 * a1 + a2 * a2 + a3 * a3) * (1 - 1 / 100000) <= Q * Q
  <= (a0 * a0 + a1 * a1 + a2 * a2 + a3 * a3) * (1 + 1 / 100000) ->
  y0 * Q = a0 -> y1 * Q = a1 -> y2 * Q = a2 -> y3 * Q = a3 ->
  Rabs (r0 - y0) <= rel32 * Rabs y0 + tiny ->
  Rabs (r1 - y1) <= rel32 * Rabs y1 + tiny ->
  Rabs (r2 - y2) <= rel32 * Rabs y2 + tiny ->
  Rabs (r3 - y3) <= rel32 * Rabs y3 + tiny ->
  999 / 1000 * (999 / 1000) <= r0 * r0 + r1 * r1 + r2 * r2 + r3 * r3
  <= 1001 / 1000 * (1001 / 1000).
Proof.
  intros HQ HA HQ2 E0 E1 E2 E3 F0 F1 F2 F3.
  set (A := a0 * a0 + a1 * a1 + a2 * a2 + a3 * a3) in *.
  set (Y := y0 * y0 + y1 * y1 + y2 * y2 + y3 * y3).
  assert (HYQ : Y * (Q * Q) = A).
  { unfold Y, A. rewrite <- E0, <- E1, <- E2, <- E3. ring. }
  assert (HY : 99998 / 100000 <= Y <= 100002 / 100000).
  { split; nra. }
  assert (Hy : forall y : real, y * y <= Y -> - (10001 / 10000) <= y <= 10001 / 10000).
  { intros y Hyy. split; nra. }
  assert (Hr : forall r y : real,
             y * y <= Y -> Rabs (r - y) <= rel32 * Rabs y + tiny ->
             y * y - 3 / 10000000 <= r * r <= y * y + 3 / 10000000).
  { intros r y Hyy Hry. specialize (Hy y Hyy).
    apply abs_err_split in Hry.
    assert (Hab : Rabs y <= 10001 / 10000).
    { apply Rabs_le. lra. }
    pose proof (Rabs_pos y) as Hab0.
    unfold rel32, tiny in Hry.
    assert (Hd : - (13 / 100000000) <= r - y <= 13 / 100000000) by lra.
    split; nra. }
  assert (Y0 : y0 * y0 <= Y) by (unfold Y; nra).
  assert (Y1 : y1 * y1 <= Y) by (unfold Y; nra).
  assert (Y2 : y2 * y2 <= Y) by (unfold Y; nra).
  assert (Y3 : y3 * y3 <= Y) by (unfold Y; nra).
  pose proof (Hr r0 y0 Y0 F0). pose proof (Hr r1 y1 Y1 F1).
  pose proof (Hr r2 y2 Y2 F2). pose proof (Hr r3 y3 Y3 F3).
  unfold Y in HY. lra.
Qed.
End RealAnalysis.

(** ** binary32 and binary64 instances *)

Lemma pw_neg_inv (k : Z) : 0 <= k -> pw (- k) = (/ IZR (2 ^ k))%R.
Proof.
  intros Hk. rewrite pw_IZR by assumption.
  pose proof (pw_pos k) as Hp.
  apply Rmult_eq_reg_r with (pw k); [|lra].
  rewrite <- pw_add, Rinv_l by lra.
  replace (- k + k) with 0 by lia. reflexivity.
Qed.

Lemma u32_le : (u_ F32.prec <= rel32)%R.
Proof.
  unfold u_, F32.prec, rel32.
  pose proof (pw_neg_inv 23 ltac:(lia)) as H.
  change (pw (1 - 24) = (/ 8388608)%R) in H. rewrite H. lra.
Qed.

Lemma u64_le : (u_ F64.prec <= rel64)%R.
Proof.
  unfold u_, F64.prec, rel64.
  pose proof (pw_neg_inv 52 ltac:(lia)) as H.
  change (pw (1 - 53) = (/ 4503599627370496)%R) in H. rewrite H. lra.
Qed.

Lemma pw_133_le : (pw (- 133) <= tiny)%R.
Proof.
  pose proof (pw_neg_inv 133 ltac:(lia)) as H.
  change (pw (- 133) = (/ 10889035741470030830827987437816582766592)%R) in H.
  rewrite H. unfold tiny. lra.
Qed.

Lemma eta32_le : (eta_ F32.prec F32.emax <= tiny)%R.
Proof.
  unfold eta_. apply Rle_trans with (2 := pw_133_le). apply pw_le.
  unfold emin, F32.prec, F32.emax. lia.
Qed.

Lemma eta64_le : (eta_ F64.prec F64.emax <= tiny)%R.
Proof.
  unfold eta_. apply Rle_trans with (2 := pw_133_le). apply pw_le.
  unfold emin, F64.prec, F64.emax. lia.
Qed.

Lemma relax32 (x y : real) :
  (Rabs (x - y) <= u_ F32.prec * Rabs y + eta_ F32.prec F32.emax)%R ->
  (Rabs (x - y) <= rel32 * Rabs y + tiny)%R.
Proof.
  intros H. pose proof u32_le. pose proof eta32_le. pose proof (Rabs_pos y). nra.
Qed.

Lemma relax64 (x y : real) :
  (Rabs (x - y) <= u_ F64.prec * Rabs y + eta_ F64.prec F64.emax)%R ->
  (Rabs (x - y) <= rel64 * Rabs y + tiny)%R.
Proof.
  intros H. pose proof u64_le. pose proof eta64_le. pose proof (Rabs_pos y). nra.
Qed.

(** The two conversions. *)
Lemma B2R_cond_Zopp (s : bool) (m : positive) (e : Z) :
  (IZR (cond_Zopp s (Zpos m)) * pw e)%R = B2R (S754_finite s m e).
Proof. rewrite IZR_cond_Zopp, B2R_finite. ring. Qed.

Lemma to_float_error (x : float64) :
  is_finite (to_float x) = true ->
  is_finite x = true /\
  (Rabs (B2R (to_float x) - B2R x) <= rel32 * Rabs (B2R x) + tiny)%R.
Proof.
  destruct x as [s|s| |s m e]; cbn [to_float is_finite]; try discriminate.
  - intros _. split; [reflexivity|]. cbn [B2R].
    rewrite Rminus_0_r, Rabs_R0. unfold rel32, tiny. lra.
  - intros Hfin. split; [reflexivity|]. apply relax32.
    rewrite <- B2R_cond_Zopp. apply binary_normalize_error; [reflexivity|exact Hfin].
Qed.

Lemma to_double_error (x : float32) :
  is_finite (to_double x) = true ->
  is_finite x = true /\
  (Rabs (B2R (to_double x) - B2R x) <= rel64 * Rabs (B2R x) + tiny)%R.
Proof.
  destruct x as [s|s| |s m e]; cbn [to_double is_finite]; try discriminate.
  - intros _. split; [reflexivity|]. cbn [B2R].
    rewrite Rminus_0_r, Rabs_R0. unfold rel64, tiny. lra.
  - intros Hfin. split; [reflexivity|]. apply relax64.
    rewrite <- B2R_cond_Zopp. apply binary_normalize_error; [reflexivity|exact Hfin].
Qed.

Lemma F32_mul_error (x y : float32) :
  is_finite (F32.mul x y) = true ->
  is_finite x = true /\ is_finite y = true /\
  (Rabs (B2R (F32.mul x y) - B2R x * B2R y) <= rel32 * Rabs (B2R x * B2R y) + tiny)%R.
Proof.
  intros Hfin.
  destruct (SFmul_error F32.prec F32.emax eq_refl x y Hfin) as (Hx & Hy & He).
  repeat split; try assumption. apply relax32, He.
Qed.

Lemma F32_add_error (x y : float32) :
  is_finite (F32.add x y) = true ->
  is_finite x = true /\ is_finite y = true /\
  (Rabs (B2R (F32.add x y) - (B2R x + B2R y)) <= rel32 * Rabs (B2R x + B2R y) + tiny)%R.
Proof.
  intros Hfin.
  destruct (SFadd_error F32.prec F32.emax eq_refl x y Hfin) as (Hx & Hy & He).
  repeat split; try assumption. apply relax32, He.
Qed.

Lemma F64_sqrt_error (x : float64) :
  is_finite (F64.sqrt x) = true ->
  is_finite x = true /\ (0 <= B2R x)%R /\
  (Rabs (B2R (F64.sqrt x) - sqrt (B2R x)) <= rel64 * Rabs (sqrt (B2R x)) + tiny)%R.
Proof.
  intros Hfin.
  destruct (SFsqrt_error F64.prec F64.emax eq_refl x Hfin) as (Hx & H0 & He).
  repeat split; try assumption.
  apply relax64. rewrite (Rabs_pos_eq (sqrt (B2R x))) by apply sqrt_pos.
  exact He.
Qed.

(** * Properties of the module *)

(** ** The FIFO drain loop *)

Section DrainFacts.
Context {D : Type} `{Adxl345 D}.

Lemma drain_body_i (s : drain_state D) :
  dr_i (drain_body s) = wrap_u8 (dr_i s + 1).
Proof.
  unfold drain_body.
  destruct (PIOS_ADXL345_Read (dr_dev s)) as [[a r] d]. reflexivity.
Qed.

(** Started with count [i] and at most [fuel] further passes allowed before
    the count reaches 32, the loop leaves a count in [i+1 .. 32]. *)
Lemma drain_loop_count (fuel : nat) :
  forall s : drain_state D,
    0 <= dr_i s -> dr_i s + Z.of_nat fuel <= 31 ->
    dr_i s + 1 <= dr_i (drain_loop fuel s) <= 32.
Proof.
  induction fuel as [|fuel IH]; intros s Hlo Hhi; simpl.
  - rewrite drain_body_i. unfold wrap_u8.
    rewrite Z.mod_small by lia. lia.
  - assert (Hi : dr_i (drain_body s) = dr_i s + 1).
    { rewrite drain_body_i. unfold wrap_u8. apply Z.mod_small. lia. }
    destruct ((dr_i (drain_body s) <? 32) && (dr_remaining (drain_body s) >? 0)) eqn:Hc.
    + specialize (IH (drain_body s)). rewrite Hi in IH. 
      assert (dr_i s + 1 + 1 <= dr_i (drain_loop fuel (drain_body s)) <= 32).
      { apply IH; lia. }
      lia.
    + lia.
Qed.

(** The loop stops by its own test: once the count has reached 32 no
    further pass is taken, whatever fuel is left. *)
Lemma drain_loop_fuel (fuel : nat) :
  forall (extra : nat) (s : drain_state D),
    0 <= dr_i s -> 31 <= dr_i s + Z.of_nat fuel ->  dr_i s <= 31 ->
    drain_loop (fuel + extra) s = drain_loop fuel s.
Proof.
  induction fuel as [|fuel IH]; intros extra s Hlo Hhi Hle.
  - assert (Hi : dr_i (drain_body s) = 32).
    { rewrite drain_body_i. unfold wrap_u8. rewrite Z.mod_small; lia. }
    destruct extra as [|extra]; simpl; [reflexivity|].
    rewrite Hi. reflexivity.
  - simpl.
    assert (Hi : dr_i (drain_body s) = dr_i s + 1).
    { rewrite drain_body_i. unfold wrap_u8. apply Z.mod_small. lia. }
    destruct ((dr_i (drain_body s) <? 32) && (dr_remaining (drain_body s) >? 0)) eqn:Hc;
      [|reflexivity].
    apply andb_prop in Hc. destruct Hc as [Hc _].
    apply Z.ltb_lt in Hc.
    apply IH; lia.
Qed.

Lemma drain_loop_fuel_irrelevant (extra : nat) (dev : D) :
  drain_loop (31 + extra) (mkDrain 0 0 0 0 0 dev) = drain dev.
Proof.
  unfold drain. apply drain_loop_fuel; simpl; lia.
Qed.

Lemma drain_count (dev : D) : 1 <= dr_i (drain dev) <= 32.
Proof.
  unfold drain.
  assert (Hc : dr_i (mkDrain 0 0 0 0 0 dev) + 1
               <= dr_i (drain_loop 31 (mkDrain 0 0 0 0 0 dev)) <= 32).
  { apply drain_loop_count; cbn [dr_i]; lia. }
  cbn [dr_i] in Hc. lia.
Qed.
End DrainFacts.

(** Every count in [1 .. 32] converts to a nonzero, finite [float]. *)
Lemma count_to_float_nonzero (i : Z) :
  1 <= i <= 32 ->
  F32.eqb (F32.of_Z i) F32.zero = false /\ gtb (F32.of_Z i) F32.zero = true.
Proof.
  intros Hi.
  assert (Hall : forallb (fun k => negb (F32.eqb (F32.of_Z k) F32.zero)
                                   && gtb (F32.of_Z k) F32.zero)
                         (map Z.of_nat (seq 1 32)) = true) by (vm_compute; reflexivity).
  rewrite forallb_forall in Hall.
  specialize (Hall i).
  assert (Hin : In i (map Z.of_nat (seq 1 32))).
  { apply in_map_iff. exists (Z.to_nat i). split; [lia|].
    apply in_seq. lia. }
  apply Hall in Hin. apply andb_prop in Hin. destruct Hin as [H1 H2].
  split; [now apply negb_true_iff in H1 | exact H2].
Qed.

(** ** Sample count and averaging (C10) *)

(** C10.  The drain loop of [updateSensors] always leaves a sample count [i]
    with [1 <= i <= 32]; the divisor of the three averages is that count
    converted to [float], which is never zero, and on success the same count
    is what [gyrotemp[1]] publishes. *)
Theorem sample_count_divisor_nonzero {D : Type} `{Adxl345 D} (dev : D) :
  1 <= dr_i (drain dev) <= 32 /\
  F32.eqb (F32.of_Z (dr_i (drain dev))) F32.zero = false /\
  accel_average (drain dev) =
    mkVec3 (F32.div (F32.of_Z (dr_x (drain dev))) (F32.of_Z (dr_i (drain dev))))
           (F32.div (F32.of_Z (dr_y (drain dev))) (F32.of_Z (dr_i (drain dev))))
           (F32.div (F32.of_Z (dr_z (drain dev))) (F32.of_Z (dr_i (drain dev)))) /\
  (forall (extra : nat),
      drain_loop (31 + extra) (mkDrain 0 0 0 0 0 dev) = drain dev) /\
  (forall (s : state) (g : gyro_sample) (raw : AttitudeRawData),
      (PIOS_ADXL345_FifoElements dev =? 0) = false ->
      us_ret (updateSensors s dev (Some g) raw) = 0 /\
      gyrotemp1 (us_raw (updateSensors s dev (Some g) raw))
      = F32.of_Z (dr_i (drain dev))).
Proof.
  pose proof (drain_count dev) as Hc.
  split; [exact Hc|].
  split; [apply (count_to_float_nonzero _ Hc)|].
  split; [reflexivity|].
  split; [intros extra; apply drain_loop_fuel_irrelevant|].
  intros s g raw Hne.
  unfold updateSensors. rewrite Hne.
  destruct (apply_rotation s (accel_average (drain dev))
                           (gyros_from_counts (gyroGain s) g)) as [a2 g2].
  split; reflexivity.
Qed.

(** ** Alarm handling when the accelerometer FIFO is empty (C1) *)

Lemma startup_policy_alarm (s : state) (i : cycle_input) :
  alarm_attitude (startup_policy s i) = alarm_attitude s.
Proof.
  unfold startup_policy. destruct (select_gain_branch s i); reflexivity.
Qed.

Lemma startup_policy_frame (s : state) (i : cycle_input) :
  q (startup_policy s i) = q s /\
  gyro_correct_int (startup_policy s i) = gyro_correct_int s /\
  attitudeRaw_obj (startup_policy s i) = attitudeRaw_obj s /\
  attitudeActual_obj (startup_policy s i) = attitudeActual_obj s.
Proof.
  unfold startup_policy. destruct (select_gain_branch s i); repeat split.
Qed.

(** C1, as stated, fails: with the alarm clear, a gyro sample queued and the
    accelerometer FIFO empty, [updateSensors] returns -1 and the pass of the
    task loop leaves the Attitude alarm at Error. *)
Lemma accel_empty_alarm_counterexample :
  PIOS_ADXL345_FifoElements (@nil pios_adxl345_data) = 0 /\
  us_ret (updateSensors initial_state [] (Some neutral_gyro) zero_raw) = -1 /\
  alarm_attitude
    (fst (AttitudeTask_cycle (ML := RefLibm.lib) initial_state []
            (input_at 8000 (Some neutral_gyro))))
  <> alarm_attitude initial_state.
Proof.
  split; [reflexivity|]. split; [reflexivity|].
  vm_compute. discriminate.
Qed.

(** C1, amended.  When a gyro sample was received and the accelerometer FIFO
    is empty, [updateSensors] returns -1 and itself leaves the alarm as it
    found it; [AttitudeTask] then sets the Attitude alarm to Error, as for any
    failed acquisition.  Fusion is skipped: the quaternion, the gyro bias and
    the two published objects keep their values, and the driver is not
    read. *)
Theorem accel_empty_sets_error {ML : MathLib} {D : Type} `{Adxl345 D}
        (s : state) (dev : D) (i : cycle_input) (g : gyro_sample) :
  in_gyro_rx i = Some g ->
  PIOS_ADXL345_FifoElements dev = 0 ->
  (forall (s0 : state) (raw : AttitudeRawData),
      us_ret (updateSensors s0 dev (Some g) raw) = -1 /\
      us_raw (updateSensors s0 dev (Some g) raw) = raw /\
      us_state (updateSensors s0 dev (Some g) raw) = s0) /\
  alarm_attitude (fst (AttitudeTask_cycle s dev i)) = SYSTEMALARMS_ALARM_ERROR /\
  q (fst (AttitudeTask_cycle s dev i)) = q s /\
  gyro_correct_int (fst (AttitudeTask_cycle s dev i)) = gyro_correct_int s /\
  attitudeRaw_obj (fst (AttitudeTask_cycle s dev i)) = attitudeRaw_obj s /\
  attitudeActual_obj (fst (AttitudeTask_cycle s dev i)) = attitudeActual_obj s /\
  snd (AttitudeTask_cycle s dev i) = dev.
Proof.
  intros Hrx Hfifo.
  assert (Hus : forall (s0 : state) (raw : AttitudeRawData),
             updateSensors s0 dev (Some g) raw = (-1, raw, s0, dev)).
  { intros s0 raw. unfold updateSensors. rewrite Hfifo. reflexivity. }
  split.
  { intros s0 raw. rewrite Hus. repeat split. }
  unfold AttitudeTask_cycle. rewrite Hrx, Hus. cbn [negb Z.eqb fst snd].
  destruct (startup_policy_frame s i) as (Hq & Hb & Hr & Ha).
  repeat split; cbn; assumption.
Qed.

Lemma accel_empty_sets_error_witness :
  in_gyro_rx (input_at 8000 (Some neutral_gyro)) = Some neutral_gyro /\
  PIOS_ADXL345_FifoElements (@nil pios_adxl345_data) = 0 /\
  alarm_attitude
    (fst (AttitudeTask_cycle (ML := RefLibm.lib) initial_state []
            (input_at 8000 (Some neutral_gyro))))
  = SYSTEMALARMS_ALARM_ERROR.
Proof.
  split; [reflexivity|]. split; [reflexivity|].
  apply (accel_empty_sets_error (ML := RefLibm.lib) initial_state []
           (input_at 8000 (Some neutral_gyro)) neutral_gyro);
    reflexivity.
Defined.

(** ** The startup window (C3) *)

(** C3, as stated, fails at both ends of the closed interval: at tick 1000
    and at tick 7000 the forced-gain branch is not taken, and at tick 1000
    (with [init] still 0) the gains are those of the settings object, not the
    startup gains. *)
Lemma startup_window_endpoints_counterexample :
  (1000 <= 1000 <= 7000 /\
   select_gain_branch initial_state (input_at 1000 None) <> BranchStartup /\
   accelKp (startup_policy initial_state (input_at 1000 None)) <> startup_kp) /\
  (1000 <= 7000 <= 7000 /\
   select_gain_branch initial_state (input_at 7000 None) <> BranchStartup /\
   accelKp (startup_policy initial_state (input_at 7000 None)) <> startup_kp).
Proof.
  repeat split; try lia; vm_compute; discriminate.
Qed.

(** C3, amended.  With the tick count at [t], the task takes the forced-gain
    branch exactly when [1000 < t < 7000] (both bounds strict).  Inside the
    window it sets [accelKp = 1], [accelKi = 0.9], [yawBiasRate = 0.23] and
    [init = 0]; outside it, with the arming condition false, the gains are
    not forced: they are reloaded from the settings when [init] is 0 and left
    alone otherwise. *)
Theorem startup_window_open (s : state) (t armed tc : Z) (ki kp yaw : float32)
        (rx : option gyro_sample) :
  (select_gain_branch s (mkInput armed t t tc ki kp yaw rx) = BranchStartup
   <-> 1000 < t < 7000) /\
  (1000 < t < 7000 ->
   accelKp (startup_policy s (mkInput armed t t tc ki kp yaw rx)) = startup_kp /\
   accelKi (startup_policy s (mkInput armed t t tc ki kp yaw rx)) = startup_ki /\
   yawBiasRate (startup_policy s (mkInput armed t t tc ki kp yaw rx))
   = startup_yaw_bias_rate /\
   init (startup_policy s (mkInput armed t t tc ki kp yaw rx)) = 0) /\
  (~ (1000 < t < 7000) ->
   arming_condition s armed = false ->
   select_gain_branch s (mkInput armed t t tc ki kp yaw rx) <> BranchArming /\
   startup_policy s (mkInput armed t t tc ki kp yaw rx)
   = if init s =? 0 then set_gains s kp ki yaw 1 else s).
Proof.
  assert (Hw : in_startup_window t t = true <-> 1000 < t < 7000).
  { unfold in_startup_window. rewrite andb_true_iff, Z.ltb_lt, Z.gtb_ltb, Z.ltb_lt.
    lia. }
  unfold startup_policy, select_gain_branch. cbn [in_tick_a in_tick_b in_armed].
  destruct (in_startup_window t t) eqn:Hin.
  - assert (Ht : 1000 < t < 7000) by (apply Hw; reflexivity).
    split; [tauto|]. split; [intros _; repeat split|]. tauto.
  - assert (Ht : ~ (1000 < t < 7000)).
    { intros Hc. apply Hw in Hc. discriminate. }
    split.
    + split; [|tauto].
      destruct (arming_condition s armed); [discriminate|].
      destruct (init s =? 0); discriminate.
    + split; [tauto|]. intros _ Harm. rewrite Harm.
      cbn [in_settings_AccelKp in_settings_AccelKi in_settings_YawBiasRate].
      destruct (init s =? 0); split; try discriminate; reflexivity.
Qed.

(** ** What each stage writes (C7) and the order of conditioning (C9) *)

Section SensorFacts.
Context {D : Type} `{Adxl345 D}.

(** The successful path of [updateSensors], unfolded once. *)
Lemma updateSensors_success (s : state) (dev : D) (g : gyro_sample)
      (raw : AttitudeRawData) :
  (PIOS_ADXL345_FifoElements dev =? 0) = false ->
  updateSensors s dev (Some g) raw
  = (0,
     mkRaw
       (scale_accels s
          (fst (apply_rotation s (accel_average (drain dev))
                               (gyros_from_counts (gyroGain s) g))))
       (correct_gyros s
          (snd (apply_rotation s (accel_average (drain dev))
                               (gyros_from_counts (gyroGain s) g))))
       (F32.of_Z (dr_remaining (drain dev))) (F32.of_Z (dr_i (drain dev))),
     yaw_bias_update s
       (v2 (correct_gyros s
              (snd (apply_rotation s (accel_average (drain dev))
                                   (gyros_from_counts (gyroGain s) g))))),
     dr_dev (drain dev)).
Proof.
  intros Hne. unfold updateSensors. rewrite Hne.
  destruct (apply_rotation s (accel_average (drain dev))
                           (gyros_from_counts (gyroGain s) g)) as [a2 g2].
  reflexivity.
Qed.

(** A call that returns 0 received a gyro sample and found the FIFO
    non-empty. *)
Lemma updateSensors_ret_zero (s : state) (dev : D) (rx : option gyro_sample)
      (raw : AttitudeRawData) :
  us_ret (updateSensors s dev rx raw) = 0 ->
  exists g, rx = Some g /\ (PIOS_ADXL345_FifoElements dev =? 0) = false.
Proof.
  unfold updateSensors. destruct rx as [g|]; [|discriminate].
  destruct (PIOS_ADXL345_FifoElements dev =? 0) eqn:Hf; [discriminate|].
  intros _. exists g. split; reflexivity.
Qed.
End SensorFacts.

(** C7.  A successful [updateSensors] writes [gyro_correct_int[2]] (the yaw
    bias pull of line 294) and leaves [q], [gyro_correct_int[0]],
    [gyro_correct_int[1]], [R] and [rotate] as they were; [updateAttitude]
    adds [accel_err[k] * accelKi] to [gyro_correct_int[0]] and
    [gyro_correct_int[1]] and does not write [gyro_correct_int[2]]. *)
Theorem gyro_bias_partition {ML : MathLib} {D : Type} `{Adxl345 D}
        (s : state) (dev : D) (rx : option gyro_sample) (raw : AttitudeRawData)
        (s2 : state) (t : Z) (raw2 : AttitudeRawData) :
  us_ret (updateSensors s dev rx raw) = 0 ->
  (q (us_state (updateSensors s dev rx raw)) = q s /\
   v0 (gyro_correct_int (us_state (updateSensors s dev rx raw)))
   = v0 (gyro_correct_int s) /\
   v1 (gyro_correct_int (us_state (updateSensors s dev rx raw)))
   = v1 (gyro_correct_int s) /\
   R (us_state (updateSensors s dev rx raw)) = R s /\
   rotate (us_state (updateSensors s dev rx raw)) = rotate s /\
   v2 (gyro_correct_int (us_state (updateSensors s dev rx raw)))
   = F32.add (v2 (gyro_correct_int s))
             (F32.mul (F32.neg (v2 (gyros (us_raw (updateSensors s dev rx raw)))))
                      (yawBiasRate s))) /\
  (v0 (gyro_correct_int (updateAttitude s2 t raw2))
   = F32.add (v0 (gyro_correct_int s2))
             (F32.mul (v0 (accel_err_of (q s2) (accels raw2))) (accelKi s2)) /\
   v1 (gyro_correct_int (updateAttitude s2 t raw2))
   = F32.add (v1 (gyro_correct_int s2))
             (F32.mul (v1 (accel_err_of (q s2) (accels raw2))) (accelKi s2)) /\
   v2 (gyro_correct_int (updateAttitude s2 t raw2)) = v2 (gyro_correct_int s2)).
Proof.
  intros Hret.
  destruct (updateSensors_ret_zero s dev rx raw Hret) as (g & -> & Hne).
  rewrite (updateSensors_success s dev g raw Hne).
  split; repeat split.
Qed.

Lemma gyro_bias_partition_witness :
  us_ret (updateSensors initial_state one_sample (Some neutral_gyro) zero_raw) = 0 /\
  q (us_state (updateSensors initial_state one_sample (Some neutral_gyro) zero_raw))
  = q initial_state /\
  v2 (gyro_correct_int
        (updateAttitude (ML := RefLibm.lib) initial_state 5 zero_raw))
  = v2 (gyro_correct_int initial_state).
Proof.
  split; [reflexivity|].
  pose proof (gyro_bias_partition (ML := RefLibm.lib) initial_state one_sample
                (Some neutral_gyro) zero_raw initial_state 5 zero_raw
                eq_refl) as Hp.
  split; [apply Hp|apply Hp].
Defined.

(** C9, as stated, fails: on a board rotated a quarter turn about Z with an
    accelerometer bias of 10 counts on X, the accelerations [updateSensors]
    publishes differ (on X) from those obtained by subtracting the bias and
    scaling before the rotation. *)
Lemma conditioning_order_counterexample :
  us_ret (updateSensors rotated_state one_sample (Some neutral_gyro) zero_raw) = 0 /\
  F32.eqb
    (v0 (accels (us_raw (updateSensors rotated_state one_sample
                           (Some neutral_gyro) zero_raw))))
    (v0 (condition_accels_bias_then_rotate rotated_state
           (accel_average (drain one_sample))))
  = false /\
  accels (us_raw (updateSensors rotated_state one_sample (Some neutral_gyro) zero_raw))
  <> condition_accels_bias_then_rotate rotated_state
       (accel_average (drain one_sample)).
Proof.
  split; [reflexivity|]. split; [vm_compute; reflexivity|].
  vm_compute. discriminate.
Qed.

(** C9, amended.  On the successful path the board rotation [R] is applied
    first, to the averaged raw accelerometer counts and to the gyro rates;
    the accelerometer bias is subtracted and the value scaled to m/s^2 after
    the rotation, and the gyro-bias correction is added after the rotation.
    Without rotation the same two steps act on the unrotated vectors. *)
Theorem conditioning_order {D : Type} `{Adxl345 D}
        (s : state) (dev : D) (g : gyro_sample) (raw : AttitudeRawData) :
  (PIOS_ADXL345_FifoElements dev =? 0) = false ->
  (rotate s <> 0 ->
   accels (us_raw (updateSensors s dev (Some g) raw))
   = scale_accels s (rot_mult (R s) (accel_average (drain dev))) /\
   gyros (us_raw (updateSensors s dev (Some g) raw))
   = correct_gyros s (rot_mult (R s) (gyros_from_counts (gyroGain s) g))) /\
  (rotate s = 0 ->
   accels (us_raw (updateSensors s dev (Some g) raw))
   = scale_accels s (accel_average (drain dev)) /\
   gyros (us_raw (updateSensors s dev (Some g) raw))
   = correct_gyros s (gyros_from_counts (gyroGain s) g)).
Proof.
  intros Hne. rewrite (updateSensors_success s dev g raw Hne).
  unfold us_raw, apply_rotation. cbn [fst snd accels gyros].
  split; intros Hr.
  - apply Z.eqb_neq in Hr. rewrite Hr. split; reflexivity.
  - rewrite Hr. split; reflexivity.
Qed.

Lemma conditioning_order_witness :
  (PIOS_ADXL345_FifoElements one_sample =? 0) = false /\
  (rotate rotated_state <> 0 ->
   accels (us_raw (updateSensors rotated_state one_sample (Some neutral_gyro) zero_raw))
   = scale_accels rotated_state
       (rot_mult (R rotated_state) (accel_average (drain one_sample))) /\
   gyros (us_raw (updateSensors rotated_state one_sample (Some neutral_gyro) zero_raw))
   = correct_gyros rotated_state
       (rot_mult (R rotated_state)
          (gyros_from_counts (gyroGain rotated_state) neutral_gyro))).
Proof.
  split; [reflexivity|].
  apply (conditioning_order rotated_state one_sample neutral_gyro zero_raw).
  reflexivity.
Defined.

(** ** Linear-acceleration rejection (C2, C4) *)

(** [==] against a finite constant holds only for that very number. *)
Lemma SFeqb_finite_eq (x : spec_float) (s : bool) (m : positive) (e : Z) :
  SFeqb x (S754_finite s m e) = true -> x = S754_finite s m e.
Proof.
  unfold SFeqb. destruct x as [sx|sx| |sx mx ex]; simpl.
  - destruct s; discriminate.
  - destruct sx; discriminate.
  - discriminate.
  - destruct sx, s; try discriminate.
    + destruct (ex ?= e) eqn:He; try discriminate.
      destruct (Pos.compare_cont Eq mx m) eqn:Hm; try discriminate.
      intros _. apply Z.compare_eq in He. apply Pos.compare_eq in Hm.
      subst. reflexivity.
    + destruct (ex ?= e) eqn:He; try discriminate.
      destruct (Pos.compare_cont Eq mx m) eqn:Hm; try discriminate.
      intros _. apply Z.compare_eq in He. apply Pos.compare_eq in Hm.
      subst. reflexivity.
Qed.

Lemma SFeqb_zero_not_gt (x : spec_float) :
  SFeqb x F32.zero = true -> gtb x F32.zero = false.
Proof.
  destruct x as [sx|sx| |sx mx ex]; simpl; try discriminate.
  - reflexivity.
  - destruct sx; discriminate.
  - destruct sx; discriminate.
Qed.

(** The rejection test of lines 350-369 on any acceleration and any error
    vector. *)
Lemma reject_linear_accel_cases {ML : MathLib} (accels err : vec3) :
  (F32.leb (vec3_mag accels) f_9_8 = true \/
   gtb (vec3_mag accels) (F32.mul f_1_5 f_9_8) = true ->
   reject_linear_accel accels err = mkVec3 F32.zero F32.zero F32.zero) /\
  (F32.eqb (vec3_mag accels) f_9_8 = true ->
   reject_linear_accel accels err = mkVec3 F32.zero F32.zero F32.zero) /\
  (F32.leb (vec3_mag accels) f_9_8 = false ->
   gtb (vec3_mag accels) (F32.mul f_1_5 f_9_8) = false ->
   (gtb (vec3_mag err) F32.zero = true ->
    reject_linear_accel accels err
    = mkVec3
        (F32.sub (v0 err)
           (F32.div (F32.mul (v0 err) (acosf (F32.div f_9_8 (vec3_mag accels))))
                    (vec3_mag err)))
        (F32.sub (v1 err)
           (F32.div (F32.mul (v1 err) (acosf (F32.div f_9_8 (vec3_mag accels))))
                    (vec3_mag err)))
        (F32.sub (v2 err)
           (F32.div (F32.mul (v2 err) (acosf (F32.div f_9_8 (vec3_mag accels))))
                    (vec3_mag err)))) /\
   (F32.eqb (vec3_mag err) F32.zero = true ->
    reject_linear_accel accels err = err) /\
   (gtb (vec3_mag err) F32.zero = false ->
    reject_linear_accel accels err = err)).
Proof.
  unfold reject_linear_accel.
  split; [|split].
  - intros [Hle|Hgt].
    + rewrite Hle. reflexivity.
    + rewrite Hgt, orb_true_r. reflexivity.
  - intros Heq. apply SFeqb_finite_eq in Heq. rewrite Heq. reflexivity.
  - intros Hle Hgt. rewrite Hle, Hgt. cbn [orb].
    split; [|split].
    + intros Hlen. rewrite Hlen. reflexivity.
    + intros Hz. rewrite (SFeqb_zero_not_gt _ Hz). reflexivity.
    + intros Hlen. rewrite Hlen. reflexivity.
Qed.

(** What [updateAttitude] does with the error vector of line 369: it is
    the one added, scaled by [accelKi], to the first two components of the
    bias integral (lines 372-373), and the one added, scaled by
    [accelKp / dT], to the three rates the quaternion is propagated with
    (lines 378-380). *)
Lemma updateAttitude_uses_accel_err {ML : MathLib} (s : state) (thisSysTime : Z)
      (attitudeRaw : AttitudeRawData) :
  gyro_correct_int (updateAttitude s thisSysTime attitudeRaw)
  = mkVec3
      (F32.add (v0 (gyro_correct_int s))
               (F32.mul (v0 (accel_err_of (q s) (accels attitudeRaw))) (accelKi s)))
      (F32.add (v1 (gyro_correct_int s))
               (F32.mul (v1 (accel_err_of (q s) (accels attitudeRaw))) (accelKi s)))
      (v2 (gyro_correct_int s)) /\
  q (updateAttitude s thisSysTime attitudeRaw)
  = renormalize
      (propagate (q s)
         (correct_rates (accelKp s) (compute_dT thisSysTime (lastSysTime s))
            (gyros attitudeRaw) (accel_err_of (q s) (accels attitudeRaw)))
         (compute_dT thisSysTime (lastSysTime s))).
Proof. split; reflexivity. Qed.

(** C4.  The linear-acceleration rejection inside [updateAttitude], for
    every state and every sample.  With [a_mag] the magnitude of the
    accelerations and [err] the error vector of line 335: when
    [a_mag <= 9.8f] (equality included) or [a_mag > 1.5f * 9.8f], the error
    vector the step goes on with is zero on its three components; otherwise
    each component is [err - err * acosf(9.8f / a_mag) / length] when the
    length of [err] is positive, and [err] itself when that length is zero
    (more generally, whenever the length is not greater than zero).  That
    vector is the one [updateAttitude] integrates into the bias
    (lines 372-373) and feeds back into the rates the quaternion is
    propagated with (lines 378-380). *)
Theorem linear_accel_rejection {ML : MathLib} (s : state) (thisSysTime : Z)
        (attitudeRaw : AttitudeRawData) :
  (F32.leb (vec3_mag (accels attitudeRaw)) f_9_8 = true \/
   gtb (vec3_mag (accels attitudeRaw)) (F32.mul f_1_5 f_9_8) = true ->
   accel_err_of (q s) (accels attitudeRaw) = mkVec3 F32.zero F32.zero F32.zero /\
   gyro_correct_int (updateAttitude s thisSysTime attitudeRaw)
   = mkVec3
       (F32.add (v0 (gyro_correct_int s)) (F32.mul F32.zero (accelKi s)))
       (F32.add (v1 (gyro_correct_int s)) (F32.mul F32.zero (accelKi s)))
       (v2 (gyro_correct_int s)) /\
   q (updateAttitude s thisSysTime attitudeRaw)
   = renormalize
       (propagate (q s)
          (correct_rates (accelKp s) (compute_dT thisSysTime (lastSysTime s))
             (gyros attitudeRaw) (mkVec3 F32.zero F32.zero F32.zero))
          (compute_dT thisSysTime (lastSysTime s)))) /\
  (F32.eqb (vec3_mag (accels attitudeRaw)) f_9_8 = true ->
   accel_err_of (q s) (accels attitudeRaw) = mkVec3 F32.zero F32.zero F32.zero) /\
  (F32.leb (vec3_mag (accels attitudeRaw)) f_9_8 = false ->
   gtb (vec3_mag (accels attitudeRaw)) (F32.mul f_1_5 f_9_8) = false ->
   (gtb (vec3_mag (stretched_err s attitudeRaw)) F32.zero = true ->
    accel_err_of (q s) (accels attitudeRaw)
    = mkVec3
        (F32.sub (v0 (stretched_err s attitudeRaw))
           (F32.div
              (F32.mul (v0 (stretched_err s attitudeRaw))
                 (acosf (F32.div f_9_8 (vec3_mag (accels attitudeRaw)))))
              (vec3_mag (stretched_err s attitudeRaw))))
        (F32.sub (v1 (stretched_err s attitudeRaw))
           (F32.div
              (F32.mul (v1 (stretched_err s attitudeRaw))
                 (acosf (F32.div f_9_8 (vec3_mag (accels attitudeRaw)))))
              (vec3_mag (stretched_err s attitudeRaw))))
        (F32.sub (v2 (stretched_err s attitudeRaw))
           (F32.div
              (F32.mul (v2 (stretched_err s attitudeRaw))
                 (acosf (F32.div f_9_8 (vec3_mag (accels attitudeRaw)))))
              (vec3_mag (stretched_err s attitudeRaw))))) /\
   (F32.eqb (vec3_mag (stretched_err s attitudeRaw)) F32.zero = true ->
    accel_err_of (q s) (accels attitudeRaw) = stretched_err s attitudeRaw) /\
   (gtb (vec3_mag (stretched_err s attitudeRaw)) F32.zero = false ->
    accel_err_of (q s) (accels attitudeRaw) = stretched_err s attitudeRaw /\
    gyro_correct_int (updateAttitude s thisSysTime attitudeRaw)
    = mkVec3
        (F32.add (v0 (gyro_correct_int s))
                 (F32.mul (v0 (stretched_err s attitudeRaw)) (accelKi s)))
        (F32.add (v1 (gyro_correct_int s))
                 (F32.mul (v1 (stretched_err s attitudeRaw)) (accelKi s)))
        (v2 (gyro_correct_int s)))) /\
  gyro_correct_int (updateAttitude s thisSysTime attitudeRaw)
  = mkVec3
      (F32.add (v0 (gyro_correct_int s))
               (F32.mul (v0 (accel_err_of (q s) (accels attitudeRaw))) (accelKi s)))
      (F32.add (v1 (gyro_correct_int s))
               (F32.mul (v1 (accel_err_of (q s) (accels attitudeRaw))) (accelKi s)))
      (v2 (gyro_correct_int s)) /\
  q (updateAttitude s thisSysTime attitudeRaw)
  = renormalize
      (propagate (q s)
         (correct_rates (accelKp s) (compute_dT thisSysTime (lastSysTime s))
            (gyros attitudeRaw) (accel_err_of (q s) (accels attitudeRaw)))
         (compute_dT thisSysTime (lastSysTime s))).
Proof.
  assert (He : accel_err_of (q s) (accels attitudeRaw)
               = reject_linear_accel (accels attitudeRaw)
                   (stretched_err s attitudeRaw)).
  { unfold accel_err_of, stretched_err. reflexivity. }
  destruct (reject_linear_accel_cases (accels attitudeRaw)
              (stretched_err s attitudeRaw)) as (Hzero & Heq & Helse).
  destruct (updateAttitude_uses_accel_err s thisSysTime attitudeRaw)
    as [Hbias Hq].
  split; [|split; [|split; [|split]]].
  - intros Hout. rewrite Hbias, Hq, He, (Hzero Hout). repeat split.
  - intros Hnine. rewrite He. exact (Heq Hnine).
  - intros Hle Hgt. destruct (Helse Hle Hgt) as (Hshrink & Hskip0 & Hskip).
    split; [|split].
    + intros Hlen. rewrite He. exact (Hshrink Hlen).
    + intros Hlen. rewrite He. exact (Hskip0 Hlen).
    + intros Hlen. rewrite Hbias, He, (Hskip Hlen). split; reflexivity.
  - exact Hbias.
  - exact Hq.
Qed.

(** C2, as stated, fails: with the quaternion at the identity and an
    acceleration along Y of magnitude exactly [1.5f * 9.8f], the error vector
    after the rejection test is not zero (its X component is about -0.73). *)
Lemma boundary_upper_counterexample :
  F32.eqb (vec3_mag boundary_accels) (F32.mul f_1_5 f_9_8) = true /\
  F32.eqb (v0 (accel_err_of (ML := RefLibm.lib) quat_identity boundary_accels))
          F32.zero = false /\
  accel_err_of (ML := RefLibm.lib) quat_identity boundary_accels
  <> mkVec3 F32.zero F32.zero F32.zero.
Proof.
  split; [vm_compute; reflexivity|]. split; [vm_compute; reflexivity|].
  vm_compute. discriminate.
Qed.

(** C2, amended.  When [a_mag] equals [1.5f * 9.8f] exactly, the test
    [a_mag > 1.5f * 9.8f] is false and so is [a_mag <= 9.8f]: the error vector
    is not zeroed but goes through the attenuation branch, shrunk by
    [err -= err * acosf(9.8f / a_mag) / length] when its length is positive
    and left as it is otherwise. *)
Theorem boundary_upper_attenuated {ML : MathLib} (accels err : vec3) :
  F32.eqb (vec3_mag accels) (F32.mul f_1_5 f_9_8) = true ->
  F32.leb (vec3_mag accels) f_9_8 = false /\
  gtb (vec3_mag accels) (F32.mul f_1_5 f_9_8) = false /\
  reject_linear_accel accels err
  = if gtb (vec3_mag err) F32.zero
    then shrink err (acosf (F32.div f_9_8 (vec3_mag accels))) (vec3_mag err)
    else err.
Proof.
  intros Heq.
  assert (Hm : vec3_mag accels = F32.mul f_1_5 f_9_8).
  { apply (SFeqb_finite_eq _ false 15414068 (-20)). exact Heq. }
  unfold reject_linear_accel. rewrite Hm.
  split; [reflexivity|]. split; reflexivity.
Qed.

Lemma boundary_upper_attenuated_witness :
  F32.eqb (vec3_mag boundary_accels) (F32.mul f_1_5 f_9_8) = true /\
  F32.leb (vec3_mag boundary_accels) f_9_8 = false /\
  gtb (vec3_mag boundary_accels) (F32.mul f_1_5 f_9_8) = false.
Proof.
  split; [vm_compute; reflexivity|].
  pose proof (boundary_upper_attenuated (ML := RefLibm.lib) boundary_accels
                vec3_zero) as Hb.
  split; apply Hb; vm_compute; reflexivity.
Defined.

(** ** The yaw-bias feedback (C6) *)

Section SignSymmetry.
Variables prec emax : Z.

(** Rounding to nearest-even does not look at the sign. *)
Lemma binary_round_aux_opp (s : bool) (m e : Z) (l : location) :
  binary_round_aux prec emax (negb s) m e l
  = SFopp (binary_round_aux prec emax s m e l).
Proof.
  unfold binary_round_aux.
  destruct (shr_fexp prec emax m e l) as [mrs' e'].
  destruct (shr_fexp prec emax _ e' loc_Exact) as [mrs'' e''].
  destruct (shr_m mrs''); try reflexivity.
  destruct (e'' <=? emax - prec); reflexivity.
Qed.

Lemma SFmul_opp_l (x y : spec_float) :
  SFmul prec emax (SFopp x) y = SFopp (SFmul prec emax x y).
Proof.
  destruct x as [sx|sx| |sx mx ex], y as [sy|sy| |sy my ey];
    try reflexivity;
    try (destruct sx, sy; reflexivity).
  cbn [SFmul SFopp].
  rewrite <- binary_round_aux_opp.
  destruct sx, sy; reflexivity.
Qed.

Lemma SFadd_opp_r (x y : spec_float) :
  SFadd prec emax x (SFopp y) = SFsub prec emax x y.
Proof.
  destruct x as [sx|sx| |sx mx ex], y as [sy|sy| |sy my ey];
    try reflexivity;
    destruct sx, sy; reflexivity.
Qed.
End SignSymmetry.

(** [a + (-x) * r] is the same [float] as [a - x * r]. *)
Lemma add_neg_mul (a x r : float32) :
  F32.add a (F32.mul (F32.neg x) r) = F32.sub a (F32.mul x r).
Proof.
  unfold F32.add, F32.mul, F32.sub, F32.neg.
  rewrite SFmul_opp_l. apply SFadd_opp_r.
Qed.

(** C6.  With [bias_correct_gyro] true, the Z gyro rate that the yaw-bias
    update reads is the one to which [gyro_correct_int[2]] has just been
    added: writing [gz_raw] for the Z rate after the count conversion and the
    optional rotation, the published rate is [gz_raw + gyro_correct_int[2]]
    and the new [gyro_correct_int[2]] is
    [gyro_correct_int[2] - (gz_raw + gyro_correct_int[2]) * yawBiasRate]. *)
Theorem yaw_bias_feedback {D : Type} `{Adxl345 D}
        (s : state) (dev : D) (g : gyro_sample) (raw : AttitudeRawData) :
  bias_correct_gyro s = true ->
  (PIOS_ADXL345_FifoElements dev =? 0) = false ->
  v2 (gyros (us_raw (updateSensors s dev (Some g) raw)))
  = F32.add
      (v2 (snd (apply_rotation s (accel_average (drain dev))
                               (gyros_from_counts (gyroGain s) g))))
      (v2 (gyro_correct_int s)) /\
  v2 (gyro_correct_int (us_state (updateSensors s dev (Some g) raw)))
  = F32.sub (v2 (gyro_correct_int s))
      (F32.mul
         (F32.add
            (v2 (snd (apply_rotation s (accel_average (drain dev))
                                     (gyros_from_counts (gyroGain s) g))))
            (v2 (gyro_correct_int s)))
         (yawBiasRate s)) /\
  (rotate s = 0 ->
   v2 (snd (apply_rotation s (accel_average (drain dev))
                           (gyros_from_counts (gyroGain s) g)))
   = F32.mul (F32.neg (F32.sub (gyro_z g) (F32.of_Z GYRO_NEUTRAL))) (gyroGain s)).
Proof.
  intros Hbc Hne.
  rewrite (updateSensors_success s dev g raw Hne).
  unfold us_raw, us_state, yaw_bias_update, correct_gyros.
  rewrite Hbc. cbn [fst snd gyros gyro_correct_int set_gyro_correct_int v2].
  split; [reflexivity|]. split.
  - apply add_neg_mul.
  - intros Hr. unfold apply_rotation. rewrite Hr. reflexivity.
Qed.

Lemma yaw_bias_feedback_witness :
  bias_correct_gyro initial_state = true /\
  (PIOS_ADXL345_FifoElements one_sample =? 0) = false /\
  v2 (gyro_correct_int
        (us_state (updateSensors initial_state one_sample (Some neutral_gyro)
                                 zero_raw)))
  = F32.sub (v2 (gyro_correct_int initial_state))
      (F32.mul
         (F32.add
            (v2 (snd (apply_rotation initial_state
                        (accel_average (drain one_sample))
                        (gyros_from_counts (gyroGain initial_state) neutral_gyro))))
            (v2 (gyro_correct_int initial_state)))
         (yawBiasRate initial_state)).
Proof.
  split; [reflexivity|]. split; [reflexivity|].
  apply (yaw_bias_feedback initial_state one_sample neutral_gyro zero_raw);
    reflexivity.
Defined.

(** ** The time step (C8) *)

Lemma of_Z_normal (n : Z) :
  1 <= n < 4294967296 ->
  exists (m : positive) (e : Z),
    F32.of_Z n = S754_finite false m e /\
    Zpos (digits2_pos m) = 24 /\ -23 <= e <= 9.
Proof.
  intros Hn. destruct n as [|p|p]; try lia.
  pose proof (digits2_pos_bounds p) as [Blo Bhi].
  assert (Hd : Zpos (digits2_pos p) - 1 < 32).
  { apply (Z.pow_lt_mono_r_iff 2); [lia|lia|].
    change (2 ^ 32) with 4294967296. lia. }
  unfold F32.of_Z, binary_normalize.
  destruct (binary_round_normal F32.prec F32.emax eq_refl false p 0)
    as (m & e & Hr & Hdm & He).
  - unfold emin, F32.prec, F32.emax. lia.
  - unfold F32.prec, F32.emax. lia.
  - exists m, e. unfold F32.prec in He, Hdm. repeat split; try assumption; lia.
Qed.

Lemma to_double_normal (s : bool) (m : positive) (e : Z) :
  Zpos (digits2_pos m) = 24 -> -1000 <= e <= 900 ->
  exists (m' : positive) (e' : Z),
    to_double (S754_finite s m e) = S754_finite s m' e' /\
    Zpos (digits2_pos m') = 53 /\ e - 29 <= e' <= e - 28.
Proof.
  intros Hd He. unfold to_double, binary_normalize.
  assert (Hr : exists (m' : positive) (e' : Z),
             binary_round F64.prec F64.emax s m e = S754_finite s m' e' /\
             Zpos (digits2_pos m') = 53 /\ e - 29 <= e' <= e - 28).
  { destruct (binary_round_normal F64.prec F64.emax eq_refl s m e)
      as (m' & e' & Hr & Hdm & He').
    - unfold emin, F64.prec, F64.emax. lia.
    - unfold F64.prec, F64.emax. lia.
    - exists m', e'. unfold F64.prec in He', Hdm. repeat split; try assumption; lia. }
  destruct s; exact Hr.
Qed.

Lemma to_float_normal (s : bool) (m : positive) (e : Z) :
  Zpos (digits2_pos m) = 53 -> -170 <= e <= 70 ->
  exists (m' : positive) (e' : Z),
    to_float (S754_finite s m e) = S754_finite s m' e' /\
    Zpos (digits2_pos m') = 24 /\ e + 29 <= e' <= e + 30.
Proof.
  intros Hd He. unfold to_float, binary_normalize.
  assert (Hr : exists (m' : positive) (e' : Z),
             binary_round F32.prec F32.emax s m e = S754_finite s m' e' /\
             Zpos (digits2_pos m') = 24 /\ e + 29 <= e' <= e + 30).
  { destruct (binary_round_normal F32.prec F32.emax eq_refl s m e)
      as (m' & e' & Hr & Hdm & He').
    - unfold emin, F32.prec, F32.emax. lia.
    - unfold F32.prec, F32.emax. lia.
    - exists m', e'. unfold F32.prec in He', Hdm. repeat split; try assumption; lia. }
  destruct s; exact Hr.
Qed.

(** A tick difference between 1 and 2^32 - 1 gives a positive finite [dT]. *)
Lemma tick_quotient_positive (n : Z) :
  1 <= n < 4294967296 ->
  exists (m : positive) (e : Z),
    to_float (to_double (F32.div (F32.of_Z n) f_1000)) = S754_finite false m e.
Proof.
  intros Hn.
  destruct (of_Z_normal n Hn) as (m & e & Hx & Hd & He).
  rewrite Hx.
  change f_1000 with (S754_finite false 16384000 (-14)).
  destruct (SFdiv_normal F32.prec F32.emax eq_refl false false m 16384000 e (-14))
    as (m1 & e1 & Hq & Hd1 & He1); try assumption; try reflexivity.
  - unfold emin, F32.prec, F32.emax. lia.
  - unfold F32.prec, F32.emax. lia.
  - unfold F32.div. rewrite Hq. cbn [xorb].
    unfold F32.prec in He1, Hd1.
    destruct (to_double_normal false m1 e1 Hd1) as (m2 & e2 & H2 & Hd2 & He2); [lia|].
    rewrite H2.
    destruct (to_float_normal false m2 e2 Hd2) as (m3 & e3 & H3 & _ & _); [lia|].
    rewrite H3. exists m3, e3. reflexivity.
Qed.

Lemma tick_difference_range (thisSysTime lastSysTime : Z) :
  0 <= thisSysTime < 4294967296 ->
  0 <= lastSysTime < 4294967296 ->
  thisSysTime <> lastSysTime ->
  1 <= Z.land portMAX_DELAY (wrap_u32 (thisSysTime - lastSysTime)) / portTICK_RATE_MS
    < 4294967296.
Proof.
  intros Ht Hl Hne.
  unfold portTICK_RATE_MS. rewrite Z.div_1_r.
  change portMAX_DELAY with (Z.ones 32).
  rewrite Z.land_comm, Z.land_ones by lia.
  change (2 ^ 32) with 4294967296. unfold wrap_u32.
  rewrite Z.mod_mod by lia.
  assert (Hm : 0 <= (thisSysTime - lastSysTime) mod 4294967296 < 4294967296)
    by (apply Z.mod_pos_bound; lia).
  assert (Hnz : (thisSysTime - lastSysTime) mod 4294967296 <> 0).
  { intros Hz. apply Z.mod_divide in Hz; [|lia].
    destruct Hz as [k Hk]. nia. }
  lia.
Qed.

(** C8.  For tick counts of the 32-bit counter, the time step [dT] of
    [updateAttitude] is a finite number strictly greater than zero: it is
    [0.001] rounded to [float] when the tick has not advanced, and the
    (wrapped) tick difference divided by [1000.0f] otherwise.  This [dT] is
    the divisor of the rate correction of lines 378-380, which therefore
    never divides by zero. *)
Theorem dT_positive {ML : MathLib} (s : state) (thisSysTime : Z)
        (raw : AttitudeRawData) :
  0 <= thisSysTime < 4294967296 ->
  0 <= lastSysTime s < 4294967296 ->
  (thisSysTime = lastSysTime s ->
   compute_dT thisSysTime (lastSysTime s) = to_float d_0_001) /\
  (exists (m : positive) (e : Z),
      compute_dT thisSysTime (lastSysTime s) = S754_finite false m e) /\
  gtb (compute_dT thisSysTime (lastSysTime s)) F32.zero = true /\
  F32.eqb (compute_dT thisSysTime (lastSysTime s)) F32.zero = false /\
  q (updateAttitude s thisSysTime raw)
  = renormalize
      (propagate (q s)
         (correct_rates (accelKp s) (compute_dT thisSysTime (lastSysTime s))
            (gyros raw) (accel_err_of (q s) (accels raw)))
         (compute_dT thisSysTime (lastSysTime s))).
Proof.
  intros Ht Hl.
  assert (Hfin : exists (m : positive) (e : Z),
             compute_dT thisSysTime (lastSysTime s) = S754_finite false m e).
  { unfold compute_dT.
    destruct (thisSysTime =? lastSysTime s) eqn:Heq.
    - exists 8589935%positive, (-33). vm_compute. reflexivity.
    - apply Z.eqb_neq in Heq.
      apply tick_quotient_positive.
      apply tick_difference_range; assumption. }
  split.
  { intros Heq. unfold compute_dT.
    replace (thisSysTime =? lastSysTime s) with true
      by (symmetry; apply Z.eqb_eq; assumption).
    reflexivity. }
  split; [exact Hfin|].
  destruct Hfin as (m & e & Hdt).
  split; [rewrite Hdt; reflexivity|].
  split; [rewrite Hdt; reflexivity|].
  reflexivity.
Qed.

Lemma dT_positive_witness :
  0 <= 5 < 4294967296 /\
  0 <= lastSysTime initial_state < 4294967296 /\
  gtb (compute_dT 5 (lastSysTime initial_state)) F32.zero = true.
Proof.
  split; [lia|]. split; [cbn; lia|].
  apply (dT_positive (ML := RefLibm.lib) initial_state 5 zero_raw); cbn; lia.
Defined.

(** ** Renormalisation (C5) *)

(** The guard of lines 415-420 resets the quaternion exactly when the norm
    is below 1e-3 or NaN; otherwise the quotient by the norm is kept. *)
Lemma renormalize_cases (q' : quat) :
  (needs_reinit (quat_mag q') = true -> renormalize q' = quat_identity) /\
  (needs_reinit (quat_mag q') = false ->
   renormalize q'
   = mkQuat (F32.div (q0 q') (quat_mag q')) (F32.div (q1 q') (quat_mag q'))
            (F32.div (q2 q') (quat_mag q')) (F32.div (q3 q') (quat_mag q'))).
Proof.
  unfold renormalize. split; intros Hg; rewrite Hg; reflexivity.
Qed.

(** ** The guard and the renormalisation *)

Lemma SFsqrt_class (prec emax : Z) (x : spec_float) :
  0 < prec -> sqrt_class (SFsqrt prec emax x).
Proof.
  intros Hprec. unfold sqrt_class.
  destruct x as [s|s| |s m e]; cbn [SFsqrt].
  - right. right. left. exists s. reflexivity.
  - destruct s; [left|right; left]; reflexivity.
  - left. reflexivity.
  - destruct s; [left; reflexivity|].
    unfold SFsqrt_core_binary.
    match goal with
    | |- context [Z.sqrtrem ?a] =>
        pose proof (Z.sqrtrem_spec a) as Hsq; destruct (Z.sqrtrem a) as [qq rr]
    end.
    match type of Hsq with
    | 0 <= ?a -> _ => assert (Ha : 0 <= a)
    end.
    { destruct (Z.sub _ _) as [|p|p]; try lia.
      rewrite Z.shiftl_mul_pow2 by lia.
      pose proof (Z.pow_pos_nonneg 2 (Zpos p)). nia. }
    specialize (Hsq Ha).
    assert (Hq0 : 0 <= qq) by nia.
    destruct (binary_round_aux_class prec emax Hprec false qq
                (Z.min (fexp prec emax (Z.div2 (Zdigits2 (Zpos m) + e + 1))) (Z.div2 e))
                (if rr =? 0 then loc_Exact
                 else loc_Inexact (if rr <=? qq then Lt else Gt)) Hq0)
      as [Hr|[Hr|(m' & e' & Hr)]]; rewrite Hr.
    + right. right. left. exists false. reflexivity.
    + right. left. reflexivity.
    + right. right. right. exists m', e'. reflexivity.
Qed.

Lemma sqrt_to_float_class (x : float32) : sqrt_class (sqrt_to_float x).
Proof.
  unfold sqrt_to_float.
  destruct (SFsqrt_class F64.prec F64.emax (to_double x) eq_refl)
    as [Hr|[Hr|[(s & Hr)|(m & e & Hr)]]]; unfold F64.sqrt; rewrite Hr; cbn [to_float].
  - left. reflexivity.
  - right. left. reflexivity.
  - right. right. left. exists s. reflexivity.
  - cbn [cond_Zopp binary_normalize]. unfold binary_round.
    destruct (shl_align m e _) as [mz ez].
    destruct (binary_round_aux_class F32.prec F32.emax eq_refl false (Zpos mz) ez
                loc_Exact ltac:(lia)) as [Hr'|[Hr'|(m' & e' & Hr')]]; rewrite Hr'.
    + right. right. left. exists false. reflexivity.
    + right. left. reflexivity.
    + right. right. right. exists m', e'. reflexivity.
Qed.

(** A finite result of [to_float] has a mantissa and an exponent within the
    binary32 range. *)
Lemma to_float_bounded (x : float64) (s : bool) (m : positive) (e : Z) :
  to_float x = S754_finite s m e ->
  Zpos m < 2 ^ 24 /\ -149 <= e <= 104.
Proof.
  destruct x as [sx|sx| |sx mx ex]; cbn [to_float]; try discriminate.
  intros Heq.
  assert (Hb : binary_round F32.prec F32.emax sx mx ex = S754_finite s m e).
  { destruct sx; exact Heq. }
  apply (binary_round_bounded F32.prec F32.emax eq_refl) in Hb.
  unfold emin, F32.prec, F32.emax in Hb. lia.
Qed.

(** When the guard of line 415 does not fire on a norm that has not
    overflowed, the norm is a positive finite number of at least 0.000999. *)
Lemma guard_passed (qmag : float32) :
  sqrt_class qmag ->
  (exists x : float64, qmag = to_float x) ->
  qmag <> S754_infinity false ->
  needs_reinit qmag = false ->
  exists (m : positive) (e : Z),
    qmag = S754_finite false m e /\ (999 / 1000000 <= B2R qmag)%R.
Proof.
  intros Hc [x Hx] Hinf Hre.
  unfold needs_reinit in Hre. apply orb_false_elim in Hre. destruct Hre as [Hlt Hnan].
  destruct Hc as [Hq|[Hq|[(s & Hq)|(m & e & Hq)]]].
  - rewrite Hq in Hnan. discriminate.
  - contradiction.
  - rewrite Hq in Hlt. discriminate.
  - exists m, e. split; [exact Hq|].
    rewrite Hq in Hx. symmetry in Hx.
    destruct (to_float_bounded x false m e Hx) as [Hm He].
    pose proof (digits2_pos_bounds m) as [Dlo Dhi].
    assert (Hd : Zpos (digits2_pos m) - 1 < 24).
    { apply (Z.pow_lt_mono_r_iff 2); lia. }
    (* the promoted norm *)
    assert (Hdbl : exists (m' : positive) (e' : Z),
               to_double qmag = S754_finite false m' e' /\
               Zpos (digits2_pos m') = 53).
    { rewrite Hq. cbn [to_double cond_Zopp binary_normalize].
      destruct (binary_round_normal F64.prec F64.emax eq_refl false m e)
        as (m' & e' & Hr & Hd' & _).
      - unfold emin, F64.prec, F64.emax. lia.
      - unfold F64.prec, F64.emax. lia.
      - exists m', e'. split; assumption. }
    destruct Hdbl as (m' & e' & Hdbl & Hd').
    assert (Hfd : is_finite (to_double qmag) = true) by (rewrite Hdbl; reflexivity).
    destruct (to_double_error qmag Hfd) as [_ Herr].
    rewrite Hdbl in Hlt, Herr. cbn [F64.abs SFabs] in Hlt.
    change d_0_001 with (S754_finite false 4611686018427388 (-62)) in Hlt.
    apply (SFltb_false_le F64.prec) in Hlt; [|reflexivity|exact Hd'|reflexivity].
    rewrite (B2R_finite false 4611686018427388 (-62)) in Hlt.
    pose proof (pw_neg_inv 62 ltac:(lia)) as Hp62.
    change (pw (-62) = (/ 4611686018427387904)%R) in Hp62.
    rewrite Hp62 in Hlt. unfold sgn in Hlt.
    assert (Hpos : (0 < B2R qmag)%R).
    { rewrite Hq, B2R_finite. unfold sgn. rewrite Rmult_1_l.
      apply Rmult_lt_0_compat; [apply IZR_lt; lia|apply pw_pos]. }
    rewrite (Rabs_pos_eq (B2R qmag)) in Herr by lra.
    apply abs_err_split in Herr. unfold rel64, tiny in Herr. lra.
Qed.

Lemma ratio_le_two (a A Q : real) :
  (0 < Q)%R -> (a * a <= A)%R -> (A * (1 - 1 / 100000) <= Q * Q)%R ->
  (Rabs (a / Q) <= 2)%R.
Proof.
  intros HQ Ha HA.
  set (y := (a / Q)%R).
  assert (Hy : (y * Q = a)%R) by (unfold y; field; lra).
  assert (Hyy : (y * y * (Q * Q) <= Q * Q * (100002 / 100000))%R).
  { replace (y * y * (Q * Q))%R with (a * a)%R by (rewrite <- Hy; ring). nra. }
  assert (HQQ : (0 < Q * Q)%R) by nra.
  assert (Hy2 : (y * y <= 100002 / 100000)%R) by nra.
  apply Rabs_le. split; nra.
Qed.

(** The sign of a quotient by a positive number. *)
Lemma div_by_positive_nonneg (x : float32) (my : positive) (ey : Z) :
  is_finite x = true ->
  F32.ltb x F32.zero = false ->
  F32.leb F32.zero (F32.div x (S754_finite false my ey)) = true.
Proof.
  intros Hx Hlt.
  destruct x as [sx|sx| |sx mx ex]; try discriminate.
  - destruct sx; reflexivity.
  - destruct sx; [discriminate|].
    unfold F32.div. cbn [SFdiv xorb]. unfold SFdiv_core_binary.
    match goal with
    | |- context [Z.div_eucl ?a ?b] =>
        pose proof (Z_div_mod a b ltac:(lia)) as Hdm;
        assert (Ha : 0 <= a);
        [|destruct (Z.div_eucl a b) as [qq rr]]
    end.
    { destruct (Z.sub _ _) as [|p|p]; try lia.
      rewrite Z.shiftl_mul_pow2 by lia.
      pose proof (Z.pow_pos_nonneg 2 (Zpos p)). nia. }
    assert (Hq0 : 0 <= qq) by nia.
    match goal with
    | |- F32.leb _ (binary_round_aux _ _ _ _ ?e ?l) = true =>
        destruct (binary_round_aux_class F32.prec F32.emax eq_refl false qq e l Hq0)
          as [Hr|[Hr|(m' & e' & Hr)]]; rewrite Hr; reflexivity
    end.
Qed.

Lemma neg_of_negative (x : float32) :
  F32.ltb x (F32.of_Z 0) = true -> F32.ltb (F32.neg x) F32.zero = false.
Proof.
  destruct x as [s|s| |s m e]; try destruct s; compute; intros H;
    try discriminate H; reflexivity.
Qed.

(** After the hemisphere fix of lines 398-403, [q[0] < 0] is false. *)
Lemma propagate_q0 (qq : quat) (gyro : vec3) (dT : float32) :
  F32.ltb (q0 (propagate qq gyro dT)) F32.zero = false.
Proof.
  unfold propagate. cbv zeta.
  generalize (time_step qq gyro dT). intros qa.
  match goal with
  | |- context [if F32.ltb ?x (F32.of_Z 0) then _ else _] =>
      destruct (F32.ltb x (F32.of_Z 0)) eqn:Hlt; cbn [q0]
  end.
  - apply neg_of_negative. exact Hlt.
  - exact Hlt.
Qed.

Lemma quat_identity_norm : quat_norm quat_identity = 1%R.
Proof.
  unfold quat_norm, quat_identity.
  change (F32.of_Z 1) with (S754_finite false 8388608 (-23)).
  change (F32.of_Z 0) with (S754_zero false).
  cbn [q0 q1 q2 q3]. rewrite B2R_finite. cbn [B2R]. unfold sgn.
  pose proof (pw_neg_inv 23 ltac:(lia)) as H.
  change (pw (-23) = (/ 8388608)%R) in H. rewrite H.
  replace (1 * (8388608 * / 8388608) * (1 * (8388608 * / 8388608)) + 0 * 0 + 0 * 0 + 0 * 0)%R
    with 1%R by field.
  apply sqrt_1.
Qed.

(** The renormalisation of lines 407-420 on a quaternion whose norm did not
    overflow. *)
Lemma renormalize_unit (q' : quat) :
  quat_mag q' <> S754_infinity false ->
  F32.ltb (q0 q') F32.zero = false ->
  quat_finite (renormalize q') = true /\
  (999 / 1000 <= quat_norm (renormalize q') <= 1001 / 1000)%R /\
  F32.leb F32.zero (q0 (renormalize q')) = true.
Proof.
  intros Hinf Hq0.
  destruct (renormalize_cases q') as [Hre1 Hre2].
  destruct (needs_reinit (quat_mag q')) eqn:Hre.
  - rewrite (Hre1 eq_refl). split; [reflexivity|].
    rewrite quat_identity_norm. split; [lra|reflexivity].
  - rewrite (Hre2 eq_refl). clear Hre1 Hre2.
    destruct (guard_passed (quat_mag q') (sqrt_to_float_class _)
                ltac:(eexists; reflexivity) Hinf Hre) as (mq & eq & Hqm & HQlo).
    set (a0 := B2R (q0 q')). set (a1 := B2R (q1 q')).
    set (a2 := B2R (q2 q')). set (a3 := B2R (q3 q')).
    (* every intermediate value is finite, with its rounding error *)
    assert (Hfin : is_finite (quat_mag q') = true) by (rewrite Hqm; reflexivity).
    unfold quat_mag, sqrt_to_float in Hfin, HQlo.
    destruct (to_float_error _ Hfin) as [Hf1 E1].
    destruct (F64_sqrt_error _ Hf1) as (Hf2 & HD0 & E2).
    destruct (to_double_error _ Hf2) as [Hf3 E3].
    destruct (F32_add_error _ _ Hf3) as (Hf4 & Hp3 & E4).
    destruct (F32_add_error _ _ Hf4) as (Hf5 & Hp2 & E5).
    destruct (F32_add_error _ _ Hf5) as (Hp0 & Hp1 & E6).
    destruct (F32_mul_error _ _ Hp0) as (Ha0 & _ & M0).
    destruct (F32_mul_error _ _ Hp1) as (Ha1 & _ & M1).
    destruct (F32_mul_error _ _ Hp2) as (Ha2 & _ & M2).
    destruct (F32_mul_error _ _ Hp3) as (Ha3 & _ & M3).
    fold a0 in M0. fold a1 in M1. fold a2 in M2. fold a3 in M3.
    pose proof (sum_of_squares_chain (a0 * a0) (a1 * a1) (a2 * a2) (a3 * a3) _ _ _ _ _ _ _
                  ltac:(nra) ltac:(nra) ltac:(nra) ltac:(nra) M0 M1 M2 M3 E6 E5 E4) as HS.
    match type of E2 with
    | (Rabs (_ - sqrt ?d) <= _)%R => set (D := d) in *
    end.
    pose proof (norm_chain (a0 * a0 + a1 * a1 + a2 * a2 + a3 * a3) _ D (sqrt D) _ _
                  ltac:(nra) HS E3 HD0 (sqrt_pos D) (sqrt_sqrt D HD0) E2 E1 HQlo)
      as [HA HQ2].
    fold (sqrt_to_float
            (F32.add (F32.add (F32.add (F32.mul (q0 q') (q0 q')) (F32.mul (q1 q') (q1 q')))
                              (F32.mul (q2 q') (q2 q'))) (F32.mul (q3 q') (q3 q')))) in HQlo, HQ2.
    fold (quat_mag q') in HQlo, HQ2.
    set (Q := B2R (quat_mag q')) in *.
    assert (HQ0 : (0 < Q)%R) by lra.
    (* the four quotients *)
    assert (Hdiv : forall x : float32,
               is_finite x = true ->
               (B2R x * B2R x <= a0 * a0 + a1 * a1 + a2 * a2 + a3 * a3)%R ->
               is_finite (F32.div x (quat_mag q')) = true /\
               (Rabs (B2R (F32.div x (quat_mag q')) - B2R x / Q)
                <= rel32 * Rabs (B2R x / Q) + tiny)%R).
    { intros x Hx Hxa. unfold Q. rewrite Hqm.
      assert (Hf : is_finite (F32.div x (S754_finite false mq eq)) = true).
      { apply (SFdiv_finite F32.prec F32.emax eq_refl x false mq eq 1 Hx).
        - rewrite <- Hqm. fold Q.
          replace (pw 1) with 2%R by (unfold pw; simpl; lra).
          apply (ratio_le_two _ _ _ HQ0 Hxa). lra.
        - unfold emin, F32.prec, F32.emax. lia.
        - unfold emin, F32.prec, F32.emax. lia. }
      split; [exact Hf|].
      apply relax32. apply SFdiv_error; [reflexivity|exact Hx|exact Hf]. }
    destruct (Hdiv (q0 q') Ha0) as [F0 D0]; [fold a0; nra|].
    destruct (Hdiv (q1 q') Ha1) as [F1 D1]; [fold a1; nra|].
    destruct (Hdiv (q2 q') Ha2) as [F2 D2]; [fold a2; nra|].
    destruct (Hdiv (q3 q') Ha3) as [F3 D3]; [fold a3; nra|].
    fold a0 in D0. fold a1 in D1. fold a2 in D2. fold a3 in D3.
    split.
    { unfold quat_finite. cbn [q0 q1 q2 q3]. rewrite F0, F1, F2, F3. reflexivity. }
    split.
    + unfold quat_norm. cbn [q0 q1 q2 q3].
      apply sqrt_between; try lra.
      apply (normalised_components a0 a1 a2 a3 (a0 / Q) (a1 / Q) (a2 / Q) (a3 / Q)
               _ _ _ _ Q HQ0 HA HQ2);
        try (field; lra); assumption.
    + cbn [q0]. rewrite Hqm. apply div_by_positive_nonneg; assumption.
Qed.

(** ** The unit-norm invariant (C5) *)

Lemma quat_zero_norm : quat_norm quat_zero = 0%R.
Proof.
  unfold quat_norm, quat_zero. cbn [q0 q1 q2 q3 B2R F32.zero].
  replace (0 * 0 + 0 * 0 + 0 * 0 + 0 * 0)%R with 0%R by ring.
  apply sqrt_0.
Qed.

(** C5, as stated, fails: with a gyro gain of 1e30 and a gyro sample one
    count below neutral on X, a pass of the task loop completes (the alarm is
    cleared) with the norm of line 407 overflowed to +infinity; the guard of
    line 415 does not fire and the stored quaternion is (0, 0, 0, 0), of
    norm 0. *)
Lemma unit_norm_overflow_counterexample :
  is_pos_inf
    (updateAttitude_qmag (ML := RefLibm.lib)
       (us_state
          (updateSensors
             (PIOS_WDG_UpdateFlag
                (startup_policy overflow_state (input_at 8000 (Some low_x_gyro))))
             one_sample (Some low_x_gyro) zero_raw))
       8000
       (us_raw
          (updateSensors
             (PIOS_WDG_UpdateFlag
                (startup_policy overflow_state (input_at 8000 (Some low_x_gyro))))
             one_sample (Some low_x_gyro) zero_raw)))
  = true /\
  alarm_attitude
    (fst (AttitudeTask_cycle (ML := RefLibm.lib) overflow_state one_sample
            (input_at 8000 (Some low_x_gyro))))
  = SYSTEMALARMS_ALARM_OK /\
  q (fst (AttitudeTask_cycle (ML := RefLibm.lib) overflow_state one_sample
            (input_at 8000 (Some low_x_gyro))))
  = quat_zero /\
  ~ (999 / 1000
     <= quat_norm
          (q (fst (AttitudeTask_cycle (ML := RefLibm.lib) overflow_state one_sample
                     (input_at 8000 (Some low_x_gyro)))))
     <= 1001 / 1000)%R.
Proof.
  assert (Hq : q (fst (AttitudeTask_cycle (ML := RefLibm.lib) overflow_state one_sample
                         (input_at 8000 (Some low_x_gyro))))
               = quat_zero) by (vm_compute; reflexivity).
  split; [vm_compute; reflexivity|].
  split; [vm_compute; reflexivity|].
  split; [exact Hq|].
  rewrite Hq, quat_zero_norm. lra.
Qed.

(** The stored quaternion is the renormalised propagated one, and it is the
    one published in AttitudeActual. *)
Lemma updateAttitude_q {ML : MathLib} (s : state) (thisSysTime : Z)
      (attitudeRaw : AttitudeRawData) :
  q (updateAttitude s thisSysTime attitudeRaw)
  = renormalize (propagated_q s thisSysTime attitudeRaw).
Proof. reflexivity. Qed.

Lemma updateAttitude_qmag_eq {ML : MathLib} (s : state) (thisSysTime : Z)
      (attitudeRaw : AttitudeRawData) :
  updateAttitude_qmag s thisSysTime attitudeRaw
  = quat_mag (propagated_q s thisSysTime attitudeRaw).
Proof. reflexivity. Qed.

Lemma attitudeActual_obj_set (s : state) (a : AttitudeActualData) :
  attitudeActual_obj (AttitudeActualSet s a) = a.
Proof. reflexivity. Qed.

Lemma q_AttitudeActualSet (s : state) (a : AttitudeActualData) :
  q (AttitudeActualSet s a) = q s.
Proof. reflexivity. Qed.

Lemma q_set_q (s : state) (q' : quat) : q (set_q s q') = q'.
Proof. reflexivity. Qed.

Lemma updateAttitude_published {ML : MathLib} (s : state) (thisSysTime : Z)
      (attitudeRaw : AttitudeRawData) :
  actual_q (attitudeActual_obj (updateAttitude s thisSysTime attitudeRaw))
  = q (updateAttitude s thisSysTime attitudeRaw).
Proof.
  unfold updateAttitude.
  rewrite attitudeActual_obj_set, q_AttitudeActualSet, q_set_q.
  reflexivity.
Qed.

(** The hemisphere fix of lines 398-403: the four components are negated
    together when [q[0] < 0], and kept otherwise. *)
Lemma propagate_cases (qq : quat) (gyro : vec3) (dT : float32) :
  (F32.ltb (q0 (time_step qq gyro dT)) (F32.of_Z 0) = true ->
   propagate qq gyro dT
   = mkQuat (F32.neg (q0 (time_step qq gyro dT)))
            (F32.neg (q1 (time_step qq gyro dT)))
            (F32.neg (q2 (time_step qq gyro dT)))
            (F32.neg (q3 (time_step qq gyro dT)))) /\
  (F32.ltb (q0 (time_step qq gyro dT)) (F32.of_Z 0) = false ->
   propagate qq gyro dT = time_step qq gyro dT).
Proof.
  unfold propagate. cbv zeta.
  split; intros Hlt; rewrite Hlt; reflexivity.
Qed.

(** The guard of line 415 fires when [qmag] is below 1e-3 and when it is
    NaN. *)
Lemma needs_reinit_intro (qmag : float32) :
  F64.ltb (F64.abs (to_double qmag)) d_0_001 = true \/ qmag = S754_nan ->
  needs_reinit qmag = true.
Proof.
  unfold needs_reinit. intros [Hshort | Hnan].
  - rewrite Hshort. reflexivity.
  - rewrite Hnan. reflexivity.
Qed.

(** C5, amended.  After every completed [updateAttitude] step whose norm
    [qmag] of line 407 has not overflowed to +infinity, the stored quaternion
    has four finite components, satisfies [0.999 <= ||q|| <= 1.001] and
    [q[0] >= 0].  When the time step of lines 393-396 leaves [q[0] < 0], the
    step negates all four components before normalising, and it keeps them
    otherwise, so that [q[0] < 0] is false at line 407; it then divides the
    four components by [qmag], and resets [q] to the identity whenever
    [qmag] is below 1e-3 or NaN; the published quaternion is the stored
    one. *)
Theorem updateAttitude_unit_quaternion {ML : MathLib} (s : state)
        (thisSysTime : Z) (attitudeRaw : AttitudeRawData) :
  is_pos_inf (updateAttitude_qmag s thisSysTime attitudeRaw) = false ->
  quat_finite (q (updateAttitude s thisSysTime attitudeRaw)) = true /\
  (999 / 1000 <= quat_norm (q (updateAttitude s thisSysTime attitudeRaw))
   <= 1001 / 1000)%R /\
  F32.leb (F32.of_Z 0) (q0 (q (updateAttitude s thisSysTime attitudeRaw))) = true /\
  q (updateAttitude s thisSysTime attitudeRaw)
  = renormalize (propagated_q s thisSysTime attitudeRaw) /\
  F32.ltb (q0 (propagated_q s thisSysTime attitudeRaw)) (F32.of_Z 0) = false /\
  (F32.ltb (q0 (stepped_q s thisSysTime attitudeRaw)) (F32.of_Z 0) = true ->
   propagated_q s thisSysTime attitudeRaw
   = mkQuat (F32.neg (q0 (stepped_q s thisSysTime attitudeRaw)))
            (F32.neg (q1 (stepped_q s thisSysTime attitudeRaw)))
            (F32.neg (q2 (stepped_q s thisSysTime attitudeRaw)))
            (F32.neg (q3 (stepped_q s thisSysTime attitudeRaw)))) /\
  (F32.ltb (q0 (stepped_q s thisSysTime attitudeRaw)) (F32.of_Z 0) = false ->
   propagated_q s thisSysTime attitudeRaw
   = stepped_q s thisSysTime attitudeRaw) /\
  (needs_reinit (updateAttitude_qmag s thisSysTime attitudeRaw) = true ->
   q (updateAttitude s thisSysTime attitudeRaw) = quat_identity) /\
  (F64.ltb (F64.abs (to_double (updateAttitude_qmag s thisSysTime attitudeRaw)))
           d_0_001 = true \/
   updateAttitude_qmag s thisSysTime attitudeRaw = S754_nan ->
   q (updateAttitude s thisSysTime attitudeRaw) = quat_identity) /\
  (needs_reinit (updateAttitude_qmag s thisSysTime attitudeRaw) = false ->
   q (updateAttitude s thisSysTime attitudeRaw)
   = mkQuat
       (F32.div (q0 (propagated_q s thisSysTime attitudeRaw))
                (updateAttitude_qmag s thisSysTime attitudeRaw))
       (F32.div (q1 (propagated_q s thisSysTime attitudeRaw))
                (updateAttitude_qmag s thisSysTime attitudeRaw))
       (F32.div (q2 (propagated_q s thisSysTime attitudeRaw))
                (updateAttitude_qmag s thisSysTime attitudeRaw))
       (F32.div (q3 (propagated_q s thisSysTime attitudeRaw))
                (updateAttitude_qmag s thisSysTime attitudeRaw))) /\
  actual_q (attitudeActual_obj (updateAttitude s thisSysTime attitudeRaw))
  = q (updateAttitude s thisSysTime attitudeRaw).
Proof.
  intros Hinf.
  assert (Hne : quat_mag (propagated_q s thisSysTime attitudeRaw)
                <> S754_infinity false).
  { intros Heq. rewrite updateAttitude_qmag_eq, Heq in Hinf.
    discriminate Hinf. }
  assert (Hq0 : F32.ltb (q0 (propagated_q s thisSysTime attitudeRaw)) F32.zero
                = false) by apply propagate_q0.
  destruct (renormalize_unit _ Hne Hq0) as (Hfin & Hnorm & Hpos).
  destruct (renormalize_cases (propagated_q s thisSysTime attitudeRaw))
    as [Hre1 Hre2].
  assert (Hhemi :
            (F32.ltb (q0 (stepped_q s thisSysTime attitudeRaw)) (F32.of_Z 0) = true ->
             propagated_q s thisSysTime attitudeRaw
             = mkQuat (F32.neg (q0 (stepped_q s thisSysTime attitudeRaw)))
                      (F32.neg (q1 (stepped_q s thisSysTime attitudeRaw)))
                      (F32.neg (q2 (stepped_q s thisSysTime attitudeRaw)))
                      (F32.neg (q3 (stepped_q s thisSysTime attitudeRaw)))) /\
            (F32.ltb (q0 (stepped_q s thisSysTime attitudeRaw)) (F32.of_Z 0) = false ->
             propagated_q s thisSysTime attitudeRaw
             = stepped_q s thisSysTime attitudeRaw)).
  { unfold propagated_q, stepped_q. cbv zeta. apply propagate_cases. }
  destruct Hhemi as [Hneg Hkeep].
  rewrite updateAttitude_published, updateAttitude_q.
  rewrite !updateAttitude_qmag_eq.
  split; [exact Hfin|]. split; [exact Hnorm|]. split; [exact Hpos|].
  split; [reflexivity|]. split; [exact Hq0|].
  split; [exact Hneg|]. split; [exact Hkeep|].
  split; [exact Hre1|].
  split; [intros Hguard; apply Hre1, needs_reinit_intro; exact Hguard|].
  split; [exact Hre2|]. reflexivity.
Qed.

Lemma updateAttitude_unit_quaternion_witness :
  is_pos_inf (updateAttitude_qmag (ML := RefLibm.lib) inverted_state 5 rolling_raw)
  = false /\
  F32.ltb (q0 (stepped_q (ML := RefLibm.lib) inverted_state 5 rolling_raw))
          (F32.of_Z 0) = true /\
  propagated_q (ML := RefLibm.lib) inverted_state 5 rolling_raw
  = mkQuat
      (F32.neg (q0 (stepped_q (ML := RefLibm.lib) inverted_state 5 rolling_raw)))
      (F32.neg (q1 (stepped_q (ML := RefLibm.lib) inverted_state 5 rolling_raw)))
      (F32.neg (q2 (stepped_q (ML := RefLibm.lib) inverted_state 5 rolling_raw)))
      (F32.neg (q3 (stepped_q (ML := RefLibm.lib) inverted_state 5 rolling_raw))) /\
  quat_finite (q (updateAttitude (ML := RefLibm.lib) inverted_state 5 rolling_raw))
  = true /\
  (999 / 1000
   <= quat_norm (q (updateAttitude (ML := RefLibm.lib) inverted_state 5 rolling_raw))
   <= 1001 / 1000)%R.
Proof.
  assert (Hinf : is_pos_inf
                   (updateAttitude_qmag (ML := RefLibm.lib) inverted_state 5
                      rolling_raw)
                 = false) by (vm_compute; reflexivity).
  assert (Hlt : F32.ltb
                  (q0 (stepped_q (ML := RefLibm.lib) inverted_state 5 rolling_raw))
                  (F32.of_Z 0) = true) by (vm_compute; reflexivity).
  split; [exact Hinf|]. split; [exact Hlt|].
  pose proof (updateAttitude_unit_quaternion (ML := RefLibm.lib) inverted_state 5
                rolling_raw Hinf) as Hu.
  split; [apply Hu; exact Hlt|].
  split; apply Hu.
Defined.

(** * Further properties of the module *)

(** ** What a pass of the main loop leaves alone *)

(** [updateAttitude] writes the bias integral, the quaternion, the tick of
    the last step and the AttitudeActual object, nothing else. *)
Lemma updateAttitude_frame {ML : MathLib} (s : state) (t : Z)
      (raw : AttitudeRawData) :
  accelKi (updateAttitude s t raw) = accelKi s /\
  accelKp (updateAttitude s t raw) = accelKp s /\
  yawBiasRate (updateAttitude s t raw) = yawBiasRate s /\
  gyroGain (updateAttitude s t raw) = gyroGain s /\
  accelbias (updateAttitude s t raw) = accelbias s /\
  R (updateAttitude s t raw) = R s /\
  rotate (updateAttitude s t raw) = rotate s /\
  zero_during_arming (updateAttitude s t raw) = zero_during_arming s /\
  bias_correct_gyro (updateAttitude s t raw) = bias_correct_gyro s /\
  init (updateAttitude s t raw) = init s /\
  alarm_attitude (updateAttitude s t raw) = alarm_attitude s /\
  wdg_updates (updateAttitude s t raw) = wdg_updates s /\
  attitudeRaw_obj (updateAttitude s t raw) = attitudeRaw_obj s /\
  lastSysTime (updateAttitude s t raw) = t.
Proof. repeat split. Qed.

Section PassFacts.
Context {ML : MathLib} {D : Type} `{Adxl345 D}.

(** The three ways [updateSensors] can end. *)
Lemma updateSensors_cases (s : state) (dev : D) (rx : option gyro_sample)
      (raw : AttitudeRawData) :
  (rx = None /\
   updateSensors s dev rx raw
   = (-1, raw, AlarmsSet s SYSTEMALARMS_ALARM_ERROR, dev)) \/
  (rx <> None /\ PIOS_ADXL345_FifoElements dev = 0 /\
   updateSensors s dev rx raw = (-1, raw, s, dev)) \/
  (rx <> None /\ PIOS_ADXL345_FifoElements dev <> 0 /\
   exists (raw' : AttitudeRawData),
     updateSensors s dev rx raw
     = (0, raw', yaw_bias_update s (v2 (gyros raw')), dr_dev (drain dev))).
Proof.
  destruct rx as [g|].
  - right. destruct (PIOS_ADXL345_FifoElements dev =? 0) eqn:Hf.
    + left. apply Z.eqb_eq in Hf. split; [discriminate|]. split; [exact Hf|].
      unfold updateSensors. rewrite Hf. reflexivity.
    + right. split; [discriminate|]. split; [apply Z.eqb_neq; exact Hf|].
      exists (us_raw (updateSensors s dev (Some g) raw)).
      rewrite (updateSensors_success s dev g raw Hf). reflexivity.
  - left. split; reflexivity.
Qed.

(** What a pass does in each of the three cases. *)
Lemma AttitudeTask_cycle_cases (s : state) (dev : D) (i : cycle_input) :
  let s2 := PIOS_WDG_UpdateFlag (startup_policy s i) in
  ((in_gyro_rx i = None \/ PIOS_ADXL345_FifoElements dev = 0) /\
   AttitudeTask_cycle s dev i = (AlarmsSet s2 SYSTEMALARMS_ALARM_ERROR, dev)) \/
  (in_gyro_rx i <> None /\ PIOS_ADXL345_FifoElements dev <> 0 /\
   exists (raw' : AttitudeRawData),
     us_raw (updateSensors s2 dev (in_gyro_rx i) (attitudeRaw_obj s2)) = raw' /\
     AttitudeTask_cycle s dev i
     = (AlarmsClear
          (AttitudeRawSet
             (updateAttitude (yaw_bias_update s2 (v2 (gyros raw')))
                             (in_tick_c i) raw') raw'),
        dr_dev (drain dev))).
Proof.
  intros s2. unfold AttitudeTask_cycle. fold s2.
  destruct (updateSensors_cases s2 dev (in_gyro_rx i) (attitudeRaw_obj s2))
    as [(Hrx & Hus) | [(Hrx & Hf & Hus) | (Hrx & Hf & raw' & Hus)]];
    rewrite Hus; cbn [negb Z.eqb fst snd us_raw].
  - left. split; [left; exact Hrx|]. reflexivity.
  - left. split; [right; exact Hf|]. reflexivity.
  - right. split; [exact Hrx|]. split; [exact Hf|]. exists raw'.
    split; reflexivity.
Qed.
End PassFacts.

(** The gain policy of lines 185-203 writes the three gains and [init]
    only. *)
Lemma startup_policy_rest (s : state) (i : cycle_input) :
  wdg_updates (startup_policy s i) = wdg_updates s /\
  lastSysTime (startup_policy s i) = lastSysTime s /\
  bias_correct_gyro (startup_policy s i) = bias_correct_gyro s /\
  gyroGain (startup_policy s i) = gyroGain s /\
  R (startup_policy s i) = R s /\
  rotate (startup_policy s i) = rotate s /\
  accelbias (startup_policy s i) = accelbias s.
Proof.
  unfold startup_policy. destruct (select_gain_branch s i); repeat split.
Qed.

(** What the end of a successful pass (lines 214-215) leaves of the state
    [updateAttitude] returned. *)
Lemma pass_epilogue_frame (u : state) (raw' : AttitudeRawData) :
  wdg_updates (AlarmsClear (AttitudeRawSet u raw')) = wdg_updates u /\
  q (AlarmsClear (AttitudeRawSet u raw')) = q u /\
  gyro_correct_int (AlarmsClear (AttitudeRawSet u raw')) = gyro_correct_int u /\
  lastSysTime (AlarmsClear (AttitudeRawSet u raw')) = lastSysTime u /\
  attitudeActual_obj (AlarmsClear (AttitudeRawSet u raw')) = attitudeActual_obj u /\
  bias_correct_gyro (AlarmsClear (AttitudeRawSet u raw')) = bias_correct_gyro u /\
  accelKp (AlarmsClear (AttitudeRawSet u raw')) = accelKp u /\
  accelKi (AlarmsClear (AttitudeRawSet u raw')) = accelKi u /\
  yawBiasRate (AlarmsClear (AttitudeRawSet u raw')) = yawBiasRate u /\
  gyroGain (AlarmsClear (AttitudeRawSet u raw')) = gyroGain u /\
  init (AlarmsClear (AttitudeRawSet u raw')) = init u /\
  attitudeRaw_obj (AlarmsClear (AttitudeRawSet u raw')) = raw'.
Proof. repeat split. Qed.

Lemma pass_epilogue_flags (u : state) (raw' : AttitudeRawData) :
  zero_during_arming (AlarmsClear (AttitudeRawSet u raw')) = zero_during_arming u.
Proof. reflexivity. Qed.

Section LoopFacts.
Context {ML : MathLib} {D : Type} `{Adxl345 D}.

Lemma acquired_false (i : cycle_input) (dev : D) :
  in_gyro_rx i = None \/ PIOS_ADXL345_FifoElements dev = 0 ->
  acquired i dev = false.
Proof.
  unfold acquired. intros [Hrx | Hf].
  - rewrite Hrx. reflexivity.
  - rewrite Hf. destruct (in_gyro_rx i); reflexivity.
Qed.

Lemma acquired_true (i : cycle_input) (dev : D) :
  in_gyro_rx i <> None -> PIOS_ADXL345_FifoElements dev <> 0 ->
  acquired i dev = true.
Proof.
  unfold acquired. intros Hrx Hf.
  destruct (in_gyro_rx i); [|congruence].
  apply Z.eqb_neq in Hf. rewrite Hf. reflexivity.
Qed.

Lemma AttitudeTask_loop_app (p1 p2 : list (cycle_input * D)) :
  forall s : state,
    AttitudeTask_loop (p1 ++ p2) s = AttitudeTask_loop p2 (AttitudeTask_loop p1 s).
Proof.
  induction p1 as [|[i dev] p1 IH]; intros s; [reflexivity|].
  cbn [app AttitudeTask_loop]. apply IH.
Qed.

(** The state a pass leaves when it acquired its data. *)
Lemma AttitudeTask_cycle_acquired (s : state) (dev : D) (i : cycle_input) :
  acquired i dev = true ->
  exists (raw' : AttitudeRawData),
    us_raw (updateSensors (PIOS_WDG_UpdateFlag (startup_policy s i)) dev
              (in_gyro_rx i)
              (attitudeRaw_obj (PIOS_WDG_UpdateFlag (startup_policy s i))))
    = raw' /\
    AttitudeTask_cycle s dev i
    = (AlarmsClear
         (AttitudeRawSet
            (updateAttitude
               (yaw_bias_update (PIOS_WDG_UpdateFlag (startup_policy s i))
                  (v2 (gyros raw')))
               (in_tick_c i) raw') raw'),
       dr_dev (drain dev)).
Proof.
  intros Ha.
  destruct (AttitudeTask_cycle_cases s dev i)
    as [(Hfail & _) | (_ & _ & raw' & Hraw & Hc)].
  - rewrite (acquired_false i dev Hfail) in Ha. discriminate.
  - exists raw'. split; assumption.
Qed.

(** The state a pass leaves when it did not. *)
Lemma AttitudeTask_cycle_failed (s : state) (dev : D) (i : cycle_input) :
  acquired i dev = false ->
  AttitudeTask_cycle s dev i
  = (AlarmsSet (PIOS_WDG_UpdateFlag (startup_policy s i))
       SYSTEMALARMS_ALARM_ERROR, dev).
Proof.
  intros Ha.
  destruct (AttitudeTask_cycle_cases s dev i)
    as [(_ & Hc) | (Hrx & Hf & _)].
  - exact Hc.
  - rewrite (acquired_true i dev Hrx Hf) in Ha. discriminate.
Qed.

(** X1.  Every pass of the main loop leaves the Attitude alarm Clear when it
    acquired its sensor data (a gyro sample arrived and the accelerometer
    FIFO was not empty) and at Error otherwise, whatever the alarm was
    before; so after any run of passes the alarm tells how the last pass
    went, and it is never Critical. *)
Theorem alarm_reflects_last_pass (s : state) (passes : list (cycle_input * D))
        (i : cycle_input) (dev : D) :
  alarm_attitude (fst (AttitudeTask_cycle s dev i))
  = (if acquired i dev then SYSTEMALARMS_ALARM_OK else SYSTEMALARMS_ALARM_ERROR) /\
  alarm_attitude (AttitudeTask_loop (passes ++ [(i, dev)]) s)
  = (if acquired i dev then SYSTEMALARMS_ALARM_OK else SYSTEMALARMS_ALARM_ERROR) /\
  alarm_attitude (AttitudeTask_loop (passes ++ [(i, dev)]) s)
  <> SYSTEMALARMS_ALARM_CRITICAL.
Proof.
  assert (Hone : forall s0 : state,
             alarm_attitude (fst (AttitudeTask_cycle s0 dev i))
             = (if acquired i dev then SYSTEMALARMS_ALARM_OK
                else SYSTEMALARMS_ALARM_ERROR)).
  { intros s0. destruct (acquired i dev) eqn:Ha.
    - destruct (AttitudeTask_cycle_acquired s0 dev i Ha) as (raw' & _ & Hc).
      rewrite Hc. reflexivity.
    - rewrite (AttitudeTask_cycle_failed s0 dev i Ha). reflexivity. }
  split; [apply Hone|].
  rewrite AttitudeTask_loop_app. cbn [AttitudeTask_loop].
  rewrite Hone. split; [reflexivity|].
  destruct (acquired i dev); discriminate.
Qed.

Lemma AttitudeTask_cycle_wdg (s : state) (dev : D) (i : cycle_input) :
  wdg_updates (fst (AttitudeTask_cycle s dev i)) = S (wdg_updates s).
Proof.
  destruct (startup_policy_rest s i) as (Hw & _).
  destruct (acquired i dev) eqn:Ha.
  - destruct (AttitudeTask_cycle_acquired s dev i Ha) as (raw' & _ & Hc).
    rewrite Hc. cbn [fst].
    rewrite (proj1 (pass_epilogue_frame _ raw')).
    destruct (updateAttitude_frame
                (yaw_bias_update (PIOS_WDG_UpdateFlag (startup_policy s i))
                   (v2 (gyros raw'))) (in_tick_c i) raw')
      as (_ & _ & _ & _ & _ & _ & _ & _ & _ & _ & _ & Hu & _).
    rewrite Hu. cbn. rewrite Hw. reflexivity.
  - rewrite (AttitudeTask_cycle_failed s dev i Ha). cbn. rewrite Hw. reflexivity.
Qed.

(** X2.  Every pass of the main loop updates the watchdog flag exactly once,
    whether or not the sensors delivered: after a run of passes the flag has
    been updated once per pass. *)
Theorem watchdog_once_per_pass (passes : list (cycle_input * D)) (s : state) :
  wdg_updates (AttitudeTask_loop passes s)
  = (wdg_updates s + length passes)%nat.
Proof.
  revert s. induction passes as [|[i dev] passes IH]; intros s.
  - cbn. lia.
  - cbn [AttitudeTask_loop length]. rewrite IH, AttitudeTask_cycle_wdg. lia.
Qed.
End LoopFacts.

(** ** Sensor outages *)

Section Outage.
Context {ML : MathLib} {D : Type} `{Adxl345 D}.

Lemma AttitudeTask_cycle_failed_frame (s : state) (dev : D) (i : cycle_input) :
  acquired i dev = false ->
  q (fst (AttitudeTask_cycle s dev i)) = q s /\
  gyro_correct_int (fst (AttitudeTask_cycle s dev i)) = gyro_correct_int s /\
  lastSysTime (fst (AttitudeTask_cycle s dev i)) = lastSysTime s /\
  attitudeRaw_obj (fst (AttitudeTask_cycle s dev i)) = attitudeRaw_obj s /\
  attitudeActual_obj (fst (AttitudeTask_cycle s dev i)) = attitudeActual_obj s /\
  snd (AttitudeTask_cycle s dev i) = dev.
Proof.
  intros Ha. rewrite (AttitudeTask_cycle_failed s dev i Ha).
  destruct (startup_policy_frame s i) as (Hq & Hb & Hr & Hp).
  destruct (startup_policy_rest s i) as (_ & Hl & _).
  cbn. repeat split; assumption.
Qed.

(** X3.  A sensor outage freezes the filter: through any run of passes none
    of which acquired its data (gyro timeout or empty accelerometer FIFO),
    the quaternion, the gyro bias, both published objects and the tick of the
    last filter step keep their values, and no such pass reads the
    accelerometer.  As [lastSysTime] is not advanced, the first step after
    the outage integrates over the whole outage. *)
Theorem outage_freezes_filter (passes : list (cycle_input * D)) (s : state) :
  Forall (fun p => acquired (fst p) (snd p) = false) passes ->
  q (AttitudeTask_loop passes s) = q s /\
  gyro_correct_int (AttitudeTask_loop passes s) = gyro_correct_int s /\
  lastSysTime (AttitudeTask_loop passes s) = lastSysTime s /\
  attitudeRaw_obj (AttitudeTask_loop passes s) = attitudeRaw_obj s /\
  attitudeActual_obj (AttitudeTask_loop passes s) = attitudeActual_obj s /\
  (forall (s' : state) (i : cycle_input) (dev : D),
      In (i, dev) passes -> snd (AttitudeTask_cycle s' dev i) = dev).
Proof.
  intros Hall. split; [|split; [|split; [|split; [|split]]]].
  6: { intros s' i dev Hin. rewrite Forall_forall in Hall.
       specialize (Hall _ Hin). cbn [fst snd] in Hall.
       apply (AttitudeTask_cycle_failed_frame s' dev i Hall). }
  all: revert s; induction Hall as [|[i dev] passes Ha _ IH]; intros s;
    [reflexivity|];
    cbn [fst snd] in Ha; cbn [AttitudeTask_loop]; rewrite IH;
    apply (AttitudeTask_cycle_failed_frame s dev i Ha).
Qed.
End Outage.

Lemma outage_freezes_filter_witness :
  Forall (fun p => acquired (fst p) (snd p) = false)
         [(input_at 8000 None, one_sample);
          (input_at 8002 (Some neutral_gyro), [])] /\
  lastSysTime
    (AttitudeTask_loop (ML := RefLibm.lib)
       [(input_at 8000 None, one_sample);
        (input_at 8002 (Some neutral_gyro), [])] initial_state)
  = lastSysTime initial_state.
Proof.
  assert (Hall : Forall (fun p => acquired (fst p) (snd p) = false)
                        [(input_at 8000 None, one_sample);
                         (input_at 8002 (Some neutral_gyro), [])]).
  { repeat constructor. }
  split; [exact Hall|].
  apply (outage_freezes_filter (ML := RefLibm.lib) _ initial_state Hall).
Defined.

(** ** Initialisation and task entry *)

(** X4.  [AttitudeInitialize] resets the quaternion, the published
    quaternion, the gyro bias and the matrix [R] before it creates the gyro
    queue: it returns 0 exactly when the queue was created, and only then
    hands the queue to the ADC driver and connects the settings callback, but
    the reset state is the same in both cases.  It keeps the published Euler
    angles and is idempotent. *)
Theorem AttitudeInitialize_resets (s : state) (queue_created again : bool) :
  fst (fst (AttitudeInitialize s queue_created))
  = (if queue_created then 0 else -1) /\
  adc_queue_set (snd (AttitudeInitialize s queue_created)) = queue_created /\
  settings_callback_connected (snd (AttitudeInitialize s queue_created))
  = queue_created /\
  snd (fst (AttitudeInitialize s queue_created))
  = snd (fst (AttitudeInitialize s again)) /\
  q (snd (fst (AttitudeInitialize s queue_created))) = quat_identity /\
  actual_q (attitudeActual_obj (snd (fst (AttitudeInitialize s queue_created))))
  = quat_identity /\
  actual_rpy (attitudeActual_obj (snd (fst (AttitudeInitialize s queue_created))))
  = actual_rpy (attitudeActual_obj s) /\
  gyro_correct_int (snd (fst (AttitudeInitialize s queue_created))) = vec3_zero /\
  R (snd (fst (AttitudeInitialize s queue_created)))
  = mkMat3 vec3_zero vec3_zero vec3_zero /\
  snd (fst (AttitudeInitialize (snd (fst (AttitudeInitialize s queue_created)))
                               again))
  = snd (fst (AttitudeInitialize s again)).
Proof.
  destruct queue_created, again; repeat split.
Qed.

(** The wait loop touches the alarm and the watchdog flag only. *)
Lemma startup_wait_frame (polls : list Z) :
  forall s : state,
    q (fst (startup_wait polls s)) = q s /\
    attitudeActual_obj (fst (startup_wait polls s)) = attitudeActual_obj s /\
    gyro_correct_int (fst (startup_wait polls s)) = gyro_correct_int s /\
    init (fst (startup_wait polls s)) = init s.
Proof.
  induction polls as [|n polls IH]; intros s; cbn [startup_wait].
  - repeat split.
  - destruct (n =? 0).
    + destruct (IH (PIOS_WDG_UpdateFlag (AlarmsSet s SYSTEMALARMS_ALARM_CRITICAL)))
        as (H1 & H2 & H3 & H4).
      rewrite H1, H2, H3, H4. repeat split.
    + repeat split.
Qed.

Lemma startup_wait_gains (polls : list Z) :
  forall s : state,
    accelKp (fst (startup_wait polls s)) = accelKp s /\
    accelKi (fst (startup_wait polls s)) = accelKi s /\
    yawBiasRate (fst (startup_wait polls s)) = yawBiasRate s /\
    gyroGain (fst (startup_wait polls s)) = gyroGain s /\
    gyro_correct_int (fst (startup_wait polls s)) = gyro_correct_int s.
Proof.
  induction polls as [|n polls IH]; intros s; cbn [startup_wait].
  - repeat split.
  - destruct (n =? 0).
    + destruct (IH (PIOS_WDG_UpdateFlag (AlarmsSet s SYSTEMALARMS_ALARM_CRITICAL)))
        as (H1 & H2 & H3 & H4 & H5).
      rewrite H1, H2, H3, H4, H5. repeat split.
    + repeat split.
Qed.

Lemma startup_wait_summary (polls : list Z) :
  forall s : state,
    snd (startup_wait polls s) = existsb (fun n => negb (n =? 0)) polls /\
    wdg_updates (fst (startup_wait polls s))
    = (wdg_updates s + empty_polls polls)%nat /\
    alarm_attitude (fst (startup_wait polls s))
    = (if Nat.eqb (empty_polls polls) 0 then alarm_attitude s
       else SYSTEMALARMS_ALARM_CRITICAL).
Proof.
  induction polls as [|n polls IH]; intros s;
    cbn [startup_wait existsb empty_polls].
  - cbn. repeat split. lia.
  - destruct (n =? 0) eqn:Hn; cbn [negb orb].
    + destruct (IH (PIOS_WDG_UpdateFlag
                      (AlarmsSet s SYSTEMALARMS_ALARM_CRITICAL)))
        as (H1 & H2 & H3).
      rewrite H1, H2, H3. cbn [Nat.eqb]. split; [reflexivity|].
      split; [cbn; lia|].
      destruct (Nat.eqb (empty_polls polls) 0); reflexivity.
    + cbn. repeat split. lia.
Qed.

(** X5.  While the accelerometer FIFO polls as empty at task start, the task
    holds the Attitude alarm at Critical and updates the watchdog flag once
    per poll; it leaves the wait loop at the first poll that is not zero, and
    never when every poll is zero.  With [k] empty polls the flag has been
    updated [k] times; the alarm is Critical if [k > 0] and untouched
    otherwise. *)
Theorem startup_wait_holds_critical (polls : list Z) (s : state) :
  snd (startup_wait polls s) = existsb (fun n => negb (n =? 0)) polls /\
  wdg_updates (fst (startup_wait polls s))
  = (wdg_updates s + empty_polls polls)%nat /\
  alarm_attitude (fst (startup_wait polls s))
  = (if Nat.eqb (empty_polls polls) 0 then alarm_attitude s
     else SYSTEMALARMS_ALARM_CRITICAL) /\
  (Forall (fun n => n = 0) polls -> snd (startup_wait polls s) = false).
Proof.
  destruct (startup_wait_summary polls s) as (H1 & H2 & H3).
  split; [exact H1|]. split; [exact H2|]. split; [exact H3|].
  intros Hall. rewrite H1. clear - Hall.
  induction Hall as [|n l Hn _ IH']; [reflexivity|].
  cbn [existsb]. subst n. cbn. exact IH'.
Qed.

(** ** The published attitude *)

(** [updateAttitude] publishes the quaternion it stores together with the
    Euler angles of that same quaternion. *)
Lemma updateAttitude_actual {ML : MathLib} (s : state) (t : Z)
      (raw : AttitudeRawData) :
  attitudeActual_obj (updateAttitude s t raw)
  = mkActual (q (updateAttitude s t raw))
             (Quaternion2RPY (q (updateAttitude s t raw))).
Proof.
  unfold updateAttitude.
  rewrite attitudeActual_obj_set, q_AttitudeActualSet, q_set_q.
  reflexivity.
Qed.

Section Published.
Context {ML : MathLib} {RL : RotationLib} {D : Type} `{Adxl345 D}.

Lemma AttitudeTask_cycle_published (s : state) (dev : D) (i : cycle_input) :
  (acquired i dev = true ->
   attitudeActual_obj (fst (AttitudeTask_cycle s dev i))
   = mkActual (q (fst (AttitudeTask_cycle s dev i)))
              (Quaternion2RPY (q (fst (AttitudeTask_cycle s dev i))))) /\
  (acquired i dev = false ->
   attitudeActual_obj (fst (AttitudeTask_cycle s dev i)) = attitudeActual_obj s /\
   q (fst (AttitudeTask_cycle s dev i)) = q s).
Proof.
  split; intros Ha.
  - destruct (AttitudeTask_cycle_acquired s dev i Ha) as (raw' & _ & Hc).
    rewrite Hc. cbn [fst].
    destruct (pass_epilogue_frame
                (updateAttitude
                   (yaw_bias_update (PIOS_WDG_UpdateFlag (startup_policy s i))
                      (v2 (gyros raw'))) (in_tick_c i) raw') raw')
      as (_ & Hq & _ & _ & Hp & _).
    rewrite Hq, Hp. apply updateAttitude_actual.
  - destruct (AttitudeTask_cycle_failed_frame s dev i Ha)
      as (Hq & _ & _ & _ & Hp & _).
    split; assumption.
Qed.

Lemma AttitudeTask_loop_published (passes : list (cycle_input * D)) :
  forall s : state,
    (actual_q (attitudeActual_obj s) = q s ->
     actual_q (attitudeActual_obj (AttitudeTask_loop passes s))
     = q (AttitudeTask_loop passes s)) /\
    ((actual_rpy (attitudeActual_obj s) = Quaternion2RPY (q s) /\
      actual_q (attitudeActual_obj s) = q s) \/
     existsb (fun p => acquired (fst p) (snd p)) passes = true ->
     attitudeActual_obj (AttitudeTask_loop passes s)
     = mkActual (q (AttitudeTask_loop passes s))
                (Quaternion2RPY (q (AttitudeTask_loop passes s)))).
Proof.
  induction passes as [|[i dev] passes IH]; intros s;
    cbn [AttitudeTask_loop existsb fst snd].
  - split; [tauto|]. intros [[Hr Hq] | Hf]; [|discriminate].
    destruct (attitudeActual_obj s) as [aq ar]. cbn in Hr, Hq. congruence.
  - destruct (IH (fst (AttitudeTask_cycle s dev i))) as [IH1 IH2].
    destruct (AttitudeTask_cycle_published s dev i) as [Hok Hfail].
    destruct (acquired i dev) eqn:Ha.
    + specialize (Hok eq_refl).
      split.
      * intros _. apply IH1. rewrite Hok. reflexivity.
      * intros _. apply IH2. left. rewrite Hok. split; reflexivity.
    + destruct (Hfail eq_refl) as [Hp Hq]. cbn [orb].
      split.
      * intros Hinv. apply IH1. rewrite Hp, Hq. exact Hinv.
      * intros [[Hr Hinv] | Hex].
        -- apply IH2. left. rewrite Hp, Hq. split; assumption.
        -- apply IH2. right. exact Hex.
Qed.

Lemma AttitudeTask_entry_frame (s : state) (polls : list Z)
      (attitudeSettings : AttitudeSettingsData) :
  q (fst (AttitudeTask_entry s polls attitudeSettings)) = q s /\
  attitudeActual_obj (fst (AttitudeTask_entry s polls attitudeSettings))
  = attitudeActual_obj s /\
  init (fst (AttitudeTask_entry s polls attitudeSettings)) = 0.
Proof.
  unfold AttitudeTask_entry.
  destruct (startup_wait_frame polls
              (AlarmsClear (set_gains s (accelKp s) (accelKi s) (yawBiasRate s) 0)))
    as (Hq & Hp & _ & Hi).
  destruct (startup_wait polls
              (AlarmsClear (set_gains s (accelKp s) (accelKi s) (yawBiasRate s) 0)))
    as [s1 entered].
  cbn [fst] in Hq, Hp, Hi.
  destruct entered; cbn [fst].
  - unfold settingsUpdatedCb.
    destruct (GyroBias attitudeSettings) as [[g0 g1] g2].
    destruct (BoardRotation attitudeSettings) as [[r0 r1] r2].
    cbn [q attitudeActual_obj init]. rewrite Hq, Hp, Hi. repeat split.
  - rewrite Hq, Hp, Hi. repeat split.
Qed.

(** X6.  From initialisation on, the quaternion published in AttitudeActual
    is always the quaternion the filter holds: this holds after
    [AttitudeInitialize] (whatever the state before and whether or not it
    succeeded), through the wait loop and the settings load at task entry,
    and after every pass of the main loop.  Once one pass has acquired its
    data, the published Euler angles are those of that quaternion as well. *)
Theorem published_quaternion_is_q (s0 : state) (queue_created : bool)
        (polls : list Z) (attitudeSettings : AttitudeSettingsData)
        (passes : list (cycle_input * D)) :
  actual_q
    (attitudeActual_obj
       (AttitudeTask (snd (fst (AttitudeInitialize s0 queue_created)))
                     polls attitudeSettings passes))
  = q (AttitudeTask (snd (fst (AttitudeInitialize s0 queue_created)))
                    polls attitudeSettings passes) /\
  (snd (AttitudeTask_entry (snd (fst (AttitudeInitialize s0 queue_created)))
                           polls attitudeSettings) = true ->
   existsb (fun p => acquired (fst p) (snd p)) passes = true ->
   actual_rpy
     (attitudeActual_obj
        (AttitudeTask (snd (fst (AttitudeInitialize s0 queue_created)))
                      polls attitudeSettings passes))
   = Quaternion2RPY
       (q (AttitudeTask (snd (fst (AttitudeInitialize s0 queue_created)))
                        polls attitudeSettings passes))).
Proof.
  set (s1 := snd (fst (AttitudeInitialize s0 queue_created))).
  assert (Hinit : actual_q (attitudeActual_obj s1) = q s1).
  { unfold s1. destruct queue_created; reflexivity. }
  clearbody s1.
  unfold AttitudeTask.
  destruct (AttitudeTask_entry_frame s1 polls attitudeSettings) as (Hq & Hp & _).
  destruct (AttitudeTask_entry s1 polls attitudeSettings) as [s2 entered].
  cbn [fst snd] in *.
  assert (Hinv : actual_q (attitudeActual_obj s2) = q s2)
    by (rewrite Hq, Hp; exact Hinit).
  destruct (AttitudeTask_loop_published passes s2) as [L1 L2].
  destruct entered.
  - split; [apply L1; exact Hinv|].
    intros _ Hex. rewrite (L2 (or_intror Hex)). reflexivity.
  - split; [exact Hinv|]. intros Hf. discriminate.
Qed.
End Published.

(** ** The drain loop on a FIFO of samples *)

Lemma wrap_s32_small (z : Z) : -2147483648 <= z < 2147483648 -> wrap_s32 z = z.
Proof.
  intros Hz. unfold wrap_s32. rewrite Z.mod_small; lia.
Qed.

Lemma wrap_u8_small (z : Z) : 0 <= z < 256 -> wrap_u8 z = z.
Proof.
  intros Hz. unfold wrap_u8. apply Z.mod_small. exact Hz.
Qed.

(** The loop started with count [i] on the FIFO [a :: rest], with room for
    [S fuel] samples before the count reaches 32. *)
Lemma drain_loop_fifo (fuel : nat) :
  forall (l : list pios_adxl345_data) (i x y z r : Z),
    l <> [] -> (length l < 256)%nat -> Forall int16_sample l ->
    0 <= i -> i + Z.of_nat fuel = 31 ->
    - (32768 * i) <= x <= 32768 * i ->
    - (32768 * i) <= y <= 32768 * i ->
    - (32768 * i) <= z <= 32768 * i ->
    drain_loop fuel (mkDrain i x y z r l)
    = mkDrain (i + Z.of_nat (Nat.min (length l) (S fuel)))
              (x + sum_of ad_x (firstn (Nat.min (length l) (S fuel)) l))
              (y - sum_of ad_y (firstn (Nat.min (length l) (S fuel)) l))
              (z - sum_of ad_z (firstn (Nat.min (length l) (S fuel)) l))
              (Z.of_nat (length l - Nat.min (length l) (S fuel)))
              (skipn (Nat.min (length l) (S fuel)) l).
Proof.
  induction fuel as [|fuel IH]; intros l i x y z r Hne Hlen Hall Hi Hfuel Hx Hy Hz;
    (destruct l as [|a rest]; [congruence|]);
    inversion Hall as [|a' l' Ha Hrest]; subst;
    destruct Ha as (Hax & Hay & Haz);
    cbn [length] in Hlen.
  - cbn [drain_loop]. unfold drain_body.
    cbn [dr_dev dr_i dr_x dr_y dr_z PIOS_ADXL345_Read fifo_driver].
    replace (Nat.min (length (a :: rest)) 1) with 1%nat by (cbn [length]; lia).
    cbn [firstn skipn sum_of fold_right length].
    rewrite !wrap_u8_small by (try rewrite wrap_u8_small; lia).
    rewrite !wrap_s32_small by lia.
    f_equal; lia.
  - cbn [drain_loop]. unfold drain_body.
    cbn [dr_dev dr_i dr_x dr_y dr_z dr_remaining PIOS_ADXL345_Read fifo_driver].
    rewrite !wrap_u8_small by (try rewrite wrap_u8_small; lia).
    rewrite !wrap_s32_small by lia.
    replace (i + 1 <? 32) with true by (symmetry; apply Z.ltb_lt; lia).
    cbn [andb].
    destruct rest as [|b rest'].
    + cbn [length]. cbn. f_equal; lia.
    + replace (Z.of_nat (length (b :: rest')) >? 0) with true
        by (symmetry; cbn [length]; apply Z.gtb_lt; lia).
      rewrite IH; try assumption; try discriminate; try lia.
      replace (Nat.min (length (a :: b :: rest')) (S (S fuel)))
        with (S (Nat.min (length (b :: rest')) (S fuel)))
        by (cbn [length]; lia).
      cbn [firstn skipn].
      set (k := Nat.min (length (b :: rest')) (S fuel)).
      change (sum_of ad_x (a :: firstn k (b :: rest')))
        with (ad_x a + sum_of ad_x (firstn k (b :: rest'))).
      change (sum_of ad_y (a :: firstn k (b :: rest')))
        with (ad_y a + sum_of ad_y (firstn k (b :: rest'))).
      change (sum_of ad_z (a :: firstn k (b :: rest')))
        with (ad_z a + sum_of ad_z (firstn k (b :: rest'))).
      f_equal; lia.
Qed.

(** The loop as [updateSensors] enters it. *)
Lemma drain_fifo (l : list pios_adxl345_data) :
  l <> [] -> (length l < 256)%nat -> Forall int16_sample l ->
  drain l
  = mkDrain (Z.of_nat (Nat.min (length l) 32))
            (sum_of ad_x (firstn (Nat.min (length l) 32) l))
            (- sum_of ad_y (firstn (Nat.min (length l) 32) l))
            (- sum_of ad_z (firstn (Nat.min (length l) 32) l))
            (Z.of_nat (length l - Nat.min (length l) 32))
            (skipn (Nat.min (length l) 32) l).
Proof.
  intros Hne Hlen Hall.
  unfold drain. rewrite drain_loop_fifo; try assumption; try lia.
  f_equal; lia.
Qed.

Lemma fifo_not_empty (l : list pios_adxl345_data) :
  l <> [] -> (length l < 256)%nat -> (PIOS_ADXL345_FifoElements l =? 0) = false.
Proof.
  intros Hne Hlen. apply Z.eqb_neq. cbn [PIOS_ADXL345_FifoElements fifo_driver].
  rewrite wrap_u8_small by lia.
  destruct l; [congruence|]. cbn [length]. lia.
Qed.

(** X7.  On a FIFO holding [n] samples ([1 <= n <= 255], counts in the
    [int16_t] range) the drain loop of [updateSensors] reads the oldest
    [min n 32] samples and leaves the rest in the FIFO; its three [int32_t]
    accumulators hold the exact sums of the X counts and of the negated Y and
    Z counts of the samples read (they cannot wrap around), and [gyrotemp]
    reports the number of samples left and the number averaged. *)
Theorem drain_reads_oldest_samples (l : list pios_adxl345_data) (s : state)
        (g : gyro_sample) (raw : AttitudeRawData) :
  l <> [] -> (length l < 256)%nat -> Forall int16_sample l ->
  dr_i (drain l) = Z.of_nat (Nat.min (length l) 32) /\
  dr_dev (drain l) = skipn (Nat.min (length l) 32) l /\
  dr_remaining (drain l) = Z.of_nat (length l - Nat.min (length l) 32) /\
  dr_x (drain l) = sum_of ad_x (firstn (Nat.min (length l) 32) l) /\
  dr_y (drain l) = - sum_of ad_y (firstn (Nat.min (length l) 32) l) /\
  dr_z (drain l) = - sum_of ad_z (firstn (Nat.min (length l) 32) l) /\
  us_ret (updateSensors s l (Some g) raw) = 0 /\
  us_dev (updateSensors s l (Some g) raw) = skipn (Nat.min (length l) 32) l /\
  gyrotemp0 (us_raw (updateSensors s l (Some g) raw))
  = F32.of_Z (Z.of_nat (length l - Nat.min (length l) 32)) /\
  gyrotemp1 (us_raw (updateSensors s l (Some g) raw))
  = F32.of_Z (Z.of_nat (Nat.min (length l) 32)).
Proof.
  intros Hne Hlen Hall.
  pose proof (drain_fifo l Hne Hlen Hall) as Hd.
  pose proof (fifo_not_empty l Hne Hlen) as Hf.
  rewrite (updateSensors_success s l g raw Hf).
  unfold us_ret, us_dev, us_raw. cbn [fst snd gyrotemp0 gyrotemp1].
  rewrite Hd. cbn [dr_i dr_x dr_y dr_z dr_remaining dr_dev].
  repeat split.
Qed.

Lemma drain_reads_oldest_samples_witness :
  one_sample <> [] /\ (length one_sample < 256)%nat /\
  Forall int16_sample one_sample /\
  dr_x (drain one_sample) = sum_of ad_x (firstn (Nat.min (length one_sample) 32) one_sample).
Proof.
  assert (H1 : one_sample <> []) by discriminate.
  assert (H2 : (length one_sample < 256)%nat) by (cbn; lia).
  assert (H3 : Forall int16_sample one_sample).
  { repeat constructor; cbn; lia. }
  split; [exact H1|]. split; [exact H2|]. split; [exact H3|].
  apply (drain_reads_oldest_samples one_sample initial_state neutral_gyro zero_raw
           H1 H2 H3).
Defined.

(** ** The time step and the tick counter *)

Lemma wrap_u32_idem (z : Z) : wrap_u32 (wrap_u32 z) = wrap_u32 z.
Proof.
  unfold wrap_u32. apply Z.mod_mod. lia.
Qed.

(** X8.  The time step depends on the two tick counts only through their
    difference modulo 2^32, so a wrap-around of the 32-bit tick counter
    between two steps does not disturb it; and a step taken on an unchanged
    tick uses exactly the [dT] of a step taken one tick later. *)
Theorem dT_tick_difference (thisSysTime lastSysTime : Z) :
  0 <= thisSysTime < 4294967296 ->
  0 <= lastSysTime < 4294967296 ->
  compute_dT thisSysTime lastSysTime
  = compute_dT (wrap_u32 (thisSysTime - lastSysTime)) 0 /\
  compute_dT lastSysTime lastSysTime
  = compute_dT (wrap_u32 (lastSysTime + 1)) lastSysTime.
Proof.
  assert (Hdiff : forall a b : Z,
             0 <= a < 4294967296 -> 0 <= b < 4294967296 ->
             compute_dT a b = compute_dT (wrap_u32 (a - b)) 0).
  { intros a b Ha Hb. unfold compute_dT.
    destruct (a =? b) eqn:Hab.
    - apply Z.eqb_eq in Hab. subst b. rewrite Z.sub_diag. reflexivity.
    - apply Z.eqb_neq in Hab.
      assert (Hnz : wrap_u32 (a - b) <> 0).
      { unfold wrap_u32. intros Hz. apply Z.mod_divide in Hz; [|lia].
        destruct Hz as [k Hk]. nia. }
      apply Z.eqb_neq in Hnz. rewrite Hnz.
      rewrite Z.sub_0_r, wrap_u32_idem. reflexivity. }
  intros Ht Hl. split; [apply Hdiff; assumption|].
  assert (Hw : 0 <= wrap_u32 (lastSysTime + 1) < 4294967296)
    by (unfold wrap_u32; apply Z.mod_pos_bound; lia).
  rewrite (Hdiff (wrap_u32 (lastSysTime + 1)) lastSysTime Hw Hl).
  rewrite (Hdiff lastSysTime lastSysTime Hl Hl).
  replace (wrap_u32 (wrap_u32 (lastSysTime + 1) - lastSysTime)) with 1.
  - rewrite Z.sub_diag. vm_compute. reflexivity.
  - unfold wrap_u32.
    destruct (Z.eq_dec lastSysTime 4294967295) as [-> | Hne].
    + reflexivity.
    + rewrite (Z.mod_small (lastSysTime + 1)) by lia.
      replace (lastSysTime + 1 - lastSysTime) with 1 by lia. reflexivity.
Qed.

Lemma dT_tick_difference_witness :
  0 <= 3 < 4294967296 /\ 0 <= 4294967295 < 4294967296 /\
  compute_dT 3 4294967295 = compute_dT (wrap_u32 (3 - 4294967295)) 0.
Proof.
  assert (H1 : 0 <= 3 < 4294967296) by lia.
  assert (H2 : 0 <= 4294967295 < 4294967296) by lia.
  split; [exact H1|]. split; [exact H2|].
  apply (dT_tick_difference 3 4294967295 H1 H2).
Defined.

(** ** NaN in the filter *)

(** Every arithmetic operation of the module propagates a NaN operand. *)
Lemma F32_add_nan_l (y : float32) : F32.add S754_nan y = S754_nan.
Proof. reflexivity. Qed.

Lemma F32_add_nan_r (x : float32) : F32.add x S754_nan = S754_nan.
Proof. destruct x; reflexivity. Qed.

Lemma F32_sub_nan_l (y : float32) : F32.sub S754_nan y = S754_nan.
Proof. reflexivity. Qed.

Lemma F32_sub_nan_r (x : float32) : F32.sub x S754_nan = S754_nan.
Proof. destruct x; reflexivity. Qed.

Lemma F32_mul_nan_l (y : float32) : F32.mul S754_nan y = S754_nan.
Proof. reflexivity. Qed.

Lemma F32_mul_nan_r (x : float32) : F32.mul x S754_nan = S754_nan.
Proof. destruct x; reflexivity. Qed.

Lemma F32_div_nan_l (y : float32) : F32.div S754_nan y = S754_nan.
Proof. reflexivity. Qed.

Lemma F32_div_nan_r (x : float32) : F32.div x S754_nan = S754_nan.
Proof. destruct x; reflexivity. Qed.

Lemma qdot_scale_nan (dT : float32) : qdot_scale S754_nan dT = S754_nan.
Proof. reflexivity. Qed.

Lemma is_nan_eq (x : spec_float) : is_nan x = true -> x = S754_nan.
Proof. destruct x; try discriminate. reflexivity. Qed.

Ltac nan_simpl :=
  repeat (rewrite F32_mul_nan_l || rewrite F32_mul_nan_r
          || rewrite F32_add_nan_l || rewrite F32_add_nan_r
          || rewrite F32_sub_nan_l || rewrite F32_sub_nan_r
          || rewrite F32_div_nan_l || rewrite F32_div_nan_r
          || rewrite qdot_scale_nan).

Lemma vec3_has_nan_cases (v : vec3) :
  vec3_has_nan v = true ->
  v0 v = S754_nan \/ v1 v = S754_nan \/ v2 v = S754_nan.
Proof.
  unfold vec3_has_nan. intros Hn.
  apply orb_true_iff in Hn. destruct Hn as [Hn | Hn].
  - apply orb_true_iff in Hn. destruct Hn as [Hn | Hn].
    + left. apply is_nan_eq. exact Hn.
    + right. left. apply is_nan_eq. exact Hn.
  - right. right. apply is_nan_eq. exact Hn.
Qed.

(** A NaN among the three rates makes all four components of the propagated
    quaternion NaN. *)
Lemma propagate_nan (qq : quat) (gyro : vec3) (dT : float32) :
  vec3_has_nan gyro = true -> propagate qq gyro dT = quat_nan.
Proof.
  intros Hn. apply vec3_has_nan_cases in Hn.
  unfold propagate, time_step. cbv zeta. cbn [q0 q1 q2 q3].
  destruct Hn as [Hn | [Hn | Hn]]; rewrite Hn; nan_simpl;
    reflexivity.
Qed.

Lemma renormalize_nan : renormalize quat_nan = quat_identity.
Proof. reflexivity. Qed.

Lemma correct_rates_nan (kp dT : float32) (gyro accel_err : vec3) :
  vec3_has_nan gyro = true ->
  vec3_has_nan (correct_rates kp dT gyro accel_err) = true.
Proof.
  intros Hn. apply vec3_has_nan_cases in Hn.
  unfold correct_rates, vec3_has_nan. cbn [v0 v1 v2].
  destruct Hn as [Hn | [Hn | Hn]]; rewrite Hn; nan_simpl;
    cbn [is_nan orb]; rewrite ?orb_true_r; reflexivity.
Qed.

(** X9.  A NaN among the three gyro rates handed to [updateAttitude] always
    ends in the defensive re-initialisation: the step stores and publishes
    the identity quaternion, whatever the previous attitude, the
    accelerometer reading, the gains and the time step. *)
Theorem nan_rate_resets_attitude {ML : MathLib} (s : state) (thisSysTime : Z)
        (attitudeRaw : AttitudeRawData) :
  vec3_has_nan (gyros attitudeRaw) = true ->
  needs_reinit (updateAttitude_qmag s thisSysTime attitudeRaw) = true /\
  q (updateAttitude s thisSysTime attitudeRaw) = quat_identity /\
  actual_q (attitudeActual_obj (updateAttitude s thisSysTime attitudeRaw))
  = quat_identity.
Proof.
  intros Hn.
  assert (Hp : propagated_q s thisSysTime attitudeRaw = quat_nan).
  { unfold propagated_q. cbv zeta. apply propagate_nan.
    apply correct_rates_nan. exact Hn. }
  rewrite updateAttitude_published, updateAttitude_q, updateAttitude_qmag_eq, Hp.
  repeat split.
Qed.

Lemma nan_rate_resets_attitude_witness :
  vec3_has_nan (gyros (mkRaw vec3_zero (mkVec3 F32.zero S754_nan F32.zero)
                             F32.zero F32.zero)) = true /\
  q (updateAttitude (ML := RefLibm.lib) initial_state 5
       (mkRaw vec3_zero (mkVec3 F32.zero S754_nan F32.zero) F32.zero F32.zero))
  = quat_identity.
Proof.
  split; [reflexivity|].
  apply (nan_rate_resets_attitude (ML := RefLibm.lib) initial_state 5
           (mkRaw vec3_zero (mkVec3 F32.zero S754_nan F32.zero) F32.zero F32.zero)
           eq_refl).
Defined.

(** The bias integral after [updateAttitude] (lines 372-373). *)
Lemma updateAttitude_bias {ML : MathLib} (s : state) (t : Z)
      (raw : AttitudeRawData) :
  gyro_correct_int (updateAttitude s t raw)
  = mkVec3
      (F32.add (v0 (gyro_correct_int s))
               (F32.mul (v0 (accel_err_of (q s) (accels raw))) (accelKi s)))
      (F32.add (v1 (gyro_correct_int s))
               (F32.mul (v1 (accel_err_of (q s) (accels raw))) (accelKi s)))
      (v2 (gyro_correct_int s)).
Proof. reflexivity. Qed.

Lemma yaw_bias_update_frame (s : state) (gz : float32) :
  gyro_correct_int (yaw_bias_update s gz)
  = mkVec3 (v0 (gyro_correct_int s)) (v1 (gyro_correct_int s))
           (F32.add (v2 (gyro_correct_int s))
                    (F32.mul (F32.neg gz) (yawBiasRate s))) /\
  q (yaw_bias_update s gz) = q s /\
  bias_correct_gyro (yaw_bias_update s gz) = bias_correct_gyro s /\
  accelKi (yaw_bias_update s gz) = accelKi s /\
  accelKp (yaw_bias_update s gz) = accelKp s /\
  lastSysTime (yaw_bias_update s gz) = lastSysTime s.
Proof. repeat split. Qed.

Lemma is_nan_add_l (x y : float32) :
  is_nan x = true -> is_nan (F32.add x y) = true.
Proof. intros Hx. apply is_nan_eq in Hx. subst x. reflexivity. Qed.

Section NanBias.
Context {ML : MathLib} {D : Type} `{Adxl345 D}.

(** The bias integral a pass leaves, component by component. *)
Lemma AttitudeTask_cycle_bias (s : state) (dev : D) (i : cycle_input) :
  exists (a0 a1 a2 : float32),
    (gyro_correct_int (fst (AttitudeTask_cycle s dev i)) = gyro_correct_int s \/
     gyro_correct_int (fst (AttitudeTask_cycle s dev i))
     = mkVec3 (F32.add (v0 (gyro_correct_int s)) a0)
              (F32.add (v1 (gyro_correct_int s)) a1)
              (F32.add (v2 (gyro_correct_int s)) a2)) /\
    bias_correct_gyro (fst (AttitudeTask_cycle s dev i)) = bias_correct_gyro s.
Proof.
  destruct (startup_policy_frame s i) as (_ & Hb & _).
  destruct (startup_policy_rest s i) as (_ & _ & Hbc & _).
  destruct (acquired i dev) eqn:Ha.
  - destruct (AttitudeTask_cycle_acquired s dev i Ha) as (raw' & _ & Hc).
    rewrite Hc. cbn [fst].
    set (s2 := PIOS_WDG_UpdateFlag (startup_policy s i)).
    set (s3 := yaw_bias_update s2 (v2 (gyros raw'))).
    destruct (pass_epilogue_frame (updateAttitude s3 (in_tick_c i) raw') raw')
      as (_ & _ & Hg & _ & _ & Hbc' & _).
    rewrite Hg, Hbc', updateAttitude_bias.
    destruct (updateAttitude_frame s3 (in_tick_c i) raw')
      as (_ & _ & _ & _ & _ & _ & _ & _ & Hbc3 & _).
    rewrite Hbc3.
    destruct (yaw_bias_update_frame s2 (v2 (gyros raw')))
      as (Hg3 & _ & Hbc2 & _).
    fold s3 in Hg3, Hbc2. rewrite Hg3, Hbc2. cbn [v0 v1 v2].
    assert (Hg2 : gyro_correct_int s2 = gyro_correct_int s) by exact Hb.
    assert (Hb2 : bias_correct_gyro s2 = bias_correct_gyro s) by exact Hbc.
    rewrite Hg2, Hb2.
    exists (F32.mul (v0 (accel_err_of (q s3) (accels raw'))) (accelKi s3)),
           (F32.mul (v1 (accel_err_of (q s3) (accels raw'))) (accelKi s3)),
           (F32.mul (F32.neg (v2 (gyros raw'))) (yawBiasRate s2)).
    split; [right; reflexivity|reflexivity].
  - rewrite (AttitudeTask_cycle_failed s dev i Ha). cbn [fst].
    exists F32.zero, F32.zero, F32.zero.
    split; [left; exact Hb|exact Hbc].
Qed.

Lemma AttitudeTask_cycle_bias_nan (s : state) (dev : D) (i : cycle_input) :
  (is_nan (v0 (gyro_correct_int s)) = true ->
   is_nan (v0 (gyro_correct_int (fst (AttitudeTask_cycle s dev i)))) = true) /\
  (is_nan (v1 (gyro_correct_int s)) = true ->
   is_nan (v1 (gyro_correct_int (fst (AttitudeTask_cycle s dev i)))) = true) /\
  (is_nan (v2 (gyro_correct_int s)) = true ->
   is_nan (v2 (gyro_correct_int (fst (AttitudeTask_cycle s dev i)))) = true).
Proof.
  destruct (AttitudeTask_cycle_bias s dev i) as (a0 & a1 & a2 & [Hg | Hg] & _);
    rewrite Hg; cbn [v0 v1 v2].
  - tauto.
  - repeat split; apply is_nan_add_l.
Qed.

(** X10.  A NaN in a component of the gyro bias integral is never cleared by
    the task loop: through any run of passes, acquiring or not, a component
    of [gyro_correct_int] that is NaN stays NaN. *)
Theorem nan_bias_is_absorbing (passes : list (cycle_input * D)) (s : state) :
  (is_nan (v0 (gyro_correct_int s)) = true ->
   is_nan (v0 (gyro_correct_int (AttitudeTask_loop passes s))) = true) /\
  (is_nan (v1 (gyro_correct_int s)) = true ->
   is_nan (v1 (gyro_correct_int (AttitudeTask_loop passes s))) = true) /\
  (is_nan (v2 (gyro_correct_int s)) = true ->
   is_nan (v2 (gyro_correct_int (AttitudeTask_loop passes s))) = true).
Proof.
  revert s. induction passes as [|[i dev] passes IH]; intros s;
    cbn [AttitudeTask_loop].
  - tauto.
  - destruct (IH (fst (AttitudeTask_cycle s dev i))) as (I0 & I1 & I2).
    destruct (AttitudeTask_cycle_bias_nan s dev i) as (C0 & C1 & C2).
    tauto.
Qed.
End NanBias.

(** A step on rates that hold a NaN stores the identity quaternion. *)
Lemma updateAttitude_nan_rate {ML : MathLib} (s : state) (t : Z)
      (raw : AttitudeRawData) :
  vec3_has_nan (gyros raw) = true ->
  q (updateAttitude s t raw) = quat_identity.
Proof.
  intros Hn. rewrite updateAttitude_q.
  unfold propagated_q. cbv zeta.
  rewrite propagate_nan by (apply correct_rates_nan; exact Hn).
  apply renormalize_nan.
Qed.

Lemma correct_gyros_nan (s : state) (g : vec3) :
  bias_correct_gyro s = true ->
  vec3_has_nan (gyro_correct_int s) = true ->
  vec3_has_nan (correct_gyros s g) = true.
Proof.
  intros Hb Hn. apply vec3_has_nan_cases in Hn.
  unfold correct_gyros, vec3_has_nan. rewrite Hb. cbn [v0 v1 v2].
  destruct Hn as [Hn | [Hn | Hn]]; rewrite Hn; nan_simpl;
    cbn [is_nan orb]; rewrite ?orb_true_r; reflexivity.
Qed.

Lemma vec3_has_nan_intro (v : vec3) :
  is_nan (v0 v) = true \/ is_nan (v1 v) = true \/ is_nan (v2 v) = true ->
  vec3_has_nan v = true.
Proof.
  unfold vec3_has_nan. intros [Hn | [Hn | Hn]]; rewrite Hn;
    rewrite ?orb_true_r; reflexivity.
Qed.

Section StuckAtIdentity.
Context {ML : MathLib} {D : Type} `{Adxl345 D}.

(** With bias correction on and a NaN in the bias integral, a pass that
    acquires its data ends with the identity quaternion. *)
Lemma AttitudeTask_cycle_poisoned (s : state) (dev : D) (i : cycle_input) :
  bias_correct_gyro s = true ->
  vec3_has_nan (gyro_correct_int s) = true ->
  acquired i dev = true ->
  q (fst (AttitudeTask_cycle s dev i)) = quat_identity.
Proof.
  intros Hb Hn Ha.
  destruct (startup_policy_frame s i) as (_ & Hg & _).
  destruct (startup_policy_rest s i) as (_ & _ & Hbc & _).
  destruct (AttitudeTask_cycle_acquired s dev i Ha) as (raw' & Hraw & Hc).
  rewrite Hc. cbn [fst].
  rewrite (proj1 (proj2 (pass_epilogue_frame _ raw'))).
  apply updateAttitude_nan_rate.
  rewrite <- Hraw.
  unfold acquired in Ha.
  destruct (in_gyro_rx i) as [g|]; [|discriminate].
  apply negb_true_iff in Ha.
  rewrite (updateSensors_success _ dev g _ Ha).
  unfold us_raw. cbn [fst snd gyros].
  apply correct_gyros_nan.
  - exact (eq_trans Hbc Hb).
  - assert (Hg2 : gyro_correct_int (PIOS_WDG_UpdateFlag (startup_policy s i))
                  = gyro_correct_int s) by exact Hg.
    rewrite Hg2. exact Hn.
Qed.

Lemma AttitudeTask_cycle_keeps_poison (s : state) (dev : D) (i : cycle_input) :
  bias_correct_gyro s = true ->
  vec3_has_nan (gyro_correct_int s) = true ->
  bias_correct_gyro (fst (AttitudeTask_cycle s dev i)) = true /\
  vec3_has_nan (gyro_correct_int (fst (AttitudeTask_cycle s dev i))) = true.
Proof.
  intros Hb Hn. split.
  - destruct (AttitudeTask_cycle_bias s dev i) as (a0 & a1 & a2 & _ & Hbc).
    rewrite Hbc. exact Hb.
  - destruct (AttitudeTask_cycle_bias_nan s dev i) as (C0 & C1 & C2).
    apply vec3_has_nan_intro.
    unfold vec3_has_nan in Hn.
    apply orb_true_iff in Hn. destruct Hn as [Hn | Hn];
      [apply orb_true_iff in Hn; destruct Hn as [Hn | Hn]|]; tauto.
Qed.

(** X11.  With gyro bias correction enabled, a NaN in the gyro bias integral
    pins the attitude: every pass that acquires its data ends in the
    defensive re-initialisation, so after any run of passes of which at least
    one acquired its data the quaternion held and published is the identity,
    and the bias integral still holds a NaN.  (Only a settings update, which
    rewrites the integral, ends this.) *)
Theorem nan_bias_pins_attitude (passes : list (cycle_input * D)) (s : state) :
  bias_correct_gyro s = true ->
  vec3_has_nan (gyro_correct_int s) = true ->
  existsb (fun p => acquired (fst p) (snd p)) passes = true ->
  q (AttitudeTask_loop passes s) = quat_identity /\
  (actual_q (attitudeActual_obj s) = q s ->
   actual_q (attitudeActual_obj (AttitudeTask_loop passes s)) = quat_identity) /\
  vec3_has_nan (gyro_correct_int (AttitudeTask_loop passes s)) = true /\
  bias_correct_gyro (AttitudeTask_loop passes s) = true.
Proof.
  intros Hb Hn Hex.
  assert (Hkeep : forall (l : list (cycle_input * D)) (s0 : state),
             bias_correct_gyro s0 = true ->
             vec3_has_nan (gyro_correct_int s0) = true ->
             bias_correct_gyro (AttitudeTask_loop l s0) = true /\
             vec3_has_nan (gyro_correct_int (AttitudeTask_loop l s0)) = true).
  { induction l as [|[i dev] l IH]; intros s0 Hb0 Hn0; cbn [AttitudeTask_loop].
    - split; assumption.
    - destruct (AttitudeTask_cycle_keeps_poison s0 dev i Hb0 Hn0) as [Hb1 Hn1].
      apply IH; assumption. }
  assert (Hq : forall (l : list (cycle_input * D)) (s0 : state),
             bias_correct_gyro s0 = true ->
             vec3_has_nan (gyro_correct_int s0) = true ->
             existsb (fun p => acquired (fst p) (snd p)) l = true \/
             q s0 = quat_identity ->
             q (AttitudeTask_loop l s0) = quat_identity).
  { induction l as [|[i dev] l IH]; intros s0 Hb0 Hn0 Hor;
      cbn [AttitudeTask_loop existsb fst snd] in *.
    - destruct Hor as [Hf | Hq0]; [discriminate|exact Hq0].
    - destruct (AttitudeTask_cycle_keeps_poison s0 dev i Hb0 Hn0) as [Hb1 Hn1].
      apply IH; try assumption.
      destruct (acquired i dev) eqn:Ha.
      + right. apply AttitudeTask_cycle_poisoned; assumption.
      + cbn [orb] in Hor. destruct Hor as [Hex' | Hq0]; [left; exact Hex'|].
        right. destruct (AttitudeTask_cycle_failed_frame s0 dev i Ha) as (Hq1 & _).
        rewrite Hq1. exact Hq0. }
  assert (Hqf : q (AttitudeTask_loop passes s) = quat_identity)
    by (apply Hq; [exact Hb|exact Hn|left; exact Hex]).
  split; [exact Hqf|].
  split.
  { intros Hinv.
    rewrite (proj1 (AttitudeTask_loop_published passes s) Hinv). exact Hqf. }
  destruct (Hkeep passes s Hb Hn) as [Hb' Hn']. split; assumption.
Qed.
End StuckAtIdentity.

Lemma nan_bias_pins_attitude_witness :
  bias_correct_gyro
    (set_gyro_correct_int initial_state (mkVec3 S754_nan F32.zero F32.zero)) = true /\
  vec3_has_nan
    (gyro_correct_int
       (set_gyro_correct_int initial_state (mkVec3 S754_nan F32.zero F32.zero)))
  = true /\
  existsb (fun p => acquired (fst p) (snd p))
          [(input_at 8000 (Some neutral_gyro), one_sample)] = true /\
  q (AttitudeTask_loop (ML := RefLibm.lib)
       [(input_at 8000 (Some neutral_gyro), one_sample)]
       (set_gyro_correct_int initial_state (mkVec3 S754_nan F32.zero F32.zero)))
  = quat_identity.
Proof.
  assert (H1 : bias_correct_gyro
                 (set_gyro_correct_int initial_state
                    (mkVec3 S754_nan F32.zero F32.zero)) = true) by reflexivity.
  assert (H2 : vec3_has_nan
                 (gyro_correct_int
                    (set_gyro_correct_int initial_state
                       (mkVec3 S754_nan F32.zero F32.zero))) = true)
    by reflexivity.
  assert (H3 : existsb (fun p => acquired (fst p) (snd p))
                       [(input_at 8000 (Some neutral_gyro), one_sample)] = true)
    by reflexivity.
  split; [exact H1|]. split; [exact H2|]. split; [exact H3|].
  exact (proj1 (nan_bias_pins_attitude (ML := RefLibm.lib)
                  [(input_at 8000 (Some neutral_gyro), one_sample)]
                  (set_gyro_correct_int initial_state
                     (mkVec3 S754_nan F32.zero F32.zero))
                  H1 H2 H3)).
Defined.

(** ** How a NaN enters: the arc cosine of an unnormalised dot product *)

Lemma vec3_mag_nan : vec3_mag (mkVec3 S754_nan S754_nan S754_nan) = S754_nan.
Proof. reflexivity. Qed.

Lemma gravity_error_nan {ML : MathLib} (accels grot : vec3) :
  acosf (vec3_dot accels grot) = S754_nan ->
  gtb (vec3_mag (CrossProduct accels grot)) F32.zero = true ->
  gravity_error accels grot = mkVec3 S754_nan S754_nan S754_nan.
Proof.
  intros Hacos Hmag. unfold gravity_error. cbv zeta.
  rewrite Hmag, Hacos. nan_simpl. reflexivity.
Qed.

Lemma reject_linear_accel_nan {ML : MathLib} (accels : vec3) :
  F32.leb (vec3_mag accels) f_9_8
  || gtb (vec3_mag accels) (F32.mul f_1_5 f_9_8) = false ->
  reject_linear_accel accels (mkVec3 S754_nan S754_nan S754_nan)
  = mkVec3 S754_nan S754_nan S754_nan.
Proof.
  intros Hband. unfold reject_linear_accel. cbv zeta.
  rewrite Hband, vec3_mag_nan. reflexivity.
Qed.

(** X12.  The error angle is the arc cosine of the dot product of the
    accelerometer reading (in m/s^2, not normalised) with the gravity
    direction.  When [acosf] returns NaN for it, as the C library does for an
    argument outside [-1, 1], while the cross product is not zero and the
    magnitude of the acceleration lies in the accepted band, the whole error
    vector is NaN: the step writes NaN into [gyro_correct_int[0]] and
    [gyro_correct_int[1]] and resets the quaternion to the identity. *)
Theorem acos_nan_poisons_bias {ML : MathLib} (s : state) (thisSysTime : Z)
        (attitudeRaw : AttitudeRawData) :
  acosf (vec3_dot (accels attitudeRaw) (grot_of (q s))) = S754_nan ->
  gtb (vec3_mag (CrossProduct (accels attitudeRaw) (grot_of (q s)))) F32.zero
  = true ->
  F32.leb (vec3_mag (accels attitudeRaw)) f_9_8
  || gtb (vec3_mag (accels attitudeRaw)) (F32.mul f_1_5 f_9_8) = false ->
  accel_err_of (q s) (accels attitudeRaw) = mkVec3 S754_nan S754_nan S754_nan /\
  v0 (gyro_correct_int (updateAttitude s thisSysTime attitudeRaw)) = S754_nan /\
  v1 (gyro_correct_int (updateAttitude s thisSysTime attitudeRaw)) = S754_nan /\
  v2 (gyro_correct_int (updateAttitude s thisSysTime attitudeRaw))
  = v2 (gyro_correct_int s) /\
  q (updateAttitude s thisSysTime attitudeRaw) = quat_identity.
Proof.
  intros Hacos Hmag Hband.
  assert (He : accel_err_of (q s) (accels attitudeRaw)
               = mkVec3 S754_nan S754_nan S754_nan).
  { unfold accel_err_of.
    rewrite (gravity_error_nan _ _ Hacos Hmag).
    apply reject_linear_accel_nan. exact Hband. }
  split; [exact He|].
  rewrite updateAttitude_bias, He. cbn [v0 v1 v2]. nan_simpl.
  split; [reflexivity|]. split; [reflexivity|]. split; [reflexivity|].
  rewrite updateAttitude_q. unfold propagated_q. cbv zeta. rewrite He.
  rewrite propagate_nan; [apply renormalize_nan|].
  unfold correct_rates, vec3_has_nan. cbn [v0 v1 v2]. nan_simpl. reflexivity.
Qed.

Lemma acos_nan_poisons_bias_witness :
  acosf (MathLib := RefLibm.lib)
    (vec3_dot (mkVec3 (F32.of_Z 1) F32.zero (F32.of_Z (-10)))
              (grot_of (q initial_state))) = S754_nan /\
  gtb (vec3_mag (CrossProduct (mkVec3 (F32.of_Z 1) F32.zero (F32.of_Z (-10)))
                              (grot_of (q initial_state)))) F32.zero = true /\
  F32.leb (vec3_mag (mkVec3 (F32.of_Z 1) F32.zero (F32.of_Z (-10)))) f_9_8
  || gtb (vec3_mag (mkVec3 (F32.of_Z 1) F32.zero (F32.of_Z (-10))))
         (F32.mul f_1_5 f_9_8) = false /\
  v0 (gyro_correct_int
        (updateAttitude (ML := RefLibm.lib) initial_state 5
           (mkRaw (mkVec3 (F32.of_Z 1) F32.zero (F32.of_Z (-10))) vec3_zero
                  F32.zero F32.zero))) = S754_nan.
Proof.
  assert (H1 : acosf (MathLib := RefLibm.lib)
                 (vec3_dot (mkVec3 (F32.of_Z 1) F32.zero (F32.of_Z (-10)))
                           (grot_of (q initial_state))) = S754_nan)
    by (vm_compute; reflexivity).
  assert (H2 : gtb (vec3_mag (CrossProduct
                                (mkVec3 (F32.of_Z 1) F32.zero (F32.of_Z (-10)))
                                (grot_of (q initial_state)))) F32.zero = true)
    by (vm_compute; reflexivity).
  assert (H3 : F32.leb (vec3_mag (mkVec3 (F32.of_Z 1) F32.zero (F32.of_Z (-10))))
                       f_9_8
               || gtb (vec3_mag (mkVec3 (F32.of_Z 1) F32.zero (F32.of_Z (-10))))
                      (F32.mul f_1_5 f_9_8) = false)
    by (vm_compute; reflexivity).
  split; [exact H1|]. split; [exact H2|]. split; [exact H3|].
  apply (acos_nan_poisons_bias (ML := RefLibm.lib) initial_state 5
           (mkRaw (mkVec3 (F32.of_Z 1) F32.zero (F32.of_Z (-10))) vec3_zero
                  F32.zero F32.zero) H1 H2 H3).
Defined.

(** ** Settings updates *)

Section SettingsFacts.
Context {RL : RotationLib}.

(** What [settingsUpdatedCb] writes, field by field. *)
Lemma settingsUpdatedCb_fields (s : state) (cfg : AttitudeSettingsData) :
  accelKp (settingsUpdatedCb s cfg) = AccelKp cfg /\
  accelKi (settingsUpdatedCb s cfg) = AccelKi cfg /\
  yawBiasRate (settingsUpdatedCb s cfg) = YawBiasRate cfg /\
  gyroGain (settingsUpdatedCb s cfg) = GyroGain cfg /\
  accelbias (settingsUpdatedCb s cfg) = AccelBias cfg /\
  zero_during_arming (settingsUpdatedCb s cfg)
  = (ZeroDuringArming cfg =? ATTITUDESETTINGS_ZERODURINGARMING_TRUE) /\
  bias_correct_gyro (settingsUpdatedCb s cfg)
  = (BiasCorrectGyro cfg =? ATTITUDESETTINGS_BIASCORRECTGYRO_TRUE) /\
  rotate (settingsUpdatedCb s cfg) = (if no_board_rotation cfg then 0 else 1) /\
  gyro_correct_int (settingsUpdatedCb s cfg)
  = mkVec3 (gyro_bias_seed (fst (fst (GyroBias cfg))))
           (gyro_bias_seed (snd (fst (GyroBias cfg))))
           (gyro_bias_seed (snd (GyroBias cfg))) /\
  q (settingsUpdatedCb s cfg) = q s /\
  init (settingsUpdatedCb s cfg) = init s /\
  lastSysTime (settingsUpdatedCb s cfg) = lastSysTime s /\
  alarm_attitude (settingsUpdatedCb s cfg) = alarm_attitude s /\
  attitudeRaw_obj (settingsUpdatedCb s cfg) = attitudeRaw_obj s /\
  attitudeActual_obj (settingsUpdatedCb s cfg) = attitudeActual_obj s.
Proof.
  unfold settingsUpdatedCb.
  destruct (GyroBias cfg) as [[g0 g1] g2].
  destruct (BoardRotation cfg) as [[r0 r1] r2].
  repeat split.
Qed.

Section WithDriver.
Context {ML : MathLib} {D : Type} `{Adxl345 D}.

(** A pass leaves the gains, the gyro gain and [init] as the gain policy of
    lines 185-203 set them. *)
Lemma AttitudeTask_cycle_gains (s : state) (dev : D) (i : cycle_input) :
  accelKp (fst (AttitudeTask_cycle s dev i)) = accelKp (startup_policy s i) /\
  accelKi (fst (AttitudeTask_cycle s dev i)) = accelKi (startup_policy s i) /\
  yawBiasRate (fst (AttitudeTask_cycle s dev i)) = yawBiasRate (startup_policy s i) /\
  gyroGain (fst (AttitudeTask_cycle s dev i)) = gyroGain (startup_policy s i) /\
  init (fst (AttitudeTask_cycle s dev i)) = init (startup_policy s i).
Proof.
  destruct (acquired i dev) eqn:Ha.
  - destruct (AttitudeTask_cycle_acquired s dev i Ha) as (raw' & _ & Hc).
    rewrite Hc. cbn [fst].
    set (s3 := yaw_bias_update (PIOS_WDG_UpdateFlag (startup_policy s i))
                 (v2 (gyros raw'))).
    destruct (pass_epilogue_frame (updateAttitude s3 (in_tick_c i) raw') raw')
      as (_ & _ & _ & _ & _ & _ & Hkp & Hki & Hy & Hg & Hi & _).
    destruct (updateAttitude_frame s3 (in_tick_c i) raw')
      as (Uki & Ukp & Uy & Ug & _ & _ & _ & _ & _ & Ui & _).
    rewrite Hkp, Hki, Hy, Hg, Hi, Uki, Ukp, Uy, Ug, Ui.
    repeat split.
  - rewrite (AttitudeTask_cycle_failed s dev i Ha). repeat split.
Qed.

(** X13.  Outside the startup window and with the arming condition false,
    the pass that follows a settings update runs with exactly the configured
    gains, whatever [init] was: the callback has stored them, and the pass
    either reloads the same values from the settings object or leaves them
    alone.  The gyro gain is the configured one in any case, and [init] is
    not zero afterwards. *)
Theorem settings_gains_in_force (s : state) (cfg : AttitudeSettingsData)
        (dev : D) (i : cycle_input) :
  in_startup_window (in_tick_a i) (in_tick_b i) = false ->
  arming_condition (settingsUpdatedCb s cfg) (in_armed i) = false ->
  in_settings_AccelKp i = AccelKp cfg ->
  in_settings_AccelKi i = AccelKi cfg ->
  in_settings_YawBiasRate i = YawBiasRate cfg ->
  accelKp (fst (AttitudeTask_cycle (settingsUpdatedCb s cfg) dev i)) = AccelKp cfg /\
  accelKi (fst (AttitudeTask_cycle (settingsUpdatedCb s cfg) dev i)) = AccelKi cfg /\
  yawBiasRate (fst (AttitudeTask_cycle (settingsUpdatedCb s cfg) dev i))
  = YawBiasRate cfg /\
  gyroGain (fst (AttitudeTask_cycle (settingsUpdatedCb s cfg) dev i)) = GyroGain cfg /\
  init (fst (AttitudeTask_cycle (settingsUpdatedCb s cfg) dev i)) <> 0.
Proof.
  intros Hwin Harm Hkp Hki Hy.
  destruct (AttitudeTask_cycle_gains (settingsUpdatedCb s cfg) dev i)
    as (Gkp & Gki & Gy & Gg & Gi).
  rewrite Gkp, Gki, Gy, Gg, Gi.
  destruct (settingsUpdatedCb_fields s cfg)
    as (Fkp & Fki & Fy & Fg & _ & _ & _ & _ & _ & _ & Fi & _).
  unfold startup_policy, select_gain_branch. rewrite Hwin, Harm.
  destruct (init (settingsUpdatedCb s cfg) =? 0) eqn:Hinit.
  - cbn [accelKp accelKi yawBiasRate gyroGain init set_gains].
    rewrite Hkp, Hki, Hy, Fg. repeat split. discriminate.
  - rewrite Fkp, Fki, Fy, Fg. repeat split.
    apply Z.eqb_neq. exact Hinit.
Qed.
End WithDriver.
End SettingsFacts.


Lemma settings_gains_in_force_witness :
  in_startup_window (in_tick_a (input_at 8000 (Some neutral_gyro)))
                    (in_tick_b (input_at 8000 (Some neutral_gyro))) = false /\
  accelKp
    (fst (AttitudeTask_cycle (ML := RefLibm.lib)
            (settingsUpdatedCb (RL := RefRotation.lib) initial_state example_settings)
            one_sample (input_at 8000 (Some neutral_gyro))))
  = AccelKp example_settings.
Proof.
  split; [reflexivity|].
  apply (settings_gains_in_force (RL := RefRotation.lib) (ML := RefLibm.lib)
           initial_state example_settings one_sample
           (input_at 8000 (Some neutral_gyro)));
    reflexivity.
Defined.

(** X14.  A settings update sets [rotate] exactly when one of the three
    board-rotation angles is not zero, and rebuilds [R] from the identity
    quaternion or from the quaternion of the three angles accordingly.  With
    all three angles zero the conditioning that follows does not use [R]:
    the published accelerations are the bias-corrected, scaled averages and
    the published rates the bias-corrected converted counts. *)
Theorem board_rotation_flag {RL : RotationLib} {D : Type} `{Adxl345 D}
        (s : state) (cfg : AttitudeSettingsData) (dev : D) (g : gyro_sample)
        (raw : AttitudeRawData) :
  (rotate (settingsUpdatedCb s cfg) = 0 <-> BoardRotation cfg = (0, 0, 0)) /\
  (rotate (settingsUpdatedCb s cfg) = 1 <-> BoardRotation cfg <> (0, 0, 0)) /\
  R (settingsUpdatedCb s cfg)
  = Quaternion2R
      (if no_board_rotation cfg then quat_identity
       else RPY2Quaternion
              (mkVec3 (F32.of_Z (fst (fst (BoardRotation cfg))))
                      (F32.of_Z (snd (fst (BoardRotation cfg))))
                      (F32.of_Z (snd (BoardRotation cfg))))) /\
  (BoardRotation cfg = (0, 0, 0) ->
   PIOS_ADXL345_FifoElements dev <> 0 ->
   accels (us_raw (updateSensors (settingsUpdatedCb s cfg) dev (Some g) raw))
   = scale_accels (settingsUpdatedCb s cfg) (accel_average (drain dev)) /\
   gyros (us_raw (updateSensors (settingsUpdatedCb s cfg) dev (Some g) raw))
   = correct_gyros (settingsUpdatedCb s cfg)
       (gyros_from_counts (GyroGain cfg) g)).
Proof.
  assert (Hnb : no_board_rotation cfg = true <-> BoardRotation cfg = (0, 0, 0)).
  { unfold no_board_rotation. destruct (BoardRotation cfg) as [[r0 r1] r2].
    rewrite !andb_true_iff, !Z.eqb_eq. split.
    - intros [[-> ->] ->]. reflexivity.
    - intros Heq. inversion Heq. repeat split. }
  destruct (settingsUpdatedCb_fields s cfg)
    as (_ & _ & _ & Fg & _ & _ & _ & Fr & _).
  assert (HR : R (settingsUpdatedCb s cfg)
               = Quaternion2R
                   (if no_board_rotation cfg then quat_identity
                    else RPY2Quaternion
                           (mkVec3 (F32.of_Z (fst (fst (BoardRotation cfg))))
                                   (F32.of_Z (snd (fst (BoardRotation cfg))))
                                   (F32.of_Z (snd (BoardRotation cfg)))))).
  { unfold settingsUpdatedCb.
    destruct (GyroBias cfg) as [[g0 g1] g2].
    destruct (BoardRotation cfg) as [[r0 r1] r2]. reflexivity. }
  rewrite Fr.
  split; [|split; [|split; [exact HR|]]].
  - destruct (no_board_rotation cfg) eqn:Hn.
    + split; [intros _; apply Hnb; reflexivity|reflexivity].
    + split; [discriminate|]. intros Hz. apply Hnb in Hz. discriminate.
  - destruct (no_board_rotation cfg) eqn:Hn.
    + split; [discriminate|]. intros Hne. exfalso. apply Hne. apply Hnb. reflexivity.
    + split; [|reflexivity]. intros _ Hz. apply Hnb in Hz. discriminate.
  - intros Hz Hf. apply Hnb in Hz. apply Z.eqb_neq in Hf.
    rewrite (updateSensors_success _ dev g raw Hf).
    unfold us_raw. cbn [fst snd accels gyros].
    unfold apply_rotation. rewrite Fr, Hz, Fg. cbn [Z.eqb negb fst snd].
    split; reflexivity.
Qed.

(** The seed of the bias integral is a finite number for every [int16_t]
    value of the persisted bias. *)
Lemma gyro_bias_seed_finite (g : Z) :
  -32768 <= g <= 32767 -> is_finite (gyro_bias_seed g) = true.
Proof.
  intros Hg. unfold gyro_bias_seed.
  change (F32.of_Z 100) with (S754_finite false 13107200 (-17)).
  assert (Hnz : forall (sg : bool) (p : positive),
             Zpos p <= 32768 ->
             is_finite (F32.div (binary_round F32.prec F32.emax sg p 0)
                                (S754_finite false 13107200 (-17))) = true).
  { intros sg p Hp.
    pose proof (digits2_pos_bounds p) as [Blo Bhi].
    assert (Hd : Zpos (digits2_pos p) - 1 < 16).
    { apply (Z.pow_lt_mono_r_iff 2); [lia|lia|].
      change (2 ^ 16) with 65536. lia. }
    destruct (binary_round_normal F32.prec F32.emax eq_refl sg p 0)
      as (m & e & Hr & Hdm & He).
    - unfold emin, F32.prec, F32.emax. lia.
    - unfold F32.prec, F32.emax. lia.
    - rewrite Hr. unfold F32.prec in He.
      destruct (SFdiv_normal F32.prec F32.emax eq_refl sg false m 13107200 e (-17))
        as (m1 & e1 & Hq & _ & _); try assumption; try reflexivity.
      + unfold emin, F32.prec, F32.emax. lia.
      + unfold F32.prec, F32.emax. lia.
      + unfold F32.div. rewrite Hq. reflexivity. }
  destruct g as [|p|p].
  - reflexivity.
  - apply (Hnz false p). lia.
  - apply (Hnz true p). lia.
Qed.

(** X15.  A settings update discards the bias the filter has learned and
    seeds the integral with the persisted bias divided by 100: for every
    [int16_t] bias the three seeds are finite numbers, so a NaN in the
    integral does not survive the update; the attitude itself is left
    alone. *)
Theorem settings_update_reseeds_bias {RL : RotationLib} (s : state)
        (cfg : AttitudeSettingsData) :
  -32768 <= fst (fst (GyroBias cfg)) <= 32767 ->
  -32768 <= snd (fst (GyroBias cfg)) <= 32767 ->
  -32768 <= snd (GyroBias cfg) <= 32767 ->
  gyro_correct_int (settingsUpdatedCb s cfg)
  = mkVec3 (F32.div (F32.of_Z (fst (fst (GyroBias cfg)))) (F32.of_Z 100))
           (F32.div (F32.of_Z (snd (fst (GyroBias cfg)))) (F32.of_Z 100))
           (F32.div (F32.of_Z (snd (GyroBias cfg))) (F32.of_Z 100)) /\
  is_finite (v0 (gyro_correct_int (settingsUpdatedCb s cfg))) = true /\
  is_finite (v1 (gyro_correct_int (settingsUpdatedCb s cfg))) = true /\
  is_finite (v2 (gyro_correct_int (settingsUpdatedCb s cfg))) = true /\
  vec3_has_nan (gyro_correct_int (settingsUpdatedCb s cfg)) = false /\
  q (settingsUpdatedCb s cfg) = q s /\
  attitudeActual_obj (settingsUpdatedCb s cfg) = attitudeActual_obj s.
Proof.
  intros H0 H1 H2.
  destruct (settingsUpdatedCb_fields s cfg)
    as (_ & _ & _ & _ & _ & _ & _ & _ & Fb & Fq & _ & _ & _ & _ & Fa).
  rewrite Fb, Fq, Fa. cbn [v0 v1 v2].
  pose proof (gyro_bias_seed_finite _ H0) as F0.
  pose proof (gyro_bias_seed_finite _ H1) as F1.
  pose proof (gyro_bias_seed_finite _ H2) as F2.
  split; [reflexivity|].
  split; [exact F0|]. split; [exact F1|]. split; [exact F2|].
  split; [|split; reflexivity].
  unfold vec3_has_nan. cbn [v0 v1 v2].
  destruct (gyro_bias_seed (fst (fst (GyroBias cfg)))); try discriminate;
    destruct (gyro_bias_seed (snd (fst (GyroBias cfg)))); try discriminate;
    destruct (gyro_bias_seed (snd (GyroBias cfg))); try discriminate;
    reflexivity.
Qed.

Lemma settings_update_reseeds_bias_witness :
  -32768 <= fst (fst (GyroBias example_settings)) <= 32767 /\
  -32768 <= snd (fst (GyroBias example_settings)) <= 32767 /\
  -32768 <= snd (GyroBias example_settings) <= 32767 /\
  vec3_has_nan
    (gyro_correct_int
       (settingsUpdatedCb (RL := RefRotation.lib)
          (set_gyro_correct_int initial_state (mkVec3 S754_nan F32.zero F32.zero))
          example_settings)) = false.
Proof.
  assert (H0 : -32768 <= fst (fst (GyroBias example_settings)) <= 32767)
    by (cbn; lia).
  assert (H1 : -32768 <= snd (fst (GyroBias example_settings)) <= 32767)
    by (cbn; lia).
  assert (H2 : -32768 <= snd (GyroBias example_settings) <= 32767)
    by (cbn; lia).
  split; [exact H0|]. split; [exact H1|]. split; [exact H2|].
  apply (settings_update_reseeds_bias (RL := RefRotation.lib)
           (set_gyro_correct_int initial_state (mkVec3 S754_nan F32.zero F32.zero))
           example_settings H0 H1 H2).
Defined.

(** ** Steps without accelerometer feedback *)

Lemma is_zero_eq (x : spec_float) : is_zero x = true -> exists sg, x = S754_zero sg.
Proof. destruct x as [sg| | |]; try discriminate. intros _. exists sg. reflexivity. Qed.

Lemma F32_mul_zero_l (z x : float32) :
  is_zero z = true -> is_finite x = true -> is_zero (F32.mul z x) = true.
Proof.
  intros Hz Hx. apply is_zero_eq in Hz. destruct Hz as [sg ->].
  destruct x; try discriminate; reflexivity.
Qed.

Lemma F32_mul_zero_r (x z : float32) :
  is_finite x = true -> is_zero z = true -> is_zero (F32.mul x z) = true.
Proof.
  intros Hx Hz. apply is_zero_eq in Hz. destruct Hz as [sg ->].
  destruct x; try discriminate; reflexivity.
Qed.

Lemma F32_add_zero_zero (x y : float32) :
  is_zero x = true -> is_zero y = true -> is_zero (F32.add x y) = true.
Proof.
  intros Hx Hy. apply is_zero_eq in Hx, Hy.
  destruct Hx as [sx ->], Hy as [sy ->]. destruct sx, sy; reflexivity.
Qed.

Lemma F32_sub_zero_zero (x y : float32) :
  is_zero x = true -> is_zero y = true -> is_zero (F32.sub x y) = true.
Proof.
  intros Hx Hy. apply is_zero_eq in Hx, Hy.
  destruct Hx as [sx ->], Hy as [sy ->]. destruct sx, sy; reflexivity.
Qed.

Lemma F32_neg_zero (x : float32) : is_zero x = true -> is_zero (F32.neg x) = true.
Proof. destruct x; try discriminate; reflexivity. Qed.

Lemma F32_div_zero_l (z : float32) (sg : bool) (m : positive) (e : Z) :
  is_zero z = true -> is_zero (F32.div z (S754_finite sg m e)) = true.
Proof.
  intros Hz. apply is_zero_eq in Hz. destruct Hz as [sz ->]. reflexivity.
Qed.

(** Adding a zero leaves a float as it is, up to the sign of a zero. *)
Lemma F32_add_zero_r (x z : float32) :
  is_zero z = true -> same_value (F32.add x z) x.
Proof.
  intros Hz. apply is_zero_eq in Hz. destruct Hz as [sz ->].
  destruct x as [sx|sx| |sx mx ex].
  - right. split; [destruct sx, sz|]; reflexivity.
  - left. reflexivity.
  - left. reflexivity.
  - left. reflexivity.
Qed.

(** The time step of a 32-bit tick counter is a positive finite number. *)
Lemma compute_dT_finite (thisSysTime lastSysTime : Z) :
  0 <= thisSysTime < 4294967296 ->
  0 <= lastSysTime < 4294967296 ->
  exists (m : positive) (e : Z),
    compute_dT thisSysTime lastSysTime = S754_finite false m e.
Proof.
  intros Ht Hl. unfold compute_dT.
  destruct (thisSysTime =? lastSysTime) eqn:Heq.
  - exists 8589935%positive, (-33). vm_compute. reflexivity.
  - apply Z.eqb_neq in Heq.
    apply tick_quotient_positive.
    apply tick_difference_range; assumption.
Qed.

Lemma accel_err_rejected {ML : MathLib} (qq : quat) (accels : vec3) :
  F32.leb (vec3_mag accels) f_9_8
  || gtb (vec3_mag accels) (F32.mul f_1_5 f_9_8) = true ->
  accel_err_of qq accels = mkVec3 (F32.of_Z 0) (F32.of_Z 0) (F32.of_Z 0).
Proof.
  intros Hrej. unfold accel_err_of, reject_linear_accel. cbv zeta.
  rewrite Hrej. reflexivity.
Qed.

(** With an error vector of zeros, finite gains and a finite nonzero time
    step, the bias integral and the rates come out of the feedback stage
    with their values. *)
Lemma zero_error_feedback (kp ki : float32) (m : positive) (e : Z)
      (b gyro err : vec3) :
  vec3_is_zero err = true -> is_finite kp = true -> is_finite ki = true ->
  same_value (F32.add (v0 b) (F32.mul (v0 err) ki)) (v0 b) /\
  same_value (F32.add (v1 b) (F32.mul (v1 err) ki)) (v1 b) /\
  vec3_same_value (correct_rates kp (S754_finite false m e) gyro err) gyro.
Proof.
  intros Hz Hkp Hki. unfold vec3_is_zero in Hz.
  apply andb_true_iff in Hz. destruct Hz as [Hz Hz2].
  apply andb_true_iff in Hz. destruct Hz as [Hz0 Hz1].
  split; [apply F32_add_zero_r, F32_mul_zero_l; assumption|].
  split; [apply F32_add_zero_r, F32_mul_zero_l; assumption|].
  unfold vec3_same_value, correct_rates. cbn [v0 v1 v2].
  repeat split; apply F32_add_zero_r, F32_div_zero_l, F32_mul_zero_l; assumption.
Qed.

(** X16.  When the magnitude of the acceleration is outside the accepted
    band ([<= 9.8f] or [> 1.5f * 9.8f]), the accelerometer has no influence
    on the step: with finite gains and 32-bit tick counts,
    [gyro_correct_int[0]] and [gyro_correct_int[1]] keep their values (up to
    the sign of a zero), [gyro_correct_int[2]] is untouched, and the
    quaternion is propagated with rates that have the values of the measured
    ones. *)
Theorem rejected_accel_is_pure_gyro_step {ML : MathLib} (s : state)
        (thisSysTime : Z) (attitudeRaw : AttitudeRawData) :
  F32.leb (vec3_mag (accels attitudeRaw)) f_9_8
  || gtb (vec3_mag (accels attitudeRaw)) (F32.mul f_1_5 f_9_8) = true ->
  is_finite (accelKp s) = true ->
  is_finite (accelKi s) = true ->
  0 <= thisSysTime < 4294967296 ->
  0 <= lastSysTime s < 4294967296 ->
  same_value (v0 (gyro_correct_int (updateAttitude s thisSysTime attitudeRaw)))
             (v0 (gyro_correct_int s)) /\
  same_value (v1 (gyro_correct_int (updateAttitude s thisSysTime attitudeRaw)))
             (v1 (gyro_correct_int s)) /\
  v2 (gyro_correct_int (updateAttitude s thisSysTime attitudeRaw))
  = v2 (gyro_correct_int s) /\
  exists rates : vec3,
    vec3_same_value rates (gyros attitudeRaw) /\
    q (updateAttitude s thisSysTime attitudeRaw)
    = renormalize
        (propagate (q s) rates (compute_dT thisSysTime (lastSysTime s))).
Proof.
  intros Hrej Hkp Hki Ht Hl.
  pose proof (accel_err_rejected (q s) (accels attitudeRaw) Hrej) as He.
  destruct (compute_dT_finite thisSysTime (lastSysTime s) Ht Hl) as (m & e & HdT).
  destruct (zero_error_feedback (accelKp s) (accelKi s) m e (gyro_correct_int s)
              (gyros attitudeRaw)
              (mkVec3 (F32.of_Z 0) (F32.of_Z 0) (F32.of_Z 0))
              eq_refl Hkp Hki) as (B0 & B1 & Hr).
  rewrite updateAttitude_bias, He. cbn [v0 v1 v2].
  split; [exact B0|]. split; [exact B1|]. split; [reflexivity|].
  exists (correct_rates (accelKp s) (compute_dT thisSysTime (lastSysTime s))
            (gyros attitudeRaw)
            (mkVec3 (F32.of_Z 0) (F32.of_Z 0) (F32.of_Z 0))).
  split.
  - rewrite HdT. exact Hr.
  - rewrite updateAttitude_q. unfold propagated_q. cbv zeta. rewrite He.
    reflexivity.
Qed.

Lemma rejected_accel_is_pure_gyro_step_witness :
  F32.leb (vec3_mag (accels zero_raw)) f_9_8
  || gtb (vec3_mag (accels zero_raw)) (F32.mul f_1_5 f_9_8) = true /\
  is_finite (accelKp initial_state) = true /\
  is_finite (accelKi initial_state) = true /\
  0 <= 5 < 4294967296 /\
  0 <= lastSysTime initial_state < 4294967296 /\
  v2 (gyro_correct_int (updateAttitude (ML := RefLibm.lib) initial_state 5 zero_raw))
  = v2 (gyro_correct_int initial_state).
Proof.
  assert (H1 : F32.leb (vec3_mag (accels zero_raw)) f_9_8
               || gtb (vec3_mag (accels zero_raw)) (F32.mul f_1_5 f_9_8) = true)
    by (vm_compute; reflexivity).
  assert (H2 : is_finite (accelKp initial_state) = true) by reflexivity.
  assert (H3 : is_finite (accelKi initial_state) = true) by reflexivity.
  assert (H4 : 0 <= 5 < 4294967296) by lia.
  assert (H5 : 0 <= lastSysTime initial_state < 4294967296) by (cbn; lia).
  split; [exact H1|]. split; [exact H2|]. split; [exact H3|].
  split; [exact H4|]. split; [exact H5|].
  apply (rejected_accel_is_pure_gyro_step (ML := RefLibm.lib) initial_state 5
           zero_raw H1 H2 H3 H4 H5).
Defined.

(** ** Level and at rest *)

Lemma vec3_is_zero_cases (v : vec3) :
  vec3_is_zero v = true ->
  exists a b c, v = mkVec3 (S754_zero a) (S754_zero b) (S754_zero c).
Proof.
  destruct v as [x y z]. unfold vec3_is_zero. cbn [v0 v1 v2]. intros Hz.
  apply andb_true_iff in Hz. destruct Hz as [Hz Hz2].
  apply andb_true_iff in Hz. destruct Hz as [Hz0 Hz1].
  apply is_zero_eq in Hz0, Hz1, Hz2.
  destruct Hz0 as [a ->], Hz1 as [b ->], Hz2 as [c ->].
  exists a, b, c. reflexivity.
Qed.

Lemma vec3_mag_zero (v : vec3) :
  vec3_is_zero v = true -> vec3_mag v = S754_zero false.
Proof.
  intros Hz. apply vec3_is_zero_cases in Hz. destruct Hz as (a & b & c & ->).
  destruct a, b, c; reflexivity.
Qed.

Lemma grot_of_identity :
  grot_of quat_identity
  = mkVec3 (S754_zero true) (S754_zero true) (F32.of_Z (-1)).
Proof. reflexivity. Qed.

(** With the craft level, the cross product of the acceleration and the
    gravity direction is a vector of zeros. *)
Lemma level_cross_product (ax ay az : float32) :
  is_zero ax = true -> is_zero ay = true -> is_finite az = true ->
  vec3_is_zero
    (CrossProduct (mkVec3 ax ay az)
       (mkVec3 (S754_zero true) (S754_zero true) (F32.of_Z (-1)))) = true.
Proof.
  intros Hx Hy Hz. apply is_zero_eq in Hx, Hy.
  destruct Hx as [sx ->], Hy as [sy ->].
  destruct az as [sz|sz| |sz mz ez]; try discriminate;
    destruct sx, sy, sz; reflexivity.
Qed.

Lemma level_accel_err {ML : MathLib} (ax ay az : float32) :
  is_zero ax = true -> is_zero ay = true -> is_finite az = true ->
  vec3_is_zero (accel_err_of quat_identity (mkVec3 ax ay az)) = true.
Proof.
  intros Hx Hy Hz.
  pose proof (level_cross_product ax ay az Hx Hy Hz) as Hc.
  unfold accel_err_of. rewrite grot_of_identity.
  assert (Hg : gravity_error (mkVec3 ax ay az)
                 (mkVec3 (S754_zero true) (S754_zero true) (F32.of_Z (-1)))
               = CrossProduct (mkVec3 ax ay az)
                   (mkVec3 (S754_zero true) (S754_zero true) (F32.of_Z (-1)))).
  { unfold gravity_error. cbv zeta. rewrite (vec3_mag_zero _ Hc). reflexivity. }
  rewrite Hg. unfold reject_linear_accel. cbv zeta.
  destruct (F32.leb (vec3_mag (mkVec3 ax ay az)) f_9_8
            || gtb (vec3_mag (mkVec3 ax ay az)) (F32.mul f_1_5 f_9_8)).
  - reflexivity.
  - rewrite (vec3_mag_zero _ Hc). exact Hc.
Qed.

Lemma same_value_zero (x z : float32) :
  same_value x z -> is_zero z = true -> is_zero x = true.
Proof.
  intros [-> | [Hx _]] Hz; assumption.
Qed.

(** Zero rates leave the identity quaternion in place. *)
Lemma propagate_identity_at_rest (rates : vec3) (m : positive) (e : Z) :
  vec3_is_zero rates = true ->
  propagate quat_identity rates (S754_finite false m e) = quat_identity.
Proof.
  intros Hz. apply vec3_is_zero_cases in Hz. destruct Hz as (a & b & c & ->).
  destruct a, b, c; reflexivity.
Qed.

Lemma renormalize_identity : renormalize quat_identity = quat_identity.
Proof. reflexivity. Qed.

(** X17.  Level and at rest is a fixed point of the filter, whatever [acosf]
    returns: if the quaternion is the identity, the measured rates are zero
    and the acceleration is along the body Z axis (zero X and Y components,
    any finite Z component), then with finite gains the step leaves the
    quaternion exactly at the identity and the bias integral at its values.
    The arc cosine of the unnormalised dot product is computed here too, but
    it is discarded because the cross product is zero. *)
Theorem level_rest_is_fixed_point {ML : MathLib} (s : state) (thisSysTime : Z)
        (attitudeRaw : AttitudeRawData) :
  q s = quat_identity ->
  vec3_is_zero (gyros attitudeRaw) = true ->
  is_zero (v0 (accels attitudeRaw)) = true ->
  is_zero (v1 (accels attitudeRaw)) = true ->
  is_finite (v2 (accels attitudeRaw)) = true ->
  is_finite (accelKp s) = true ->
  is_finite (accelKi s) = true ->
  0 <= thisSysTime < 4294967296 ->
  0 <= lastSysTime s < 4294967296 ->
  q (updateAttitude s thisSysTime attitudeRaw) = quat_identity /\
  actual_q (attitudeActual_obj (updateAttitude s thisSysTime attitudeRaw))
  = quat_identity /\
  same_value (v0 (gyro_correct_int (updateAttitude s thisSysTime attitudeRaw)))
             (v0 (gyro_correct_int s)) /\
  same_value (v1 (gyro_correct_int (updateAttitude s thisSysTime attitudeRaw)))
             (v1 (gyro_correct_int s)) /\
  v2 (gyro_correct_int (updateAttitude s thisSysTime attitudeRaw))
  = v2 (gyro_correct_int s).
Proof.
  intros Hq Hg Hx Hy Hz Hkp Hki Ht Hl.
  destruct (compute_dT_finite thisSysTime (lastSysTime s) Ht Hl) as (m & e & HdT).
  assert (He : vec3_is_zero (accel_err_of (q s) (accels attitudeRaw)) = true).
  { rewrite Hq. destruct (accels attitudeRaw) as [ax ay az].
    cbn [v0 v1 v2] in Hx, Hy, Hz. apply level_accel_err; assumption. }
  destruct (zero_error_feedback (accelKp s) (accelKi s) m e (gyro_correct_int s)
              (gyros attitudeRaw) (accel_err_of (q s) (accels attitudeRaw))
              He Hkp Hki) as (B0 & B1 & Hr).
  assert (Hrz : vec3_is_zero
                  (correct_rates (accelKp s) (S754_finite false m e)
                     (gyros attitudeRaw)
                     (accel_err_of (q s) (accels attitudeRaw))) = true).
  { destruct Hr as (R0 & R1 & R2).
    unfold vec3_is_zero in Hg |- *.
    apply andb_true_iff in Hg. destruct Hg as [Hg Hg2].
    apply andb_true_iff in Hg. destruct Hg as [Hg0 Hg1].
    rewrite (same_value_zero _ _ R0 Hg0), (same_value_zero _ _ R1 Hg1),
      (same_value_zero _ _ R2 Hg2). reflexivity. }
  assert (Hqf : q (updateAttitude s thisSysTime attitudeRaw) = quat_identity).
  { rewrite updateAttitude_q. unfold propagated_q. cbv zeta.
    rewrite HdT, Hq in *.
    rewrite (propagate_identity_at_rest _ m e Hrz). apply renormalize_identity. }
  split; [exact Hqf|].
  split; [rewrite updateAttitude_published; exact Hqf|].
  rewrite updateAttitude_bias. cbn [v0 v1 v2].
  split; [exact B0|]. split; [exact B1|reflexivity].
Qed.

Lemma level_rest_is_fixed_point_witness :
  q initial_state = quat_identity /\
  vec3_is_zero (gyros level_raw) = true /\
  is_zero (v0 (accels level_raw)) = true /\
  is_zero (v1 (accels level_raw)) = true /\
  is_finite (v2 (accels level_raw)) = true /\
  is_finite (accelKp initial_state) = true /\
  is_finite (accelKi initial_state) = true /\
  0 <= 5 < 4294967296 /\
  0 <= lastSysTime initial_state < 4294967296 /\
  q (updateAttitude (ML := RefLibm.lib) initial_state 5 level_raw) = quat_identity.
Proof.
  assert (H4 : 0 <= 5 < 4294967296) by lia.
  assert (H5 : 0 <= lastSysTime initial_state < 4294967296) by (cbn; lia).
  repeat (split; [first [reflexivity | assumption]|]).
  apply (level_rest_is_fixed_point (ML := RefLibm.lib) initial_state 5 level_raw
           eq_refl eq_refl eq_refl eq_refl eq_refl eq_refl eq_refl H4 H5).
Defined.

(** ** Task entry *)

(** X18.  [AttitudeTask] loads the settings only after the accelerometer has
    produced data: the main loop is entered exactly when some poll of the
    wait loop is not zero, and then with the configured gains, gyro gain,
    accelerometer bias and flags in force, [init] at 0, and the alarm Clear
    if the first poll already found data and Critical otherwise.  While every
    poll is zero the settings are not loaded: the gains are those the module
    had before. *)
Theorem task_entry_loads_settings {RL : RotationLib} (s : state)
        (polls : list Z) (cfg : AttitudeSettingsData) :
  snd (AttitudeTask_entry s polls cfg) = existsb (fun n => negb (n =? 0)) polls /\
  init (fst (AttitudeTask_entry s polls cfg)) = 0 /\
  q (fst (AttitudeTask_entry s polls cfg)) = q s /\
  alarm_attitude (fst (AttitudeTask_entry s polls cfg))
  = (if Nat.eqb (empty_polls polls) 0 then SYSTEMALARMS_ALARM_OK
     else SYSTEMALARMS_ALARM_CRITICAL) /\
  (snd (AttitudeTask_entry s polls cfg) = true ->
   accelKp (fst (AttitudeTask_entry s polls cfg)) = AccelKp cfg /\
   accelKi (fst (AttitudeTask_entry s polls cfg)) = AccelKi cfg /\
   yawBiasRate (fst (AttitudeTask_entry s polls cfg)) = YawBiasRate cfg /\
   gyroGain (fst (AttitudeTask_entry s polls cfg)) = GyroGain cfg /\
   accelbias (fst (AttitudeTask_entry s polls cfg)) = AccelBias cfg /\
   rotate (fst (AttitudeTask_entry s polls cfg))
   = (if no_board_rotation cfg then 0 else 1)) /\
  (snd (AttitudeTask_entry s polls cfg) = false ->
   accelKp (fst (AttitudeTask_entry s polls cfg)) = accelKp s /\
   accelKi (fst (AttitudeTask_entry s polls cfg)) = accelKi s /\
   yawBiasRate (fst (AttitudeTask_entry s polls cfg)) = yawBiasRate s /\
   gyroGain (fst (AttitudeTask_entry s polls cfg)) = gyroGain s /\
   gyro_correct_int (fst (AttitudeTask_entry s polls cfg)) = gyro_correct_int s).
Proof.
  destruct (AttitudeTask_entry_frame s polls cfg) as (Hq & _ & Hi).
  split; [|split; [exact Hi|split; [exact Hq|]]].
  - unfold AttitudeTask_entry.
    destruct (startup_wait_summary polls
                (AlarmsClear (set_gains s (accelKp s) (accelKi s) (yawBiasRate s) 0)))
      as (H1 & _).
    destruct (startup_wait polls _) as [s1 entered]. cbn [snd] in H1.
    destruct entered; cbn [snd]; exact H1.
  - unfold AttitudeTask_entry.
    destruct (startup_wait_summary polls
                (AlarmsClear (set_gains s (accelKp s) (accelKi s) (yawBiasRate s) 0)))
      as (_ & _ & H3).
    destruct (startup_wait_gains polls
                (AlarmsClear (set_gains s (accelKp s) (accelKi s) (yawBiasRate s) 0)))
      as (Gkp & Gki & Gy & Gg & Gb).
    destruct (startup_wait polls _) as [s1 entered].
    cbn [fst snd] in *.
    destruct entered; cbn [fst snd].
    + destruct (settingsUpdatedCb_fields s1 cfg)
        as (Fkp & Fki & Fy & Fg & Fab & _ & _ & Fr & _ & _ & _ & _ & Fal & _).
      split; [rewrite Fal; exact H3|].
      split; [intros _; repeat split; assumption|discriminate].
    + split; [exact H3|]. split; [discriminate|].
      intros _. rewrite Gkp, Gki, Gy, Gg, Gb. repeat split.
Qed.

(** ** The gains across passes *)

Lemma startup_policy_flags (s : state) (i : cycle_input) :
  zero_during_arming (startup_policy s i) = zero_during_arming s.
Proof.
  unfold startup_policy. destruct (select_gain_branch s i); reflexivity.
Qed.

Section GainFacts.
Context {ML : MathLib} {D : Type} `{Adxl345 D}.

Lemma AttitudeTask_cycle_flags (s : state) (dev : D) (i : cycle_input) :
  zero_during_arming (fst (AttitudeTask_cycle s dev i)) = zero_during_arming s.
Proof.
  destruct (acquired i dev) eqn:Ha.
  - destruct (AttitudeTask_cycle_acquired s dev i Ha) as (raw' & _ & Hc).
    rewrite Hc. cbn [fst].
    set (s3 := yaw_bias_update (PIOS_WDG_UpdateFlag (startup_policy s i))
                 (v2 (gyros raw'))).
    transitivity (zero_during_arming (updateAttitude s3 (in_tick_c i) raw')).
    { apply pass_epilogue_flags. }
    destruct (updateAttitude_frame s3 (in_tick_c i) raw')
      as (_ & _ & _ & _ & _ & _ & _ & Hz & _).
    rewrite Hz. apply startup_policy_flags.
  - rewrite (AttitudeTask_cycle_failed s dev i Ha). apply startup_policy_flags.
Qed.

(** X19.  Once the settings gains have been reloaded ([init] not zero), the
    main loop never writes the gains again as long as the tick count stays
    outside the startup window and the arming condition stays false: after
    any run of such passes [accelKp], [accelKi], [yawBiasRate] and [init] are
    what they were, whatever the settings object holds in the meantime (a
    change of the settings reaches the gains through the callback only). *)
Theorem gains_stable_after_reload (passes : list (cycle_input * D)) (s : state) :
  init s <> 0 ->
  Forall (fun p => in_startup_window (in_tick_a (fst p)) (in_tick_b (fst p)) = false /\
                   arming_condition s (in_armed (fst p)) = false) passes ->
  accelKp (AttitudeTask_loop passes s) = accelKp s /\
  accelKi (AttitudeTask_loop passes s) = accelKi s /\
  yawBiasRate (AttitudeTask_loop passes s) = yawBiasRate s /\
  init (AttitudeTask_loop passes s) = init s.
Proof.
  intros Hinit Hall. revert s Hinit Hall.
  induction passes as [|[i dev] passes IH]; intros s Hinit Hall;
    cbn [AttitudeTask_loop].
  - repeat split.
  - inversion Hall as [|x l [Hwin Harm] Hrest]; subst. cbn [fst] in Hwin, Harm.
    assert (Hpol : startup_policy s i = s).
    { unfold startup_policy, select_gain_branch. rewrite Hwin, Harm.
      apply Z.eqb_neq in Hinit. rewrite Hinit. reflexivity. }
    destruct (AttitudeTask_cycle_gains s dev i) as (Gkp & Gki & Gy & _ & Gi).
    rewrite Hpol in Gkp, Gki, Gy, Gi.
    destruct (IH (fst (AttitudeTask_cycle s dev i))) as (I1 & I2 & I3 & I4).
    + rewrite Gi. exact Hinit.
    + apply Forall_impl with (2 := Hrest). intros [i' dev'] [Hw Ha].
      split; [exact Hw|].
      unfold arming_condition in *. rewrite AttitudeTask_cycle_flags. exact Ha.
    + rewrite I1, I2, I3, I4, Gkp, Gki, Gy, Gi. repeat split.
Qed.

(** X20.  A pass inside the startup window, or one taken while arming with
    [zero_during_arming] set, forces the startup gains and clears [init]; the
    next pass outside both conditions then reloads the gains from the
    settings object and sets [init]. *)
Theorem gains_reloaded_after_forcing (s : state) (dev1 dev2 : D)
        (i1 i2 : cycle_input) :
  in_startup_window (in_tick_a i1) (in_tick_b i1) = true \/
  arming_condition s (in_armed i1) = true ->
  in_startup_window (in_tick_a i2) (in_tick_b i2) = false ->
  arming_condition s (in_armed i2) = false ->
  (accelKp (fst (AttitudeTask_cycle s dev1 i1)) = startup_kp /\
   accelKi (fst (AttitudeTask_cycle s dev1 i1)) = startup_ki /\
   yawBiasRate (fst (AttitudeTask_cycle s dev1 i1)) = startup_yaw_bias_rate /\
   init (fst (AttitudeTask_cycle s dev1 i1)) = 0) /\
  (accelKp (AttitudeTask_loop [(i1, dev1); (i2, dev2)] s) = in_settings_AccelKp i2 /\
   accelKi (AttitudeTask_loop [(i1, dev1); (i2, dev2)] s) = in_settings_AccelKi i2 /\
   yawBiasRate (AttitudeTask_loop [(i1, dev1); (i2, dev2)] s)
   = in_settings_YawBiasRate i2 /\
   init (AttitudeTask_loop [(i1, dev1); (i2, dev2)] s) = 1).
Proof.
  intros Hforce Hwin2 Harm2.
  destruct (AttitudeTask_cycle_gains s dev1 i1) as (Gkp & Gki & Gy & _ & Gi).
  assert (Hpol : accelKp (startup_policy s i1) = startup_kp /\
                 accelKi (startup_policy s i1) = startup_ki /\
                 yawBiasRate (startup_policy s i1) = startup_yaw_bias_rate /\
                 init (startup_policy s i1) = 0).
  { unfold startup_policy, select_gain_branch.
    destruct (in_startup_window (in_tick_a i1) (in_tick_b i1)) eqn:Hw.
    - repeat split.
    - destruct Hforce as [Hf | Hf]; [discriminate|]. rewrite Hf. repeat split. }
  destruct Hpol as (P1 & P2 & P3 & P4).
  rewrite P1 in Gkp. rewrite P2 in Gki. rewrite P3 in Gy. rewrite P4 in Gi.
  split; [repeat split; assumption|].
  cbn [AttitudeTask_loop].
  set (s1 := fst (AttitudeTask_cycle s dev1 i1)) in *.
  destruct (AttitudeTask_cycle_gains s1 dev2 i2) as (Hkp & Hki & Hy & _ & Hi).
  rewrite Hkp, Hki, Hy, Hi.
  unfold startup_policy, select_gain_branch. rewrite Hwin2.
  assert (Harm : arming_condition s1 (in_armed i2) = false).
  { unfold arming_condition in *. unfold s1.
    rewrite AttitudeTask_cycle_flags. exact Harm2. }
  rewrite Harm, Gi. cbn. repeat split.
Qed.
End GainFacts.

Lemma gains_stable_after_reload_witness :
  init (set_gains initial_state F32.one F32.one F32.one 1) <> 0 /\
  Forall (fun p => in_startup_window (in_tick_a (fst p)) (in_tick_b (fst p)) = false /\
                   arming_condition (set_gains initial_state F32.one F32.one F32.one 1)
                                    (in_armed (fst p)) = false)
         [(input_at 8000 (Some neutral_gyro), one_sample)] /\
  accelKp (AttitudeTask_loop (ML := RefLibm.lib)
             [(input_at 8000 (Some neutral_gyro), one_sample)]
             (set_gains initial_state F32.one F32.one F32.one 1))
  = accelKp (set_gains initial_state F32.one F32.one F32.one 1).
Proof.
  assert (H1 : init (set_gains initial_state F32.one F32.one F32.one 1) <> 0)
    by discriminate.
  assert (H2 : Forall
                 (fun p => in_startup_window (in_tick_a (fst p)) (in_tick_b (fst p))
                           = false /\
                           arming_condition
                             (set_gains initial_state F32.one F32.one F32.one 1)
                             (in_armed (fst p)) = false)
                 [(input_at 8000 (Some neutral_gyro), one_sample)]).
  { repeat constructor. }
  split; [exact H1|]. split; [exact H2|].
  exact (proj1 (gains_stable_after_reload (ML := RefLibm.lib) _ _ H1 H2)).
Defined.

Lemma gains_reloaded_after_forcing_witness :
  (in_startup_window (in_tick_a (input_at 5000 None)) (in_tick_b (input_at 5000 None))
   = true \/
   arming_condition initial_state (in_armed (input_at 5000 None)) = true) /\
  in_startup_window (in_tick_a (input_at 8000 None)) (in_tick_b (input_at 8000 None))
  = false /\
  arming_condition initial_state (in_armed (input_at 8000 None)) = false /\
  init (AttitudeTask_loop (ML := RefLibm.lib)
          [(input_at 5000 None, one_sample); (input_at 8000 None, one_sample)]
          initial_state) = 1.
Proof.
  assert (H1 : in_startup_window (in_tick_a (input_at 5000 None))
                                 (in_tick_b (input_at 5000 None)) = true \/
               arming_condition initial_state (in_armed (input_at 5000 None)) = true)
    by (left; reflexivity).
  assert (H2 : in_startup_window (in_tick_a (input_at 8000 None))
                                 (in_tick_b (input_at 8000 None)) = false)
    by reflexivity.
  assert (H3 : arming_condition initial_state (in_armed (input_at 8000 None)) = false)
    by reflexivity.
  split; [exact H1|]. split; [exact H2|]. split; [exact H3|].
  apply (gains_reloaded_after_forcing (ML := RefLibm.lib) initial_state
           one_sample one_sample (input_at 5000 None) (input_at 8000 None)
           H1 H2 H3).
Defined.

(** ** The gyro axis convention *)

(** X21.  The conversion of the gyro counts ignores the temperature element
    and flips the sign on X and Z exactly: for one and the same count the X
    and the Z rate are the negation of the Y rate, bit for bit.  A count at
    the neutral value 1665 gives a zero rate for every finite gain. *)
Theorem gyro_axis_convention (gain : float32) (t t' c : float32) :
  gyros_from_counts gain (mkGyro t' c c c) = gyros_from_counts gain (mkGyro t c c c) /\
  v0 (gyros_from_counts gain (mkGyro t c c c))
  = F32.neg (v1 (gyros_from_counts gain (mkGyro t c c c))) /\
  v2 (gyros_from_counts gain (mkGyro t c c c))
  = F32.neg (v1 (gyros_from_counts gain (mkGyro t c c c))) /\
  v1 (gyros_from_counts gain (mkGyro t c c c))
  = F32.mul (F32.sub c (F32.of_Z GYRO_NEUTRAL)) gain /\
  (is_finite gain = true ->
   vec3_is_zero
     (gyros_from_counts gain
        (mkGyro t (F32.of_Z GYRO_NEUTRAL) (F32.of_Z GYRO_NEUTRAL)
                (F32.of_Z GYRO_NEUTRAL))) = true).
Proof.
  unfold gyros_from_counts. cbn [gyro_x gyro_y gyro_z v0 v1 v2].
  split; [reflexivity|].
  split; [apply SFmul_opp_l|]. split; [apply SFmul_opp_l|].
  split; [reflexivity|].
  intros Hg. destruct gain as [sg|sg| |sg mg eg]; try discriminate;
    destruct sg; reflexivity.
Qed.

(** ** A NaN acceleration *)

Lemma vec3_mag_has_nan (v : vec3) :
  vec3_has_nan v = true -> vec3_mag v = S754_nan.
Proof.
  intros Hn. apply vec3_has_nan_cases in Hn. unfold vec3_mag.
  destruct Hn as [Hn | [Hn | Hn]]; rewrite Hn; nan_simpl; reflexivity.
Qed.

Lemma CrossProduct_nan (a b : vec3) :
  vec3_has_nan a = true ->
  vec3_has_nan (CrossProduct a b) = true /\
  (v0 (CrossProduct a b) = S754_nan \/ v1 (CrossProduct a b) = S754_nan).
Proof.
  intros Hn. apply vec3_has_nan_cases in Hn.
  unfold CrossProduct, vec3_has_nan. cbn [v0 v1 v2].
  destruct Hn as [Hn | [Hn | Hn]]; rewrite Hn; nan_simpl;
    cbn [is_nan orb]; rewrite ?orb_true_r; split; auto.
Qed.

(** A vector with a NaN component passes through the stretch and through
    the rejection test unchanged. *)
Lemma accel_err_of_nan {ML : MathLib} (qq : quat) (accels : vec3) :
  vec3_has_nan accels = true ->
  accel_err_of qq accels = CrossProduct accels (grot_of qq).
Proof.
  intros Hn.
  destruct (CrossProduct_nan accels (grot_of qq) Hn) as [Hc _].
  unfold accel_err_of.
  assert (Hg : gravity_error accels (grot_of qq) = CrossProduct accels (grot_of qq)).
  { unfold gravity_error. cbv zeta. rewrite (vec3_mag_has_nan _ Hc). reflexivity. }
  rewrite Hg. unfold reject_linear_accel. cbv zeta.
  rewrite (vec3_mag_has_nan _ Hn), (vec3_mag_has_nan _ Hc). reflexivity.
Qed.

(** X22.  The sanity check on the magnitude of the acceleration does not
    catch a NaN: with a NaN among the three accelerations the magnitude is
    NaN, both comparisons of the check are false and the error vector is the
    raw cross product.  The step then writes a NaN into
    [gyro_correct_int[0]] or [gyro_correct_int[1]] and resets the quaternion
    to the identity. *)
Theorem nan_accel_is_not_rejected {ML : MathLib} (s : state) (thisSysTime : Z)
        (attitudeRaw : AttitudeRawData) :
  vec3_has_nan (accels attitudeRaw) = true ->
  F32.leb (vec3_mag (accels attitudeRaw)) f_9_8
  || gtb (vec3_mag (accels attitudeRaw)) (F32.mul f_1_5 f_9_8) = false /\
  accel_err_of (q s) (accels attitudeRaw)
  = CrossProduct (accels attitudeRaw) (grot_of (q s)) /\
  (v0 (gyro_correct_int (updateAttitude s thisSysTime attitudeRaw)) = S754_nan \/
   v1 (gyro_correct_int (updateAttitude s thisSysTime attitudeRaw)) = S754_nan) /\
  q (updateAttitude s thisSysTime attitudeRaw) = quat_identity.
Proof.
  intros Hn.
  pose proof (accel_err_of_nan (q s) (accels attitudeRaw) Hn) as He.
  destruct (CrossProduct_nan (accels attitudeRaw) (grot_of (q s)) Hn) as [Hc Hc01].
  split; [rewrite (vec3_mag_has_nan _ Hn); reflexivity|].
  split; [exact He|].
  split.
  - rewrite updateAttitude_bias, He. cbn [v0 v1 v2].
    destruct Hc01 as [H0 | H1]; [left; rewrite H0|right; rewrite H1];
      nan_simpl; reflexivity.
  - rewrite updateAttitude_q. unfold propagated_q. cbv zeta. rewrite He.
    rewrite propagate_nan; [apply renormalize_nan|].
    apply vec3_has_nan_cases in Hc.
    unfold correct_rates, vec3_has_nan. cbn [v0 v1 v2].
    destruct Hc as [Hc | [Hc | Hc]]; rewrite Hc; nan_simpl;
      cbn [is_nan orb]; rewrite ?orb_true_r; reflexivity.
Qed.

Lemma nan_accel_is_not_rejected_witness :
  vec3_has_nan (accels (mkRaw (mkVec3 F32.zero F32.zero S754_nan) vec3_zero
                              F32.zero F32.zero)) = true /\
  q (updateAttitude (ML := RefLibm.lib) initial_state 5
       (mkRaw (mkVec3 F32.zero F32.zero S754_nan) vec3_zero F32.zero F32.zero))
  = quat_identity.
Proof.
  split; [reflexivity|].
  apply (nan_accel_is_not_rejected (ML := RefLibm.lib) initial_state 5
           (mkRaw (mkVec3 F32.zero F32.zero S754_nan) vec3_zero F32.zero F32.zero)
           eq_refl).
Defined.

(** ** The published accelerations are finite *)

Lemma zero_or_normal32_finite (lo hi : Z) (x : float32) :
  zero_or_normal32 lo hi x -> is_finite x = true.
Proof.
  intros [Hz | (s & m & e & -> & _)]; [|reflexivity].
  destruct x; try discriminate; reflexivity.
Qed.

Lemma zero_or_normal32_weaken (lo hi lo' hi' : Z) (x : float32) :
  lo' <= lo -> hi <= hi' -> zero_or_normal32 lo hi x -> zero_or_normal32 lo' hi' x.
Proof.
  intros Hlo Hhi [Hz | (s & m & e & Hx & Hd & He)]; [left; exact Hz|].
  right. exists s, m, e. repeat split; try assumption; lia.
Qed.

Lemma digits2_pos_le (p : positive) (k : Z) :
  Zpos p < 2 ^ k -> Zpos (digits2_pos p) <= k.
Proof.
  intros Hp. pose proof (digits2_pos_bounds p) as [Blo _].
  assert (Hk : 0 <= k).
  { destruct (Z_lt_le_dec k 0) as [Hn|]; [|assumption].
    rewrite Z.pow_neg_r in Hp by assumption. lia. }
  assert (H : Zpos (digits2_pos p) - 1 < k); [|lia].
  apply (Z.pow_lt_mono_r_iff 2); lia.
Qed.

(** Conversion of an integer of at most [k] bits. *)
Lemma of_Z_zero_or_normal (z k : Z) :
  0 <= k <= 32 -> - 2 ^ k < z < 2 ^ k ->
  zero_or_normal32 (-23) (k - 23) (F32.of_Z z).
Proof.
  intros Hk Hz.
  assert (Hsign : forall (sg : bool) (p : positive),
             Zpos p < 2 ^ k ->
             normal32 (-23) (k - 23) (binary_round F32.prec F32.emax sg p 0)).
  { intros sg p Hp.
    pose proof (digits2_pos_le p k Hp) as Hd.
    destruct (binary_round_normal F32.prec F32.emax eq_refl sg p 0)
      as (m & e & Hr & Hdm & He).
    - unfold emin, F32.prec, F32.emax. lia.
    - unfold F32.prec, F32.emax. lia.
    - exists sg, m, e. unfold F32.prec in He, Hdm.
      repeat split; try assumption; lia. }
  unfold F32.of_Z, binary_normalize. destruct z as [|p|p].
  - left. reflexivity.
  - right. apply Hsign. lia.
  - right. apply Hsign. lia.
Qed.

Lemma F32_div_zero_or_normal (lo hi lo' hi' : Z) (x y : float32) :
  -149 <= lo - hi' - 24 -> hi - lo' + 2 <= 104 ->
  zero_or_normal32 lo hi x -> normal32 lo' hi' y ->
  zero_or_normal32 (lo - hi' - 24) (hi - lo' - 22) (F32.div x y).
Proof.
  intros H1 H2 Hx (sy & my & ey & -> & Hdy & Hey).
  destruct Hx as [Hz | (sx & mx & ex & -> & Hdx & Hex)].
  - left. apply F32_div_zero_l. exact Hz.
  - right.
    destruct (SFdiv_normal F32.prec F32.emax eq_refl sx sy mx my ex ey)
      as (m' & e' & Hq & Hd' & He'); try assumption.
    + unfold emin, F32.prec, F32.emax. lia.
    + unfold F32.prec, F32.emax. lia.
    + exists (xorb sx sy), m', e'. unfold F32.prec in He'.
      repeat split; try assumption; lia.
Qed.

Lemma digits2_pos_mul (mx my : positive) :
  Zpos (digits2_pos mx) = 24 -> Zpos (digits2_pos my) = 24 ->
  47 <= Zpos (digits2_pos (mx * my)) <= 48.
Proof.
  intros Hx Hy.
  pose proof (digits2_pos_bounds mx) as [Xlo Xhi].
  pose proof (digits2_pos_bounds my) as [Ylo Yhi].
  rewrite Hx in Xlo, Xhi. rewrite Hy in Ylo, Yhi.
  change (2 ^ (24 - 1)) with 8388608 in Xlo, Ylo.
  change (2 ^ 24) with 16777216 in Xhi, Yhi.
  assert (Hlo : 2 ^ 46 <= Zpos (mx * my)).
  { change (2 ^ 46) with (8388608 * 8388608). rewrite Pos2Z.inj_mul. nia. }
  assert (Hhi : Zpos (mx * my) < 2 ^ 48).
  { change (2 ^ 48) with (16777216 * 16777216). rewrite Pos2Z.inj_mul. nia. }
  split.
  - pose proof (digits2_pos_bounds (mx * my)) as [_ Bhi].
    assert (H : 46 < Zpos (digits2_pos (mx * my))); [|lia].
    apply (Z.pow_lt_mono_r_iff 2); lia.
  - apply digits2_pos_le. exact Hhi.
Qed.

Lemma F32_mul_zero_or_normal (lo hi lo' hi' : Z) (x y : float32) :
  -149 <= lo + lo' + 23 -> hi + hi' + 25 <= 104 ->
  zero_or_normal32 lo hi x -> normal32 lo' hi' y ->
  zero_or_normal32 (lo + lo' + 23) (hi + hi' + 25) (F32.mul x y).
Proof.
  intros H1 H2 Hx (sy & my & ey & -> & Hdy & Hey).
  destruct Hx as [Hz | (sx & mx & ex & -> & Hdx & Hex)].
  - left. apply F32_mul_zero_l; [exact Hz|reflexivity].
  - right. unfold F32.mul. cbn [SFmul].
    pose proof (digits2_pos_mul mx my Hdx Hdy) as Hd.
    destruct (binary_round_aux_normal F32.prec F32.emax eq_refl (xorb sx sy)
                (mx * my) (ex + ey) loc_Exact)
      as (m' & e' & Hr & Hd' & He').
    + unfold F32.prec. lia.
    + unfold emin, F32.prec, F32.emax. lia.
    + unfold F32.prec, F32.emax. lia.
    + exists (xorb sx sy), m', e'. unfold F32.prec in He', Hd'.
      repeat split; try assumption; lia.
Qed.

Lemma shl_align_fst (m : positive) (e e' : Z) :
  e' <= e -> Zpos (fst (shl_align m e e')) = Zpos m * 2 ^ (e - e').
Proof.
  intros Hle. unfold shl_align.
  destruct (e' - e) as [|k|k] eqn:Hk; cbn [fst]; try lia.
  - replace (e - e') with 0 by lia. lia.
  - rewrite iter_xO_value. f_equal. f_equal. lia.
Qed.

Lemma F32_sub_zero_or_normal (lo hi : Z) (x y : float32) :
  -100 <= lo -> hi <= 100 -> lo <= hi ->
  zero_or_normal32 lo hi x -> zero_or_normal32 lo hi y ->
  zero_or_normal32 (lo - 23) (hi + 2) (F32.sub x y).
Proof.
  intros Hlo Hhi Hlh Hx Hy.
  destruct Hx as [Hzx | (sx & mx & ex & -> & Hdx & Hex)];
    destruct Hy as [Hzy | (sy & my & ey & -> & Hdy & Hey)].
  - left. apply F32_sub_zero_zero; assumption.
  - apply is_zero_eq in Hzx. destruct Hzx as [sz ->].
    right. exists (negb sy), my, ey. repeat split; try assumption; lia.
  - apply is_zero_eq in Hzy. destruct Hzy as [sz ->].
    right. exists sx, mx, ex. repeat split; try assumption; lia.
  - unfold F32.sub. cbn [SFsub]. cbv zeta.
    set (ez := Z.min ex ey).
    rewrite (shl_align_fst mx ex ez) by (unfold ez; lia).
    rewrite (shl_align_fst my ey ez) by (unfold ez; lia).
    set (A := Zpos mx * 2 ^ (ex - ez)).
    set (B := Zpos my * 2 ^ (ey - ez)).
    pose proof (digits2_pos_bounds mx) as [_ Xhi].
    pose proof (digits2_pos_bounds my) as [_ Yhi].
    rewrite Hdx in Xhi. rewrite Hdy in Yhi.
    assert (Hpx : 0 < 2 ^ (ex - ez)) by (apply Z.pow_pos_nonneg; unfold ez; lia).
    assert (Hpy : 0 < 2 ^ (ey - ez)) by (apply Z.pow_pos_nonneg; unfold ez; lia).
    assert (HA : 0 < A < 2 ^ (24 + (Z.max ex ey - ez))).
    { unfold A. split; [lia|].
      apply Z.lt_le_trans with (2 ^ 24 * 2 ^ (ex - ez)); [nia|].
      rewrite <- Z.pow_add_r by (unfold ez; lia).
      apply Z.pow_le_mono_r; unfold ez; lia. }
    assert (HB : 0 < B < 2 ^ (24 + (Z.max ex ey - ez))).
    { unfold B. split; [lia|].
      apply Z.lt_le_trans with (2 ^ 24 * 2 ^ (ey - ez)); [nia|].
      rewrite <- Z.pow_add_r by (unfold ez; lia).
      apply Z.pow_le_mono_r; unfold ez; lia. }
    assert (Hsum : A + B < 2 ^ (25 + (Z.max ex ey - ez))).
    { replace (25 + (Z.max ex ey - ez)) with (Z.succ (24 + (Z.max ex ey - ez)))
        by lia.
      rewrite Z.pow_succ_r by (unfold ez; lia). lia. }
    assert (Hround : forall (sg : bool) (p : positive),
               Zpos p <= A + B ->
               normal32 (lo - 23) (hi + 2)
                        (binary_round F32.prec F32.emax sg p ez)).
    { intros sg p Hp.
      assert (Hd : Zpos (digits2_pos p) <= 25 + (Z.max ex ey - ez))
        by (apply digits2_pos_le; lia).
      assert (Hd1 : 1 <= Zpos (digits2_pos p)) by lia.
      destruct (binary_round_normal F32.prec F32.emax eq_refl sg p ez)
        as (m' & e' & Hr & Hd' & He').
      - unfold emin, F32.prec, F32.emax, ez. lia.
      - unfold F32.prec, F32.emax, ez in *. lia.
      - exists sg, m', e'. unfold F32.prec in He', Hd'.
        repeat split; try assumption; unfold ez in *; lia. }
    unfold binary_normalize.
    destruct (cond_Zopp sx A - cond_Zopp sy B) as [|p|p] eqn:Hz.
    + left. reflexivity.
    + right. apply Hround. destruct sx, sy; cbn [cond_Zopp] in Hz; lia.
    + right. apply Hround. destruct sx, sy; cbn [cond_Zopp] in Hz; lia.
Qed.

Lemma f_0_004_normal : normal32 (-31) (-31) f_0_004.
Proof. exists false, 8589935%positive, (-31). repeat split; try reflexivity; lia. Qed.

Lemma f_9_81_normal : normal32 (-20) (-20) f_9_81.
Proof. exists false, 10286531%positive, (-20). repeat split; try reflexivity; lia. Qed.

(** The scaling of lines 281-283 applied to a zero or to a number below 2^24
    gives a finite number. *)
Lemma scale_accel_finite (a : float32) (bias : Z) :
  zero_or_normal32 (-30) (-1) a -> -32768 <= bias <= 32767 ->
  is_finite (scale_accel a bias) = true.
Proof.
  intros Ha Hb. unfold scale_accel.
  assert (Hbf : zero_or_normal32 (-30) (-1) (F32.of_Z bias)).
  { apply zero_or_normal32_weaken with (lo := -23) (hi := 16 - 23); try lia.
    apply of_Z_zero_or_normal; [lia|]. change (2 ^ 16) with 65536. lia. }
  pose proof (F32_sub_zero_or_normal (-30) (-1) a (F32.of_Z bias)
                ltac:(lia) ltac:(lia) ltac:(lia) Ha Hbf) as Hs.
  pose proof (F32_mul_zero_or_normal (-30 - 23) (-1 + 2) (-31) (-31) _ f_0_004
                ltac:(lia) ltac:(lia) Hs f_0_004_normal) as Hm1.
  pose proof (F32_mul_zero_or_normal (-30 - 23 + -31 + 23) (-1 + 2 + -31 + 25)
                (-20) (-20) _ f_9_81 ltac:(lia) ltac:(lia) Hm1 f_9_81_normal)
    as Hm2.
  apply (zero_or_normal32_finite _ _ _ Hm2).
Qed.

(** The average of line 261 for a sum below 2^21 in magnitude over a count
    in [1 .. 32]. *)
Lemma average_zero_or_normal (x i : Z) :
  - 2 ^ 21 < x < 2 ^ 21 -> 1 <= i <= 32 ->
  zero_or_normal32 (-30) (-1) (F32.div (F32.of_Z x) (F32.of_Z i)).
Proof.
  intros Hx Hi.
  pose proof (of_Z_zero_or_normal x 21 ltac:(lia) Hx) as Hxf.
  assert (Hif : normal32 (-23) (-17) (F32.of_Z i)).
  { destruct (of_Z_zero_or_normal i 6 ltac:(lia)) as [Hz | Hn].
    - change (2 ^ 6) with 64. lia.
    - destruct (of_Z_normal i ltac:(lia)) as (m & e & Hm & _).
      rewrite Hm in Hz. discriminate.
    - exact Hn. }
  apply zero_or_normal32_weaken
    with (lo := -23 - -17 - 24) (hi := 21 - 23 - -23 - 22); try lia.
  apply F32_div_zero_or_normal; try assumption; lia.
Qed.

Lemma sum_of_bound (f : pios_adxl345_data -> Z) (l : list pios_adxl345_data) :
  Forall (fun a => -32768 <= f a <= 32767) l ->
  - (32768 * Z.of_nat (length l)) <= sum_of f l <= 32768 * Z.of_nat (length l).
Proof.
  induction 1 as [|a l Ha _ IH]; cbn [sum_of fold_right length].
  - lia.
  - fold (sum_of f l). lia.
Qed.

Lemma firstn_int16 (f : pios_adxl345_data -> Z) (k : nat)
      (l : list pios_adxl345_data) :
  Forall (fun a => -32768 <= f a <= 32767) l -> (k <= 32)%nat ->
  - 2 ^ 21 < sum_of f (firstn k l) < 2 ^ 21.
Proof.
  intros Hall Hk.
  assert (Hf : Forall (fun a => -32768 <= f a <= 32767) (firstn k l)).
  { clear Hk. revert l Hall. induction k as [|k IH]; intros l Hall.
    - constructor.
    - destruct Hall as [|a l Ha Hl]; cbn [firstn]; constructor.
      + exact Ha.
      + apply IH. exact Hl. }
  pose proof (sum_of_bound f (firstn k l) Hf) as Hb.
  pose proof (firstn_le_length k l) as Hlen.
  change (2 ^ 21) with 2097152. lia.
Qed.

(** X23.  Without board rotation, the accelerations [updateSensors]
    publishes are always finite numbers, never NaN or an infinity: for every
    non-empty FIFO of samples with counts in the [int16_t] range and every
    [int16_t] accelerometer bias, the averaging, the bias subtraction and the
    two scalings cannot overflow. *)
Theorem conditioned_accels_are_finite (l : list pios_adxl345_data) (s : state)
        (g : gyro_sample) (raw : AttitudeRawData) :
  l <> [] -> (length l < 256)%nat -> Forall int16_sample l ->
  rotate s = 0 ->
  -32768 <= fst (fst (accelbias s)) <= 32767 ->
  -32768 <= snd (fst (accelbias s)) <= 32767 ->
  -32768 <= snd (accelbias s) <= 32767 ->
  us_ret (updateSensors s l (Some g) raw) = 0 /\
  vec3_finite (accels (us_raw (updateSensors s l (Some g) raw))) = true /\
  vec3_has_nan (accels (us_raw (updateSensors s l (Some g) raw))) = false.
Proof.
  intros Hne Hlen Hall Hrot Hb0 Hb1 Hb2.
  pose proof (drain_fifo l Hne Hlen Hall) as Hd.
  pose proof (fifo_not_empty l Hne Hlen) as Hf.
  rewrite (updateSensors_success s l g raw Hf).
  unfold us_ret, us_raw. cbn [fst snd accels].
  split; [reflexivity|].
  unfold apply_rotation. rewrite Hrot. cbn [Z.eqb negb fst].
  unfold scale_accels, accel_average. rewrite Hd.
  cbn [dr_i dr_x dr_y dr_z].
  destruct (accelbias s) as [[b0 b1] b2]. cbn [fst snd] in Hb0, Hb1, Hb2.
  cbn [v0 v1 v2].
  set (k := Nat.min (length l) 32).
  assert (Hk : 1 <= Z.of_nat k <= 32).
  { unfold k. destruct l; [congruence|]. cbn [length]. lia. }
  assert (Hx : Forall (fun a => -32768 <= ad_x a <= 32767) l).
  { apply Forall_impl with (2 := Hall). intros a (H1 & _). exact H1. }
  assert (Hy : Forall (fun a => -32768 <= ad_y a <= 32767) l).
  { apply Forall_impl with (2 := Hall). intros a (_ & H1 & _). exact H1. }
  assert (Hz : Forall (fun a => -32768 <= ad_z a <= 32767) l).
  { apply Forall_impl with (2 := Hall). intros a (_ & _ & H1). exact H1. }
  pose proof (firstn_int16 ad_x k l Hx ltac:(unfold k; lia)) as Sx.
  pose proof (firstn_int16 ad_y k l Hy ltac:(unfold k; lia)) as Sy.
  pose proof (firstn_int16 ad_z k l Hz ltac:(unfold k; lia)) as Sz.
  assert (F0 : is_finite
                 (scale_accel
                    (F32.div (F32.of_Z (sum_of ad_x (firstn k l)))
                             (F32.of_Z (Z.of_nat k))) b0) = true).
  { apply scale_accel_finite; [|exact Hb0].
    apply average_zero_or_normal; assumption. }
  assert (F1 : is_finite
                 (scale_accel
                    (F32.div (F32.of_Z (- sum_of ad_y (firstn k l)))
                             (F32.of_Z (Z.of_nat k))) b1) = true).
  { apply scale_accel_finite; [|exact Hb1].
    apply average_zero_or_normal; [lia|assumption]. }
  assert (F2 : is_finite
                 (scale_accel
                    (F32.div (F32.of_Z (- sum_of ad_z (firstn k l)))
                             (F32.of_Z (Z.of_nat k))) b2) = true).
  { apply scale_accel_finite; [|exact Hb2].
    apply average_zero_or_normal; [lia|assumption]. }
  unfold vec3_finite, vec3_has_nan. cbn [v0 v1 v2].
  rewrite F0, F1, F2. split; [reflexivity|].
  destruct (scale_accel _ b0); try discriminate;
    destruct (scale_accel _ b1); try discriminate;
    destruct (scale_accel _ b2); try discriminate; reflexivity.
Qed.

Lemma conditioned_accels_are_finite_witness :
  one_sample <> [] /\ (length one_sample < 256)%nat /\
  Forall int16_sample one_sample /\
  rotate initial_state = 0 /\
  -32768 <= fst (fst (accelbias initial_state)) <= 32767 /\
  -32768 <= snd (fst (accelbias initial_state)) <= 32767 /\
  -32768 <= snd (accelbias initial_state) <= 32767 /\
  vec3_finite
    (accels (us_raw (updateSensors initial_state one_sample (Some neutral_gyro)
                                   zero_raw))) = true.
Proof.
  assert (H1 : one_sample <> []) by discriminate.
  assert (H2 : (length one_sample < 256)%nat) by (cbn; lia).
  assert (H3 : Forall int16_sample one_sample).
  { repeat constructor; cbn; lia. }
  assert (H4 : rotate initial_state = 0) by reflexivity.
  assert (H5 : -32768 <= fst (fst (accelbias initial_state)) <= 32767)
    by (cbn; lia).
  assert (H6 : -32768 <= snd (fst (accelbias initial_state)) <= 32767)
    by (cbn; lia).
  assert (H7 : -32768 <= snd (accelbias initial_state) <= 32767) by (cbn; lia).
  split; [exact H1|]. split; [exact H2|]. split; [exact H3|].
  split; [exact H4|]. split; [exact H5|]. split; [exact H6|]. split; [exact H7|].
  exact (proj1 (proj2 (conditioned_accels_are_finite one_sample initial_state
                         neutral_gyro zero_raw H1 H2 H3 H4 H5 H6 H7))).
Defined.

(** ** Level and at rest, pass after pass *)

Lemma sum_of_zero (f : pios_adxl345_data -> Z) (l : list pios_adxl345_data) :
  Forall (fun a => f a = 0) l -> sum_of f l = 0.
Proof.
  induction 1 as [|a l Ha _ IH]; cbn [sum_of fold_right]; [reflexivity|].
  fold (sum_of f l). lia.
Qed.

Lemma Forall_firstn {A : Type} (P : A -> Prop) (k : nat) :
  forall l : list A, Forall P l -> Forall P (firstn k l).
Proof.
  induction k as [|k IH]; intros l Hall.
  - constructor.
  - destruct Hall as [|a l Ha Hl]; cbn [firstn]; constructor.
    + exact Ha.
    + apply IH. exact Hl.
Qed.

Lemma vec3_is_zero_intro (v : vec3) :
  is_zero (v0 v) = true -> is_zero (v1 v) = true -> is_zero (v2 v) = true ->
  vec3_is_zero v = true.
Proof.
  intros H0 H1 H2. unfold vec3_is_zero. rewrite H0, H1, H2. reflexivity.
Qed.

Lemma vec3_is_zero_elim (v : vec3) :
  vec3_is_zero v = true ->
  is_zero (v0 v) = true /\ is_zero (v1 v) = true /\ is_zero (v2 v) = true.
Proof.
  unfold vec3_is_zero. intros Hz.
  apply andb_true_iff in Hz. destruct Hz as [Hz Hz2].
  apply andb_true_iff in Hz. destruct Hz as [Hz0 Hz1].
  repeat split; assumption.
Qed.

(** Counts at the neutral value convert to zero rates. *)
Lemma gyros_from_counts_neutral (gain : float32) (g : gyro_sample) :
  is_finite gain = true ->
  gyro_x g = F32.of_Z GYRO_NEUTRAL -> gyro_y g = F32.of_Z GYRO_NEUTRAL ->
  gyro_z g = F32.of_Z GYRO_NEUTRAL ->
  vec3_is_zero (gyros_from_counts gain g) = true.
Proof.
  intros Hg Hx Hy Hz. unfold gyros_from_counts. rewrite Hx, Hy, Hz.
  destruct gain as [sg|sg| |sg mg eg]; try discriminate; destruct sg; reflexivity.
Qed.

(** A zero average with no bias scales to a zero acceleration. *)
Lemma scale_accel_zero (a : float32) :
  is_zero a = true -> is_zero (scale_accel a 0) = true.
Proof.
  intros Ha. apply is_zero_eq in Ha. destruct Ha as [sa ->].
  destruct sa; reflexivity.
Qed.

Lemma average_of_zero (i : Z) :
  1 <= i <= 32 -> is_zero (F32.div (F32.of_Z 0) (F32.of_Z i)) = true.
Proof.
  intros Hi. destruct (of_Z_normal i ltac:(lia)) as (m & e & Hm & _).
  rewrite Hm. reflexivity.
Qed.

(** The step of the filter on a level craft at rest. *)
Lemma updateAttitude_at_rest {ML : MathLib} (s : state) (t : Z)
      (raw : AttitudeRawData) :
  at_rest s ->
  vec3_is_zero (gyros raw) = true ->
  is_zero (v0 (accels raw)) = true -> is_zero (v1 (accels raw)) = true ->
  is_finite (v2 (accels raw)) = true ->
  0 <= t < 4294967296 ->
  q (updateAttitude s t raw) = quat_identity /\
  vec3_is_zero (gyro_correct_int (updateAttitude s t raw)) = true.
Proof.
  intros (Hq & Hb & _ & _ & _ & _ & _ & Hkp & Hki & _ & Hl) Hg Hx Hy Hz Ht.
  destruct (compute_dT_finite t (lastSysTime s) Ht Hl) as (m & e & HdT).
  assert (He : vec3_is_zero (accel_err_of (q s) (accels raw)) = true).
  { rewrite Hq. destruct (accels raw) as [ax ay az].
    cbn [v0 v1 v2] in Hx, Hy, Hz. apply level_accel_err; assumption. }
  destruct (zero_error_feedback (accelKp s) (accelKi s) m e (gyro_correct_int s)
              (gyros raw) (accel_err_of (q s) (accels raw)) He Hkp Hki)
    as (B0 & B1 & R0 & R1 & R2).
  destruct (vec3_is_zero_elim _ Hg) as (G0 & G1 & G2).
  destruct (vec3_is_zero_elim _ Hb) as (Z0 & Z1 & Z2).
  split.
  - rewrite updateAttitude_q. unfold propagated_q. cbv zeta.
    rewrite HdT, Hq.
    rewrite (propagate_identity_at_rest _ m e); [apply renormalize_identity|].
    rewrite Hq in R0, R1, R2.
    apply vec3_is_zero_intro;
      [apply (same_value_zero _ _ R0 G0)|apply (same_value_zero _ _ R1 G1)
       |apply (same_value_zero _ _ R2 G2)].
  - rewrite updateAttitude_bias. apply vec3_is_zero_intro; cbn [v0 v1 v2].
    + apply (same_value_zero _ _ B0 Z0).
    + apply (same_value_zero _ _ B1 Z1).
    + exact Z2.
Qed.

Lemma at_rest_epilogue (u : state) (raw' : AttitudeRawData) :
  at_rest u -> at_rest (AlarmsClear (AttitudeRawSet u raw')).
Proof. intros Hu. exact Hu. Qed.

Lemma at_rest_failed (s : state) :
  at_rest s ->
  at_rest (AlarmsSet (PIOS_WDG_UpdateFlag s) SYSTEMALARMS_ALARM_ERROR).
Proof. intros Hs. exact Hs. Qed.

Lemma at_rest_policy (s : state) (i : cycle_input) :
  at_rest s ->
  is_finite (in_settings_AccelKp i) = true ->
  is_finite (in_settings_AccelKi i) = true ->
  is_finite (in_settings_YawBiasRate i) = true ->
  at_rest (PIOS_WDG_UpdateFlag (startup_policy s i)).
Proof.
  intros (Hq & Hb & Hr & Hb0 & Hb1 & Hb2 & Hg & Hkp & Hki & Hy & Hl) Fkp Fki Fy.
  unfold startup_policy.
  destruct (select_gain_branch s i); unfold at_rest;
    cbn [PIOS_WDG_UpdateFlag set_gains q gyro_correct_int rotate accelbias
         gyroGain accelKp accelKi yawBiasRate lastSysTime];
    repeat split; try assumption; try reflexivity; lia.
Qed.

Lemma at_rest_yaw (s : state) (gz : float32) :
  at_rest s -> is_zero gz = true -> at_rest (yaw_bias_update s gz).
Proof.
  intros (Hq & Hb & Hr & Hb0 & Hb1 & Hb2 & Hg & Hkp & Hki & Hy & Hl) Hz.
  destruct (vec3_is_zero_elim _ Hb) as (Z0 & Z1 & Z2).
  unfold at_rest, yaw_bias_update.
  cbn [set_gyro_correct_int q gyro_correct_int rotate accelbias gyroGain accelKp
       accelKi yawBiasRate lastSysTime].
  repeat split; try assumption; try lia.
  apply vec3_is_zero_intro; cbn [v0 v1 v2]; try assumption.
  apply F32_add_zero_zero; [exact Z2|].
  apply F32_mul_zero_l; [apply F32_neg_zero; exact Hz|exact Hy].
Qed.

Lemma at_rest_step {ML : MathLib} (s : state) (t : Z) (raw : AttitudeRawData) :
  at_rest s ->
  vec3_is_zero (gyros raw) = true ->
  is_zero (v0 (accels raw)) = true -> is_zero (v1 (accels raw)) = true ->
  is_finite (v2 (accels raw)) = true ->
  0 <= t < 4294967296 ->
  at_rest (updateAttitude s t raw).
Proof.
  intros Hs Hg Hx Hy Hz Ht.
  destruct (updateAttitude_at_rest s t raw Hs Hg Hx Hy Hz Ht) as [Hq Hb].
  destruct Hs as (_ & _ & Hr & Hb0 & Hb1 & Hb2 & Hgg & Hkp & Hki & Hyw & _).
  destruct (updateAttitude_frame s t raw)
    as (Fki & Fkp & Fy & Fg & Fab & _ & Fr & _ & _ & _ & _ & _ & _ & Fl).
  unfold at_rest. rewrite Fki, Fkp, Fy, Fg, Fab, Fr, Fl.
  repeat split; try assumption; lia.
Qed.

(** The conditioned sample of a pass on a level craft at rest. *)
Lemma at_rest_sensors (s : state) (l : list pios_adxl345_data) (g : gyro_sample)
      (raw : AttitudeRawData) :
  at_rest s -> l <> [] ->
  rest_pass (mkInput 0 0 0 0 F32.zero F32.zero F32.zero (Some g), l) ->
  vec3_is_zero (gyros (us_raw (updateSensors s l (Some g) raw))) = true /\
  is_zero (v0 (accels (us_raw (updateSensors s l (Some g) raw)))) = true /\
  is_zero (v1 (accels (us_raw (updateSensors s l (Some g) raw)))) = true /\
  is_finite (v2 (accels (us_raw (updateSensors s l (Some g) raw)))) = true.
Proof.
  intros (Hq & Hb & Hr & Hb0 & Hb1 & Hb2 & Hg & Hkp & Hki & Hy & Hl) Hne
         ((Gx & Gy & Gz) & Hlen & Hall & _).
  cbn [fst snd] in Hlen, Hall.
  assert (Hint : Forall int16_sample l).
  { apply Forall_impl with (2 := Hall). intros a (Hx & Hyy & Hz).
    unfold int16_sample. rewrite Hx, Hyy. lia. }
  pose proof (drain_fifo l Hne Hlen Hint) as Hd.
  pose proof (fifo_not_empty l Hne Hlen) as Hf.
  rewrite (updateSensors_success s l g raw Hf).
  unfold us_raw. cbn [fst snd accels gyros].
  unfold apply_rotation. rewrite Hr. cbn [Z.eqb negb fst snd].
  set (k := Nat.min (length l) 32) in *.
  assert (Hk : 1 <= Z.of_nat k <= 32).
  { unfold k. destruct l; [congruence|]. cbn [length]. lia. }
  assert (Sx : sum_of ad_x (firstn k l) = 0).
  { apply sum_of_zero, Forall_firstn.
    apply Forall_impl with (2 := Hall). intros a (Hx & _). exact Hx. }
  assert (Sy : sum_of ad_y (firstn k l) = 0).
  { apply sum_of_zero, Forall_firstn.
    apply Forall_impl with (2 := Hall). intros a (_ & Hyy & _). exact Hyy. }
  assert (Sz : - 2 ^ 21 < sum_of ad_z (firstn k l) < 2 ^ 21).
  { apply firstn_int16; [|unfold k; lia].
    apply Forall_impl with (2 := Hall). intros a (_ & _ & Hz). exact Hz. }
  split.
  - unfold correct_gyros.
    pose proof (gyros_from_counts_neutral (gyroGain s) g Hg Gx Gy Gz) as Hz.
    destruct (vec3_is_zero_elim _ Hz) as (Z0 & Z1 & Z2).
    destruct (vec3_is_zero_elim _ Hb) as (B0 & B1 & B2).
    destruct (bias_correct_gyro s); [|exact Hz].
    apply vec3_is_zero_intro; cbn [v0 v1 v2]; apply F32_add_zero_zero; assumption.
  - unfold scale_accels, accel_average. rewrite Hd. cbn [dr_i dr_x dr_y dr_z].
    destruct (accelbias s) as [[b0 b1] b2]. cbn [fst snd] in Hb0, Hb1, Hb2.
    subst b0 b1. cbn [v0 v1 v2]. rewrite Sx, Sy. cbn [Z.opp].
    split; [apply scale_accel_zero, average_of_zero; exact Hk|].
    split; [apply scale_accel_zero, average_of_zero; exact Hk|].
    apply scale_accel_finite; [|exact Hb2].
    apply average_zero_or_normal; [lia|exact Hk].
Qed.

Section RestLoop.
Context {ML : MathLib}.

Lemma at_rest_cycle (s : state) (l : list pios_adxl345_data) (i : cycle_input) :
  at_rest s -> rest_pass (i, l) -> at_rest (fst (AttitudeTask_cycle s l i)).
Proof.
  intros Hs Hp.
  pose proof Hp as (Hrx & Hlen & Hall & Ht & Fkp & Fki & Fy).
  cbn [fst snd] in Hrx, Hlen, Hall, Ht, Fkp, Fki, Fy.
  pose proof (at_rest_policy s i Hs Fkp Fki Fy) as Hs2.
  destruct (acquired i l) eqn:Ha.
  - destruct (AttitudeTask_cycle_acquired s l i Ha) as (raw' & Hraw & Hc).
    rewrite Hc. cbn [fst]. apply at_rest_epilogue.
    unfold acquired in Ha.
    destruct (in_gyro_rx i) as [g|] eqn:Hg; [|discriminate].
    assert (Hne : l <> []).
    { intros ->. discriminate. }
    destruct (at_rest_sensors (PIOS_WDG_UpdateFlag (startup_policy s i)) l g
                (attitudeRaw_obj (PIOS_WDG_UpdateFlag (startup_policy s i)))
                Hs2 Hne) as (Hgz & Hx & Hy & Hz).
    { unfold rest_pass. cbn [fst snd in_gyro_rx in_tick_c in_settings_AccelKp
                              in_settings_AccelKi in_settings_YawBiasRate].
      repeat split; try assumption; try reflexivity; try lia; apply Hrx. }
    rewrite Hraw in Hgz, Hx, Hy, Hz.
    apply at_rest_step; try assumption.
    apply at_rest_yaw; [exact Hs2|].
    apply (vec3_is_zero_elim _ Hgz).
  - rewrite (AttitudeTask_cycle_failed s l i Ha). cbn [fst].
    apply (at_rest_policy s i Hs Fkp Fki Fy).
Qed.

(** X24.  Level and at rest is an invariant of the whole task loop.  Start
    with the identity attitude, a bias integral of zeros, no board rotation,
    no accelerometer bias on X and Y and finite gains; let every pass find
    gyro counts at the neutral value 1665 and accelerometer samples with zero
    X and Y counts (any Z count), with finite gains in the settings object.
    Then after any number of passes, through the startup gains, arming and the
    reload of the settings gains, through timeouts and empty FIFOs, the
    quaternion is exactly the identity and the bias integral is still zero. *)
Theorem level_rest_is_invariant (passes : list (cycle_input * list pios_adxl345_data))
        (s : state) :
  at_rest s -> Forall rest_pass passes ->
  at_rest (AttitudeTask_loop passes s) /\
  q (AttitudeTask_loop passes s) = quat_identity /\
  vec3_is_zero (gyro_correct_int (AttitudeTask_loop passes s)) = true /\
  (actual_q (attitudeActual_obj s) = q s ->
   actual_q (attitudeActual_obj (AttitudeTask_loop passes s)) = quat_identity).
Proof.
  intros Hs Hall.
  assert (Hr : at_rest (AttitudeTask_loop passes s)).
  { revert s Hs. induction Hall as [|[i l] passes Hp _ IH]; intros s Hs;
      cbn [AttitudeTask_loop].
    - exact Hs.
    - apply IH. apply at_rest_cycle; assumption. }
  split; [exact Hr|].
  destruct Hr as (Hq & Hb & _).
  split; [exact Hq|]. split; [exact Hb|].
  intros Hinv.
  rewrite (proj1 (AttitudeTask_loop_published passes s) Hinv). exact Hq.
Qed.
End RestLoop.

Lemma level_rest_is_invariant_witness :
  at_rest (set_gains initial_state startup_kp startup_ki startup_yaw_bias_rate 0) /\
  Forall rest_pass
         [(input_at 5000 (Some neutral_gyro), [mkAccelData 0 0 (-250)]);
          (input_at 5002 None, [mkAccelData 0 0 (-250)]);
          (input_at 8000 (Some neutral_gyro),
           [mkAccelData 0 0 (-251); mkAccelData 0 0 (-249)])] /\
  q (AttitudeTask_loop (ML := RefLibm.lib)
       [(input_at 5000 (Some neutral_gyro), [mkAccelData 0 0 (-250)]);
        (input_at 5002 None, [mkAccelData 0 0 (-250)]);
        (input_at 8000 (Some neutral_gyro),
         [mkAccelData 0 0 (-251); mkAccelData 0 0 (-249)])]
       (set_gains initial_state startup_kp startup_ki startup_yaw_bias_rate 0))
  = quat_identity.
Proof.
  assert (H1 : at_rest (set_gains initial_state startup_kp startup_ki
                                  startup_yaw_bias_rate 0)).
  { unfold at_rest. cbn. repeat split; try reflexivity; lia. }
  assert (H2 : Forall rest_pass
                 [(input_at 5000 (Some neutral_gyro), [mkAccelData 0 0 (-250)]);
                  (input_at 5002 None, [mkAccelData 0 0 (-250)]);
                  (input_at 8000 (Some neutral_gyro),
                   [mkAccelData 0 0 (-251); mkAccelData 0 0 (-249)])]).
  { repeat constructor; cbn; lia. }
  split; [exact H1|]. split; [exact H2|].
  exact (proj1 (proj2 (level_rest_is_invariant (ML := RefLibm.lib) _ _ H1 H2))).
Defined.
